(** * Caribbean payroll API: the calculation engine, embedded and verified

    Shallow embedding of the payroll calculators of the repository

      - [app/models/__init__.py]                      (data model)
      - [app/calculators/base_FIXED.py]               (ledger, bracket evaluator, orchestrator)
      - [app/calculators/curacao_calculator_2026_FINAL.py]
      - [app/calculators/st_maarten.py], [aruba.py], [bonaire.py]

    Python's [decimal.Decimal] is modelled by an integer coefficient and a
    decimal exponent, with the arithmetic of the default context
    (28 significant digits, ROUND_HALF_EVEN) written out.  The
    [InvalidOperation] that [quantize] raises for a result of more than 28
    digits is modelled: [round_currency] returns an [option].

    The amounts of a request are finite decimals (the data model refuses
    NaN and Infinity); the cells of the tax table file are whatever
    [Decimal(text)] accepts, and [TableDecimal] holds the special values for
    them.  Two things of the Python type are left out: the sign of a zero (a
    negative zero compares equal to zero), and the exponent limits Emin and
    Emax of the context, beyond which Python raises [Overflow] or rounds to
    the grid of Etiny.  Where a statement depends on what happens there, it
    is made for amounts inside the exponent range ([Dec.in_exponent_range]),
    on which the operations below are the ones of Python. *)

From Stdlib Require Import ZArith List String Ascii Bool Lia Lra Reals.
From Stdlib Require Import DecimalString.
Import ListNotations.

Local Open Scope string_scope.
Local Open Scope Z_scope.

(* ================================================================== *)
(** ** Decimal arithmetic of Python's default context *)
(* ================================================================== *)

Module Dec.

(** A finite decimal: the number [coeff * 10 ^ expo]. *)
Record Decimal : Type := mkDecimal { coeff : Z; expo : Z }.

(** [getcontext().prec] *)
Definition prec : Z := 28.

(** Number of decimal digits of a non-negative integer ([len(str(n))];
    1 for 0). *)
Fixpoint digits_fuel (fuel : nat) (n : Z) : Z :=
  match fuel with
  | O => 1
  | S f => if n <? 10 then 1 else 1 + digits_fuel f (n / 10)
  end.

Definition ndigits (n : Z) : Z := digits_fuel (Z.to_nat (Z.log2 n)) n.

(** Rounding of [n / 10^k] to an integer, for [0 <= n], [0 <= k]. *)
Definition round_half_even (n k : Z) : Z :=
  let p := 10 ^ k in
  let q := n / p in
  let r := n mod p in
  match 2 * r ?= p with
  | Lt => q
  | Gt => q + 1
  | Eq => if Z.even q then q else q + 1
  end.

Definition round_half_up (n k : Z) : Z :=
  let p := 10 ^ k in
  let q := n / p in
  let r := n mod p in
  if p <=? 2 * r then q + 1 else q.

(** [Decimal._fix]: round the coefficient to [prec] digits, half even. *)
Definition fix_ctx (d : Decimal) : Decimal :=
  let n := Z.abs (coeff d) in
  let dg := ndigits n in
  if dg <=? prec then d
  else
    let k := dg - prec in
    let q := round_half_even n k in
    if q =? 10 ^ prec
    then mkDecimal (Z.sgn (coeff d) * 10 ^ (prec - 1)) (expo d + k + 1)
    else mkDecimal (Z.sgn (coeff d) * q) (expo d + k).

(** [a + b] *)
Definition add (a b : Decimal) : Decimal :=
  let m := Z.min (expo a) (expo b) in
  fix_ctx (mkDecimal (coeff a * 10 ^ (expo a - m) + coeff b * 10 ^ (expo b - m)) m).

(** [copy_negate] *)
Definition copy_negate (a : Decimal) : Decimal := mkDecimal (- coeff a) (expo a).

(** [-a] *)
Definition neg (a : Decimal) : Decimal := fix_ctx (copy_negate a).

(** [a - b], which Python computes as [a + b.copy_negate()] *)
Definition sub (a b : Decimal) : Decimal := add a (copy_negate b).

(** [a * b] *)
Definition mul (a b : Decimal) : Decimal :=
  fix_ctx (mkDecimal (coeff a * coeff b) (expo a + expo b)).

(** Strip trailing zeros of an exact quotient while the exponent is below
    the ideal one ([Decimal.__truediv__], the loop of the exact case). *)
Fixpoint strip_zeros (fuel : nat) (c e ideal : Z) : Z * Z :=
  match fuel with
  | O => (c, e)
  | S f =>
      if (e <? ideal) && (c mod 10 =? 0)
      then strip_zeros f (c / 10) (e + 1) ideal
      else (c, e)
  end.

(** [a / b] for [b] not zero (every divisor of the source is a non-zero
    literal; for a zero divisor Python raises and this function returns 0). *)
Definition div (a b : Decimal) : Decimal :=
  if coeff b =? 0 then mkDecimal 0 0
  else if coeff a =? 0 then fix_ctx (mkDecimal 0 (expo a - expo b))
  else
    let na := Z.abs (coeff a) in
    let nb := Z.abs (coeff b) in
    let sg := Z.sgn (coeff a) * Z.sgn (coeff b) in
    let shift := ndigits nb - ndigits na + prec + 1 in
    let e := expo a - expo b - shift in
    let num := if 0 <=? shift then na * 10 ^ shift else na in
    let den := if 0 <=? shift then nb else nb * 10 ^ (- shift) in
    let q := num / den in
    let r := num mod den in
    if r =? 0
    then
      let '(c', e') := strip_zeros (Z.to_nat (ndigits q)) q e (expo a - expo b) in
      fix_ctx (mkDecimal (sg * c') e')
    else
      let q' := if q mod 5 =? 0 then q + 1 else q in
      fix_ctx (mkDecimal (sg * q') e).

(** Numeric comparison ([a < b], [a == b], ... compare values, not
    representations). *)
Definition compare (a b : Decimal) : comparison :=
  let m := Z.min (expo a) (expo b) in
  (coeff a * 10 ^ (expo a - m)) ?= (coeff b * 10 ^ (expo b - m)).

Definition ltb (a b : Decimal) : bool :=
  match compare a b with Lt => true | _ => false end.
Definition leb (a b : Decimal) : bool :=
  match compare a b with Gt => false | _ => true end.
Definition eqb (a b : Decimal) : bool :=
  match compare a b with Eq => true | _ => false end.

(** The builtins [max(a, b)] and [min(a, b)]: the first argument wins a tie. *)
Definition max (a b : Decimal) : Decimal := if ltb a b then b else a.
Definition min (a b : Decimal) : Decimal := if ltb b a then b else a.

(** [Decimal._rescale(e, rounding)] with the two roundings the source uses. *)
Definition rescale (rnd : Z -> Z -> Z) (e : Z) (d : Decimal) : Decimal :=
  if e <=? expo d
  then mkDecimal (coeff d * 10 ^ (expo d - e)) e
  else mkDecimal (Z.sgn (coeff d) * rnd (Z.abs (coeff d)) (e - expo d)) e.

(** [d.quantize(Decimal('0.01'), rounding=ROUND_HALF_UP)]; [None] is the
    [InvalidOperation] raised when the result needs more than [prec] digits. *)
Definition quantize_cents (d : Decimal) : option Decimal :=
  let r := rescale round_half_up (-2) d in
  if (coeff d =? 0) then Some r
  else if prec <? ndigits (Z.abs (coeff d)) + expo d + 2 then None
  else if prec <? ndigits (Z.abs (coeff r)) then None
  else Some r.

(** Literals. *)
Definition of_Z (n : Z) : Decimal := mkDecimal n 0.

(** [d.adjusted()]: the exponent of the leading digit. *)
Definition adjusted (d : Decimal) : Z := expo d + ndigits (Z.abs (coeff d)) - 1.

(** [getcontext().Emax] and [getcontext().Emin].  The operations above do
    not look at them: Python raises [Overflow] for a rounded result whose
    adjusted exponent exceeds [Emax], and rounds a result whose adjusted
    exponent is below [Emin] to the grid of Etiny. *)
Definition Emax : Z := 999999.
Definition Emin : Z := -999999.

(** An amount far inside the exponent range: its leading digit stands
    between 10^-1000 and 10^1000.  The calculators multiply at most three
    amounts of a request with one another, so that no result of theirs on
    such amounts comes near [Emin] or [Emax]. *)
Definition EXPONENT_LIMIT : Z := 1000.

Definition in_exponent_range (d : Decimal) : bool :=
  (- EXPONENT_LIMIT <=? adjusted d) && (adjusted d <=? EXPONENT_LIMIT).

End Dec.

Abbreviation Decimal := Dec.Decimal.
Abbreviation mkDecimal := Dec.mkDecimal.

(* ================================================================== *)
(** ** Strings: the [str] methods and the number formatting the source uses *)
(* ================================================================== *)

(** Strings are byte strings here; [upper], [lower] and [title] act on the
    ASCII letters, as Python does on ASCII text ([isascii] tells such text:
    on other text Python's methods also map letters outside ASCII). *)
Module Str.

Fixpoint isascii (s : string) : bool :=
  match s with
  | EmptyString => true
  | String c rest => Nat.ltb (nat_of_ascii c) 128 && isascii rest
  end.

Definition is_upper (c : ascii) : bool :=
  let n := nat_of_ascii c in (Nat.leb 65 n && Nat.leb n 90)%bool.
Definition is_lower (c : ascii) : bool :=
  let n := nat_of_ascii c in (Nat.leb 97 n && Nat.leb n 122)%bool.

Definition upper_char (c : ascii) : ascii :=
  if is_lower c then ascii_of_nat (nat_of_ascii c - 32) else c.
Definition lower_char (c : ascii) : ascii :=
  if is_upper c then ascii_of_nat (nat_of_ascii c + 32) else c.

Fixpoint map_string (f : ascii -> ascii) (s : string) : string :=
  match s with
  | EmptyString => EmptyString
  | String c r => String (f c) (map_string f r)
  end.

(** [s.upper()], [s.lower()] *)
Definition upper : string -> string := map_string upper_char.
Definition lower : string -> string := map_string lower_char.

(** [s.replace('_', ' ')] *)
Definition replace_underscore : string -> string :=
  map_string (fun c => if Ascii.eqb c "_" then " "%char else c).

(** [s.title()] *)
Fixpoint title_from (prev_cased : bool) (s : string) : string :=
  match s with
  | EmptyString => EmptyString
  | String c r =>
      if (is_upper c || is_lower c)%bool
      then String (if prev_cased then lower_char c else upper_char c) (title_from true r)
      else String c (title_from false r)
  end.
Definition title : string -> string := title_from false.

(** [sep.join(parts)] *)
Fixpoint join (sep : string) (parts : list string) : string :=
  match parts with
  | [] => EmptyString
  | [p] => p
  | p :: rest => p ++ sep ++ join sep rest
  end.

(** [str(n)] for a non-negative integer. *)
Definition of_nonneg (n : Z) : string := NilEmpty.string_of_uint (N.to_uint (Z.to_N n)).

Fixpoint zeros (k : nat) : string :=
  match k with O => EmptyString | S k' => String "0" (zeros k') end.

(** [s[:k]] and [s[k:]] *)
Definition take (k : nat) (s : string) : string := substring 0 k s.
Definition drop (k : nat) (s : string) : string := substring k (length s - k) s.

(** [needle in s] *)
Fixpoint contains (needle s : string) : bool :=
  if prefix needle s then true
  else match s with
       | EmptyString => false
       | String _ r => contains needle r
       end.

End Str.

Module DecFmt.
Import Dec.

(** [str(d)] ([Decimal.__str__], scientific notation included). *)
Definition str (d : Decimal) : string :=
  let sign := if coeff d <? 0 then "-" else EmptyString in
  let digs := Str.of_nonneg (Z.abs (coeff d)) in
  let len := Z.of_nat (String.length digs) in
  let leftdigits := expo d + len in
  let dotplace := if (expo d <=? 0) && (-6 <? leftdigits) then leftdigits else 1 in
  let intpart :=
    if dotplace <=? 0 then "0"
    else if len <=? dotplace then digs ++ Str.zeros (Z.to_nat (dotplace - len))
    else Str.take (Z.to_nat dotplace) digs in
  let fracpart :=
    if dotplace <=? 0 then "." ++ Str.zeros (Z.to_nat (- dotplace)) ++ digs
    else if len <=? dotplace then EmptyString
    else "." ++ Str.drop (Z.to_nat dotplace) digs in
  let e := leftdigits - dotplace in
  let exp :=
    if e =? 0 then EmptyString
    else "E" ++ (if e <? 0 then "-" else "+") ++ Str.of_nonneg (Z.abs e) in
  sign ++ intpart ++ fracpart ++ exp.

(** [format(d, '.<p>f')]: rescale to [p] decimals with the rounding of the
    context (half even), then print in fixed-point notation. *)
Definition format_f (p : Z) (d : Decimal) : string :=
  let r := rescale round_half_even (- p) d in
  let n := Z.abs (coeff r) in
  let sign := if coeff d <? 0 then "-" else EmptyString in
  let intpart := Str.of_nonneg (n / 10 ^ p) in
  let frac := Str.of_nonneg (n mod 10 ^ p) in
  let fracpart :=
    if p =? 0 then EmptyString
    else "." ++ Str.zeros (Z.to_nat p - String.length frac) ++ frac in
  sign ++ intpart ++ fracpart.

End DecFmt.

(* ================================================================== *)
(** ** Data model ([app/models/__init__.py]) *)
(* ================================================================== *)

(** [datetime.date]; the engine only copies the two period dates. *)
Record date : Type := mkDate { year : Z; month : Z; day : Z }.

(** A Python [dict] with string keys: insertion-ordered, one entry per key;
    assigning to a key that is present replaces its value in place. *)
Definition dict (V : Type) : Type := list (string * V).

Fixpoint dict_set {V : Type} (k : string) (v : V) (d : dict V) : dict V :=
  match d with
  | [] => [(k, v)]
  | (k', v') :: r =>
      if String.eqb k k' then (k', v) :: r else (k', v') :: dict_set k v r
  end.

Fixpoint dict_get {V : Type} (k : string) (d : dict V) : option V :=
  match d with
  | [] => None
  | (k', v') :: r => if String.eqb k k' then Some v' else dict_get k r
  end.

Definition dict_keys {V : Type} (d : dict V) : list string := map fst d.
Definition dict_values {V : Type} (d : dict V) : list V := map snd d.

(** The membership tests [s in [...]] on lists of strings. *)
Definition in_strings (s : string) (l : list string) : bool :=
  existsb (String.eqb s) l.

Module EmployeeInput.
Record t : Type := mk {
  employee_id : string;
  name : string;
  jurisdiction : string;
  gross_salary : Decimal;
  hourly_rate : option Decimal;
  period_start : date;
  period_end : date;
  regular_hours : Decimal;
  overtime_hours : Decimal;
  allowances : dict Decimal;
  deductions : dict Decimal;
  tax_exempt : bool;
  tax_percentage : option Decimal;
  dependents : Z;
  aov_exempt : bool;
  aww_exempt : bool
}.
End EmployeeInput.

(** The [category] strings of a line item. *)
Inductive Category : Type := EARNING | DEDUCTION | NET.

Definition Category_eqb (a b : Category) : bool :=
  match a, b with
  | EARNING, EARNING | DEDUCTION, DEDUCTION | NET, NET => true
  | _, _ => false
  end.

Module PayrollLineItem.
Record t : Type := mk {
  code : string;
  name : string;
  category : Category;
  amount : Decimal;
  rate : option Decimal;
  base_amount : option Decimal;
  notes : option string
}.
End PayrollLineItem.

(** [calculation_date], which defaults to the day of the run, is not part of
    the model. *)
Module PayrollCalculationResult.
Record t : Type := mk {
  employee_id : string;
  jurisdiction : string;
  period_start : date;
  period_end : date;
  gross_total : Decimal;
  deductions_total : Decimal;
  net_salary : Decimal;
  line_items : list PayrollLineItem.t;
  earnings : dict Decimal;
  statutory_deductions : dict Decimal;
  other_deductions : dict Decimal;
  calculation_notes : list string;
  warnings : list string
}.
End PayrollCalculationResult.

(* ================================================================== *)
(** ** The calculator's mutable fields and the monad that threads them *)
(* ================================================================== *)

(** [self.line_items], [self.warnings], [self.notes] *)
Record CalcState : Type := mkState {
  line_items : list PayrollLineItem.t;
  warnings : list string;
  notes : list string
}.

(** A method of the calculator: it reads and updates the fields, and either
    returns a value or raises ([None]). *)
Definition M (A : Type) : Type := CalcState -> option (A * CalcState).

Definition ret {A : Type} (a : A) : M A := fun s => Some (a, s).

Definition bind {A B : Type} (m : M A) (k : A -> M B) : M B :=
  fun s => match m s with
           | Some (a, s') => k a s'
           | None => None
           end.

Definition raise {A : Type} : M A := fun _ => None.

Definition lift_option {A : Type} (o : option A) : M A :=
  fun s => match o with Some a => Some (a, s) | None => None end.

Declare Scope calc_scope.
Delimit Scope calc_scope with calc.
Notation "x <- m ;; k" := (bind m (fun x => k))
  (at level 61, m at next level, right associativity) : calc_scope.
Notation "m ;; k" := (bind m (fun _ => k))
  (at level 61, right associativity) : calc_scope.
Local Open Scope calc_scope.

(** [self.warnings.append(w)] *)
Definition append_warning (w : string) : M unit :=
  fun s => Some (tt, mkState (line_items s) (warnings s ++ [w]) (notes s)).

(* ================================================================== *)
(** ** [BasePayrollCalculator] ([app/calculators/base_FIXED.py]) *)
(* ================================================================== *)

(** [round_currency]: two decimals, ROUND_HALF_UP *)
Definition round_currency (amount : Decimal) : option Decimal :=
  Dec.quantize_cents amount.

(** [add_line_item]: the amount is rounded as the item is appended. *)
Definition add_line_item (code name : string) (category : Category)
    (amount : Decimal) (rate base_amount : option Decimal)
    (notes_ : option string) : M unit :=
  fun s =>
    match round_currency amount with
    | None => None
    | Some a =>
        Some (tt, mkState
                    (line_items s ++
                       [PayrollLineItem.mk code name category a rate base_amount notes_])
                    (warnings s) (notes s))
    end.

(** [calculate_other_deductions]: the loop over [employee.deductions]. *)
Fixpoint other_deductions_loop (ds : dict Decimal) (total : Decimal) : M Decimal :=
  match ds with
  | [] => ret total
  | (code, amount) :: rest =>
      add_line_item ("DED_" ++ Str.upper code)
                    (Str.title (Str.replace_underscore code))
                    DEDUCTION amount None None None ;;
      other_deductions_loop rest (Dec.add total amount)
  end.

Definition calculate_other_deductions (employee : EmployeeInput.t) : M Decimal :=
  other_deductions_loop (EmployeeInput.deductions employee) (Dec.of_Z 0).

(** A bracket [(lower_limit, upper_limit, rate)]. *)
Definition bracket : Type := (Decimal * Decimal * Decimal)%type.

(** The note fragment of one applied bracket: [f"{rate * 100}% on {bracket_amount}"] *)
Definition bracket_note (rate bracket_amount : Decimal) : string :=
  DecFmt.str (Dec.mul rate (Dec.of_Z 100)) ++ "% on " ++ DecFmt.str bracket_amount.

(** The [for] loop of [calculate_progressive_tax], with its [break]. *)
Fixpoint progressive_loop (taxable_amount : Decimal) (brackets : list bracket)
    (tax : Decimal) (notes_parts : list string) : Decimal * list string :=
  match brackets with
  | [] => (tax, notes_parts)
  | (lower, upper, rate) :: rest =>
      if Dec.leb taxable_amount lower then (tax, notes_parts)
      else
        let bracket_amount := Dec.sub (Dec.min taxable_amount upper) lower in
        let bracket_tax := Dec.mul bracket_amount rate in
        progressive_loop taxable_amount rest (Dec.add tax bracket_tax)
          (notes_parts ++ [bracket_note rate bracket_amount])
  end.

Definition calculate_progressive_tax (taxable_amount : Decimal)
    (brackets : list bracket) : option (Decimal * string) :=
  let '(tax, notes_parts) := progressive_loop taxable_amount brackets (Dec.of_Z 0) [] in
  let notes_ := match notes_parts with
                | [] => "No tax"
                | _ => Str.join " + " notes_parts
                end in
  match round_currency tax with
  | Some t => Some (t, notes_)
  | None => None
  end.

(** The three abstract methods a jurisdiction implements. *)
Record BasePayrollCalculator : Type := mkCalculator {
  calculate_gross : EmployeeInput.t -> M Decimal;
  calculate_tax : EmployeeInput.t -> Decimal -> M Decimal;
  calculate_social_security : EmployeeInput.t -> Decimal -> M (dict Decimal)
}.

(** [sum(d.values())]: the builtin starts from the integer 0. *)
Definition sum_values (d : dict Decimal) : Decimal :=
  fold_left Dec.add (dict_values d) (Dec.of_Z 0).

(** The labels of the allowances that are taxed but not paid out. *)
Definition NON_CASH_LABELS : list string := ["phone"; "telefoon"].

(** The loop of [calculate] that adds the paid allowances to the net. *)
Fixpoint add_paid_allowances (als : dict Decimal) (net_salary : Decimal) : Decimal :=
  match als with
  | [] => net_salary
  | (allowance_code, amount) :: rest =>
      if negb (in_strings (Str.lower allowance_code) NON_CASH_LABELS)
      then add_paid_allowances rest (Dec.add net_salary amount)
      else add_paid_allowances rest net_salary
  end.

Definition STATUTORY_CODES : list string :=
  ["TAX"; "AOV"; "AWW"; "CESANTIA"; "SOCIAL_SEC"].

(** The dict comprehension [{item.code: item.amount for item in items if keep(item)}] *)
Definition group_by_code (keep : PayrollLineItem.t -> bool)
    (items : list PayrollLineItem.t) : dict Decimal :=
  fold_left
    (fun d item =>
       if keep item
       then dict_set (PayrollLineItem.code item) (PayrollLineItem.amount item) d
       else d)
    items [].

Definition is_earning (item : PayrollLineItem.t) : bool :=
  Category_eqb (PayrollLineItem.category item) EARNING.
Definition is_statutory (item : PayrollLineItem.t) : bool :=
  Category_eqb (PayrollLineItem.category item) DEDUCTION
  && in_strings (PayrollLineItem.code item) STATUTORY_CODES.
Definition is_other (item : PayrollLineItem.t) : bool :=
  Category_eqb (PayrollLineItem.category item) DEDUCTION
  && negb (in_strings (PayrollLineItem.code item) STATUTORY_CODES).

(** The stages of [calculate], run on the reset fields. *)
Definition run_stages (calc : BasePayrollCalculator) (employee : EmployeeInput.t)
  : M (Decimal * Decimal * dict Decimal * Decimal) :=
  gross_total <- calculate_gross calc employee ;;
  tax_amount <- calculate_tax calc employee gross_total ;;
  social_security <- calculate_social_security calc employee gross_total ;;
  other_deductions_total <- calculate_other_deductions employee ;;
  ret (gross_total, tax_amount, social_security, other_deductions_total).

(** [BasePayrollCalculator.calculate] *)
Definition calculate (calc : BasePayrollCalculator) (employee : EmployeeInput.t)
  : option PayrollCalculationResult.t :=
  match run_stages calc employee (mkState [] [] []) with
  | None => None
  | Some ((gross_total, tax_amount, social_security, other_deductions_total), s) =>
      let deductions_total :=
        Dec.add (Dec.add tax_amount (sum_values social_security)) other_deductions_total in
      let net_salary :=
        add_paid_allowances (EmployeeInput.allowances employee)
                            (EmployeeInput.gross_salary employee) in
      let net_salary := Dec.sub net_salary deductions_total in
      match round_currency gross_total,
            round_currency deductions_total,
            round_currency net_salary with
      | Some g, Some d, Some n =>
          Some (PayrollCalculationResult.mk
                  (EmployeeInput.employee_id employee)
                  (EmployeeInput.jurisdiction employee)
                  (EmployeeInput.period_start employee)
                  (EmployeeInput.period_end employee)
                  g d n
                  (line_items s)
                  (group_by_code is_earning (line_items s))
                  (group_by_code is_statutory (line_items s))
                  (group_by_code is_other (line_items s))
                  (notes s)
                  (warnings s))
      | _, _, _ => None
      end
  end.

(** The loop over [employee.allowances] shared by every [calculate_gross]. *)
Fixpoint allowances_loop (als : dict Decimal) (gross : Decimal) : M Decimal :=
  match als with
  | [] => ret gross
  | (allowance_code, amount) :: rest =>
      add_line_item ("ALW_" ++ Str.upper allowance_code)
                    (Str.title (Str.replace_underscore allowance_code))
                    EARNING amount None None None ;;
      allowances_loop rest (Dec.add gross amount)
  end.

(* ================================================================== *)
(** ** Curaçao, 2026 rates ([curacao_calculator_2026_FINAL.py]) *)
(* ================================================================== *)

(** What [Decimal(text)] gives for a text it accepts: a finite number, an
    infinity ("Infinity", "-Infinity") or a NaN (quiet or signalling, which
    behave alike wherever the source meets one). *)
Inductive TableDecimal : Type :=
| Finite (d : Decimal)
| Infinite (negative : bool)
| NotANumber.

(** [a <= b] and [b < a] with a value of the table for [a].  An infinity
    compares as such; a comparison with a NaN raises [InvalidOperation],
    which is the [None]. *)
Definition table_leb (a : TableDecimal) (b : Decimal) : option bool :=
  match a with
  | Finite d => Some (Dec.leb d b)
  | Infinite negative => Some negative
  | NotANumber => None
  end.

Definition table_gtb (a : TableDecimal) (b : Decimal) : option bool :=
  match a with
  | Finite d => Some (Dec.ltb b d)
  | Infinite negative => Some (negb negative)
  | NotANumber => None
  end.

(** [a - b]: an infinity and a NaN stay what they are. *)
Definition table_sub (a : TableDecimal) (b : Decimal) : TableDecimal :=
  match a with
  | Finite d => Finite (Dec.sub d b)
  | _ => a
  end.

(** The builtin [max(a, Decimal("0"))]: the literal is greater than
    [-Infinity]; with a NaN the comparison raises. *)
Definition table_max_zero (a : TableDecimal) : option TableDecimal :=
  match a with
  | Finite d => Some (Finite (Dec.max d (Dec.of_Z 0)))
  | Infinite true => Some (Finite (Dec.of_Z 0))
  | Infinite false => Some a
  | NotANumber => None
  end.

(** [format(a, '.<p>f')] *)
Definition table_format_f (p : Z) (a : TableDecimal) : string :=
  match a with
  | Finite d => DecFmt.format_f p d
  | Infinite negative => (if negative then "-" else EmptyString) ++ "Infinity"
  | NotANumber => "NaN"
  end.

(** The file [data/maandtabel_2026.csv] is not part of the sources; its
    content is a parameter.  A cell of a CSV row is an empty string, a string
    that [Decimal(...)] accepts, or a string on which [Decimal(...)]
    raises. *)
Inductive cell : Type :=
| CellEmpty
| CellValue (v : TableDecimal)
| CellBad.

(** A cell that holds a finite number. *)
Abbreviation CellDecimal d := (CellValue (Finite d)).

Definition csv_row : Type := list cell.

(** [None]: the path does not exist.  [Some rows]: the rows of the file, the
    header first. *)
Definition tax_table_file : Type := option (list csv_row).

Module Curacao.

Definition TAX_BRACKETS : list bracket :=
  [ (mkDecimal 0 0,         mkDecimal 211667 (-2), mkDecimal 975 (-4));
    (mkDecimal 211667 (-2), mkDecimal 284167 (-2), mkDecimal 15 (-2));
    (mkDecimal 284167 (-2), mkDecimal 378333 (-2), mkDecimal 23 (-2));
    (mkDecimal 378333 (-2), mkDecimal 5675 0,      mkDecimal 30 (-2));
    (mkDecimal 5675 0,      mkDecimal 804167 (-2), mkDecimal 375 (-3));
    (mkDecimal 804167 (-2), mkDecimal 11825 0,     mkDecimal 465 (-3));
    (mkDecimal 11825 0,     mkDecimal 999999999 0, mkDecimal 465 (-3)) ].

Definition BASISAFTREK : Decimal := mkDecimal 2915 0.
Definition VASTE_AFTREK : Decimal := mkDecimal 500 0.

Definition AOV_AWW_EMPLOYEE_RATE : Decimal := mkDecimal 65 (-3).
Definition AOV_AWW_MAX_ANNUAL : Decimal := mkDecimal 100000 0.
Definition AOV_AWW_MAX_MONTHLY : Decimal := Dec.div AOV_AWW_MAX_ANNUAL (Dec.of_Z 12).

Definition KORTING_BASE : Decimal := mkDecimal 9340 0.
Definition KORTING_PERCENTAGE : Decimal := mkDecimal 338 (-3).
Definition KORTING_RATE : Decimal := mkDecimal 65 (-3).
Definition KORTING_MAX_INCOME : Decimal := mkDecimal 27633 0.

Definition BVZ_EMPLOYEE_RATE : Decimal := mkDecimal 43 (-3).
Definition BVZ_MAX_ANNUAL : Decimal := mkDecimal 150000 0.
Definition BVZ_MAX_MONTHLY : Decimal := Dec.div BVZ_MAX_ANNUAL (Dec.of_Z 12).
Definition BVZ_VRIJSTELLING_ANNUAL : Decimal := mkDecimal 12000 0.
Definition BVZ_GLIDING_START : Decimal := mkDecimal 12000 0.
Definition BVZ_GLIDING_END : Decimal := mkDecimal 18000 0.

Definition BVZ_GLIDING_SCALE : list bracket :=
  [ (mkDecimal 12000 0, mkDecimal 13200 0, mkDecimal 38 (-3));
    (mkDecimal 13200 0, mkDecimal 14400 0, mkDecimal 28 (-3));
    (mkDecimal 14400 0, mkDecimal 15600 0, mkDecimal 19 (-3));
    (mkDecimal 15600 0, mkDecimal 16800 0, mkDecimal 11 (-3));
    (mkDecimal 16800 0, mkDecimal 18000 0, mkDecimal 6 (-3)) ].

Definition AVBZ_EMPLOYEE_RATE : Decimal := mkDecimal 15 (-3).
Definition AVBZ_MAX_ANNUAL : Decimal := mkDecimal 60624708 (-2).
Definition AVBZ_MAX_MONTHLY : Decimal := Dec.div AVBZ_MAX_ANNUAL (Dec.of_Z 12).
Definition AVBZ_REDUCED_THRESHOLD : Decimal := mkDecimal 22789 0.
Definition AVBZ_REDUCED_EMPLOYEE : Decimal := mkDecimal 5 (-3).

Definition OVERTIME_MULTIPLIER : Decimal := mkDecimal 15 (-1).

(** [calculate_gross] *)
Definition calculate_gross (employee : EmployeeInput.t) : M Decimal :=
  let gross := Dec.of_Z 0 in
  let base_salary := EmployeeInput.gross_salary employee in
  add_line_item "BASIC" "Basic Salary" EARNING base_salary None None None ;;
  let gross := Dec.add gross base_salary in
  gross <-
    (if Dec.ltb (Dec.of_Z 0) (EmployeeInput.overtime_hours employee)
     then
       let overtime_rate :=
         match EmployeeInput.hourly_rate employee with
         | Some hr =>
             if Dec.eqb hr (Dec.of_Z 0)
             then Dec.mul (Dec.div (EmployeeInput.gross_salary employee) (Dec.of_Z 160))
                          OVERTIME_MULTIPLIER
             else Dec.mul hr OVERTIME_MULTIPLIER
         | None =>
             Dec.mul (Dec.div (EmployeeInput.gross_salary employee) (Dec.of_Z 160))
                     OVERTIME_MULTIPLIER
         end in
       let overtime_pay := Dec.mul overtime_rate (EmployeeInput.overtime_hours employee) in
       add_line_item "OVERTIME" "Overtime Pay" EARNING overtime_pay
         (Some OVERTIME_MULTIPLIER) (Some overtime_rate)
         (Some (DecFmt.str (EmployeeInput.overtime_hours employee) ++ " hours @ "
                ++ DecFmt.str overtime_rate ++ "/hour")) ;;
       ret (Dec.add gross overtime_pay)
     else ret gross) ;;
  allowances_loop (EmployeeInput.allowances employee) gross.

(** [calculate_premium_income_monthly] *)
Definition calculate_premium_income_monthly (gross : Decimal) : Decimal :=
  let monthly_vaste_aftrek := Dec.div VASTE_AFTREK (Dec.of_Z 12) in
  let premium_income := Dec.sub gross monthly_vaste_aftrek in
  Dec.max premium_income (Dec.of_Z 0).

(** [calculate_aov_aww_korting_monthly] *)
Definition calculate_aov_aww_korting_monthly (annual_premium_income : Decimal) : Decimal :=
  if Dec.leb KORTING_MAX_INCOME annual_premium_income then Dec.of_Z 0
  else
    let korting_annual :=
      Dec.mul (Dec.sub KORTING_BASE (Dec.mul KORTING_PERCENTAGE annual_premium_income))
              KORTING_RATE in
    let korting_annual := Dec.max korting_annual (Dec.of_Z 0) in
    Dec.div korting_annual (Dec.of_Z 12).

(** The [for] loop of [calculate_bvz_gliding_discount]. *)
Fixpoint gliding_scale_lookup (annual_income : Decimal) (scale : list bracket) : Decimal :=
  match scale with
  | [] => Dec.of_Z 0
  | (bracket_start, bracket_end, discount) :: rest =>
      if Dec.leb bracket_start annual_income && Dec.ltb annual_income bracket_end
      then discount
      else gliding_scale_lookup annual_income rest
  end.

(** [calculate_bvz_gliding_discount] *)
Definition calculate_bvz_gliding_discount (annual_income : Decimal) : Decimal :=
  if Dec.ltb annual_income BVZ_GLIDING_START then Dec.of_Z 0
  else if Dec.leb BVZ_GLIDING_END annual_income then Dec.of_Z 0
  else gliding_scale_lookup annual_income BVZ_GLIDING_SCALE.

(** The row loop of [lookup_tax_from_table]; [last] is the variable [tax]
    left by the rows read so far.  A [None] is the [None] that the method
    returns, at the end of a file without a row read (where [tax] is not
    bound) and from its [except] clause.  The chained comparison
    [min_val <= tax_base < max_val] looks at [max_val] only when
    [min_val <= tax_base]. *)
Fixpoint table_rows_loop (tax_base : Decimal) (rows : list csv_row)
    (last : option TableDecimal) : option TableDecimal :=
  match rows with
  | [] => last
  | row :: rest =>
      match row with
      | c0 :: c1 :: c2 :: _ =>
          match c0, c1, c2 with
          | CellEmpty, _, _ | _, CellEmpty, _ | _, _, CellEmpty =>
              table_rows_loop tax_base rest last
          | CellValue min_val, CellValue max_val, CellValue tax =>
              match table_leb min_val tax_base with
              | None => None
              | Some false => table_rows_loop tax_base rest (Some tax)
              | Some true =>
                  match table_gtb max_val tax_base with
                  | None => None
                  | Some true => Some tax
                  | Some false => table_rows_loop tax_base rest (Some tax)
                  end
              end
          | _, _, _ => None
          end
      | _ => table_rows_loop tax_base rest last
      end
  end.

(** [lookup_tax_from_table] (the second definition of the class body, which
    replaces the class method of the same name): [None] is the Python [None]. *)
Definition lookup_tax_from_table (file : tax_table_file) (tax_base : Decimal)
  : option TableDecimal :=
  match file with
  | None => None
  | Some [] => None
  | Some (_header :: rows) => table_rows_loop tax_base rows None
  end.

Section WithTable.

Variable file : tax_table_file.

(** The final AOV/AWW premium as [calculate_tax] recomputes it. *)
Definition aov_aww_final_of (premium_income_monthly : Decimal) : Decimal :=
  let aov_aww_base := Dec.min premium_income_monthly AOV_AWW_MAX_MONTHLY in
  let aov_aww_employee_raw := Dec.mul aov_aww_base AOV_AWW_EMPLOYEE_RATE in
  let premium_income_annual := Dec.mul premium_income_monthly (Dec.of_Z 12) in
  let korting_monthly :=
    if Dec.ltb premium_income_annual KORTING_MAX_INCOME
    then calculate_aov_aww_korting_monthly premium_income_annual
    else Dec.of_Z 0 in
  Dec.max (Dec.sub aov_aww_employee_raw korting_monthly) (Dec.of_Z 0).

(** [calculate_tax] *)
Definition calculate_tax (employee : EmployeeInput.t) (gross : Decimal) : M Decimal :=
  if EmployeeInput.tax_exempt employee then
    append_warning "Employee is tax exempt" ;;
    add_line_item "TAX" "Wage Tax (Exempt)" DEDUCTION (Dec.of_Z 0) None None
                  (Some "Tax exempt status") ;;
    ret (Dec.of_Z 0)
  else
    match EmployeeInput.tax_percentage employee with
    | Some tax_percentage =>
        let tax := Dec.mul gross (Dec.div tax_percentage (Dec.of_Z 100)) in
        add_line_item "TAX" "Wage Tax" DEDUCTION tax
          (Some (Dec.div tax_percentage (Dec.of_Z 100))) (Some gross)
          (Some ("Custom rate: " ++ DecFmt.str tax_percentage ++ "%")) ;;
        ret tax
    | None =>
        let premium_income_monthly := calculate_premium_income_monthly gross in
        let aov_aww_final := aov_aww_final_of premium_income_monthly in
        let tax_base := Dec.sub premium_income_monthly aov_aww_final in
        raw <-
          match lookup_tax_from_table file tax_base with
          | None =>
              p <- lift_option (calculate_progressive_tax tax_base TAX_BRACKETS) ;;
              ret (Finite (fst p), "Progressive brackets (fallback)")
          | Some raw_tax =>
              ret (raw_tax,
                   "Official table lookup (NAf " ++ DecFmt.format_f 2 tax_base ++ ")")
          end ;;
        let '(raw_tax, tax_method) := raw in
        let monthly_basisaftrek := Dec.div BASISAFTREK (Dec.of_Z 12) in
        let tax_credits := monthly_basisaftrek in
        final <- lift_option (table_max_zero (table_sub raw_tax tax_credits)) ;;
        match final with
        | Finite final_tax =>
            add_line_item "TAX" "Wage Tax (Loonbelasting)" DEDUCTION final_tax
              None (Some tax_base)
              (Some (tax_method ++ " | Gross tax: NAf " ++ table_format_f 2 raw_tax
                     ++ " - Basisaftrek: NAf " ++ DecFmt.format_f 2 tax_credits)) ;;
            ret final_tax
        | _ => raise
        end
    end.


(** [calculate_social_security], the AOV/AWW part. *)
Definition social_security_aov_aww (employee : EmployeeInput.t)
    (premium_income_monthly premium_income_annual : Decimal)
    (contributions : dict Decimal) : M (dict Decimal) :=
  if negb (EmployeeInput.aov_exempt employee) then
    let aov_aww_base := Dec.min premium_income_monthly AOV_AWW_MAX_MONTHLY in
    let aov_aww_employee_raw := Dec.mul aov_aww_base AOV_AWW_EMPLOYEE_RATE in
    add_line_item "AOV_AWW" "AOV/AWW (6.5%)" DEDUCTION aov_aww_employee_raw
      (Some AOV_AWW_EMPLOYEE_RATE) (Some aov_aww_base)
      (Some "Pension & Widow/er Insurance") ;;
    let '(korting_monthly, korting_note) :=
      if Dec.ltb premium_income_annual KORTING_MAX_INCOME
      then (calculate_aov_aww_korting_monthly premium_income_annual,
            "Credit: income < NAf 27,633")
      else (Dec.of_Z 0, "Income >= NAf 27,633") in
    add_line_item "KORTING" "Premie Korting" DEDUCTION (Dec.neg korting_monthly)
      None None (Some korting_note) ;;
    let aov_aww_employee_final :=
      Dec.max (Dec.sub aov_aww_employee_raw korting_monthly) (Dec.of_Z 0) in
    ret (dict_set "AOV_AWW" aov_aww_employee_final contributions)
  else
    append_warning "Employee is AOV/AWW exempt" ;;
    ret (dict_set "AOV_AWW" (Dec.of_Z 0) contributions).

(** [calculate_social_security], the BVZ part. *)
Definition social_security_bvz
    (premium_income_monthly premium_income_annual : Decimal)
    (contributions : dict Decimal) : M (dict Decimal) :=
  if Dec.ltb premium_income_annual BVZ_VRIJSTELLING_ANNUAL then
    add_line_item "BVZ" "BVZ (Health Insurance)" DEDUCTION (Dec.of_Z 0) None None
      (Some ("Exempt: income below NAf " ++ DecFmt.format_f 2 BVZ_VRIJSTELLING_ANNUAL
             ++ "/year")) ;;
    ret (dict_set "BVZ" (Dec.of_Z 0) contributions)
  else
    let bvz_base := Dec.min premium_income_monthly BVZ_MAX_MONTHLY in
    let bvz_raw := Dec.mul bvz_base BVZ_EMPLOYEE_RATE in
    let gliding_discount := calculate_bvz_gliding_discount premium_income_annual in
    let discount_amount := Dec.mul bvz_raw gliding_discount in
    let bvz_final := Dec.sub bvz_raw discount_amount in
    let notes_ :=
      if Dec.ltb (Dec.of_Z 0) discount_amount
      then "Health Insurance" ++ " | Discount: -"
           ++ DecFmt.format_f 1 (Dec.mul gliding_discount (Dec.of_Z 100)) ++ "%"
      else "Health Insurance" in
    add_line_item "BVZ" "BVZ (4.3%)" DEDUCTION bvz_final
      (Some BVZ_EMPLOYEE_RATE) (Some bvz_base) (Some notes_) ;;
    ret (dict_set "BVZ" bvz_final contributions).

(** [calculate_social_security], the AVBZ part. *)
Definition social_security_avbz
    (premium_income_monthly premium_income_annual : Decimal)
    (contributions : dict Decimal) : M (dict Decimal) :=
  let avbz_base := Dec.min premium_income_monthly AVBZ_MAX_MONTHLY in
  let '(avbz_rate, rate_note) :=
    if Dec.ltb premium_income_annual AVBZ_REDUCED_THRESHOLD
    then (AVBZ_REDUCED_EMPLOYEE, "0.5% (reduced rate)")
    else (AVBZ_EMPLOYEE_RATE, "1.5%") in
  let avbz_amount := Dec.mul avbz_base avbz_rate in
  add_line_item "AVBZ" "AVBZ (Special Medical)" DEDUCTION avbz_amount
    (Some avbz_rate) (Some avbz_base) (Some rate_note) ;;
  ret (dict_set "AVBZ" avbz_amount contributions).

(** [calculate_social_security]: AOV/AWW, BVZ, AVBZ, then the employer-paid
    Cesantia, which enters the dict with 0 and records no line item. *)
Definition calculate_social_security (employee : EmployeeInput.t) (gross : Decimal)
  : M (dict Decimal) :=
  let contributions : dict Decimal := [] in
  let premium_income_monthly := calculate_premium_income_monthly gross in
  let premium_income_annual := Dec.mul premium_income_monthly (Dec.of_Z 12) in
  contributions <-
    social_security_aov_aww employee premium_income_monthly premium_income_annual
                            contributions ;;
  contributions <-
    social_security_bvz premium_income_monthly premium_income_annual contributions ;;
  contributions <-
    social_security_avbz premium_income_monthly premium_income_annual contributions ;;
  ret (dict_set "CESANTIA" (Dec.of_Z 0) contributions).

Definition calculator : BasePayrollCalculator :=
  mkCalculator calculate_gross calculate_tax calculate_social_security.

End WithTable.

End Curacao.

(* ================================================================== *)
(** ** St. Maarten, Aruba, Bonaire *)
(* ================================================================== *)

(** [calculate_gross] of the three other jurisdictions (the same text in
    [st_maarten.py], [aruba.py] and [bonaire.py]). *)
Definition simple_calculate_gross (employee : EmployeeInput.t) : M Decimal :=
  let gross := EmployeeInput.gross_salary employee in
  add_line_item "BASIC" "Basic Salary" EARNING gross None None None ;;
  allowances_loop (EmployeeInput.allowances employee) gross.

(** [calculate_tax] of Aruba and Bonaire: the brackets on the gross, whatever
    the exemption flag and the override percentage say. *)
Definition bracket_calculate_tax (TAX_BRACKETS : list bracket) (tax_name : string)
    (employee : EmployeeInput.t) (gross : Decimal) : M Decimal :=
  p <- lift_option (calculate_progressive_tax gross TAX_BRACKETS) ;;
  let '(tax, notes_) := p in
  add_line_item "TAX" tax_name DEDUCTION tax None (Some gross) (Some notes_) ;;
  ret tax.

Module StMaarten.

Definition TAX_BRACKETS : list bracket :=
  [ (mkDecimal 0 0,    mkDecimal 2500 0,      mkDecimal 10 (-2));
    (mkDecimal 2500 0, mkDecimal 5000 0,      mkDecimal 25 (-2));
    (mkDecimal 5000 0, mkDecimal 999999999 0, mkDecimal 45 (-2)) ].

Definition SOCIAL_SECURITY_RATE : Decimal := mkDecimal 65 (-3).
Definition SOCIAL_SECURITY_MAX : Decimal := mkDecimal 4500 0.

Definition calculate_gross := simple_calculate_gross.

Definition calculate_tax (employee : EmployeeInput.t) (gross : Decimal) : M Decimal :=
  if EmployeeInput.tax_exempt employee then
    add_line_item "TAX" "Income Tax (Exempt)" DEDUCTION (Dec.of_Z 0) None None None ;;
    ret (Dec.of_Z 0)
  else bracket_calculate_tax TAX_BRACKETS "Income Tax" employee gross.

Definition calculate_social_security (employee : EmployeeInput.t) (gross : Decimal)
  : M (dict Decimal) :=
  let contributions : dict Decimal := [] in
  let ss_base := Dec.min gross SOCIAL_SECURITY_MAX in
  let ss_amount := Dec.mul ss_base SOCIAL_SECURITY_RATE in
  add_line_item "SOCIAL_SEC" "Social Security" DEDUCTION ss_amount
    (Some SOCIAL_SECURITY_RATE) (Some ss_base) None ;;
  ret (dict_set "SOCIAL_SEC" ss_amount contributions).

Definition calculator : BasePayrollCalculator :=
  mkCalculator calculate_gross calculate_tax calculate_social_security.

End StMaarten.

Module Aruba.

Definition TAX_BRACKETS : list bracket :=
  [ (mkDecimal 0 0,    mkDecimal 3000 0,      mkDecimal 12 (-2));
    (mkDecimal 3000 0, mkDecimal 999999999 0, mkDecimal 45 (-2)) ].

Definition calculate_gross := simple_calculate_gross.
Definition calculate_tax := bracket_calculate_tax TAX_BRACKETS "Income Tax".
Definition calculate_social_security (employee : EmployeeInput.t) (gross : Decimal)
  : M (dict Decimal) := ret [].

Definition calculator : BasePayrollCalculator :=
  mkCalculator calculate_gross calculate_tax calculate_social_security.

End Aruba.

Module Bonaire.

Definition TAX_BRACKETS : list bracket :=
  [ (mkDecimal 0 0,    mkDecimal 2800 0,      mkDecimal 15 (-2));
    (mkDecimal 2800 0, mkDecimal 999999999 0, mkDecimal 40 (-2)) ].

Definition calculate_gross := simple_calculate_gross.
Definition calculate_tax := bracket_calculate_tax TAX_BRACKETS "Payroll Tax".
Definition calculate_social_security (employee : EmployeeInput.t) (gross : Decimal)
  : M (dict Decimal) := ret [].

Definition calculator : BasePayrollCalculator :=
  mkCalculator calculate_gross calculate_tax calculate_social_security.

End Bonaire.

(** The registry [CALCULATORS] of [app/main.py]. *)
Inductive Jurisdiction : Type := curacao | st_maarten | aruba | bonaire.

Definition CALCULATORS (file : tax_table_file) (j : Jurisdiction) : BasePayrollCalculator :=
  match j with
  | curacao => Curacao.calculator file
  | st_maarten => StMaarten.calculator
  | aruba => Aruba.calculator
  | bonaire => Bonaire.calculator
  end.

(* ================================================================== *)
(** ** Sample inputs *)
(* ================================================================== *)

Definition sample_employee (salary : Decimal) : EmployeeInput.t :=
  EmployeeInput.mk "TEST001" "Test Employee" "curacao" salary None
    (mkDate 2025 2 1) (mkDate 2025 2 28)
    (mkDecimal 160 0) (mkDecimal 0 0) [] [] false None 0 false false.


Definition employee_aov_exempt : EmployeeInput.t :=
  EmployeeInput.mk "TEST001" "Test Employee" "curacao" (mkDecimal 400000 (-2)) None
    (mkDate 2025 2 1) (mkDate 2025 2 28)
    (mkDecimal 160 0) (mkDecimal 0 0) [] [] false None 0 true false.

(** An employee of St. Maarten with a salary of 3001.00 and nothing else. *)
Definition st_maarten_3001 : EmployeeInput.t :=
  EmployeeInput.mk "BATCH002" "Batch Employee 2" "st_maarten" (mkDecimal 300100 (-2)) None
    (mkDate 2025 2 1) (mkDate 2025 2 28)
    (mkDecimal 160 0) (mkDecimal 0 0) [] [] false None 0 false false.

(** A tax-exempt employee of Aruba with a salary of 1000. *)
Definition aruba_exempt : EmployeeInput.t :=
  EmployeeInput.mk "TEST_EXEMPT" "Exempt Employee" "aruba" (mkDecimal 1000 0) None
    (mkDate 2025 2 1) (mkDate 2025 2 28)
    (mkDecimal 160 0) (mkDecimal 0 0) [] [] true None 0 false false.

(** An employee with a phone allowance and a transport allowance. *)
Definition employee_with_phone : EmployeeInput.t :=
  EmployeeInput.mk "TEST003" "Test Employee 3" "aruba" (mkDecimal 450000 (-2)) None
    (mkDate 2025 2 1) (mkDate 2025 2 28)
    (mkDecimal 160 0) (mkDecimal 0 0)
    [("Phone", mkDecimal 5000 (-2)); ("transportation", mkDecimal 20000 (-2))]
    [] false None 0 false false.

(** A base of 29 digits. *)
Definition long_base : Decimal := mkDecimal 10000416666666666666666666666 (-25).

(** A table file with a header, one good row and one row that is not
    numeric. *)
Definition sample_header : csv_row := [CellBad; CellBad; CellBad].

Definition table_with_bad_row : tax_table_file :=
  Some [ sample_header;
         [CellDecimal (mkDecimal 0 0); CellDecimal (mkDecimal 1000 0);
          CellDecimal (mkDecimal 50 0)];
         [CellBad; CellBad; CellBad] ].


(* ================================================================== *)
(** ** What a decimal denotes: definitions used by the proofs *)
(* ================================================================== *)

Module DecSem.
Import Dec.

(** The real number a decimal stands for. *)
Definition value (d : Decimal) : R := (IZR (coeff d) * powerRZ 10 (expo d))%R.

(** The context rounding as a function on integers: [fix_ctx] maps the
    coefficient [c] at exponent [e] to the number [rnd28 c * 10^e]. *)
Definition rnd_abs (n : Z) : Z :=
  if ndigits n <=? prec then n
  else round_half_even n (ndigits n - prec) * 10 ^ (ndigits n - prec).

Definition rnd28 (c : Z) : Z := Z.sgn c * rnd_abs (Z.abs c).

(** The exact sum and product, before the context rounding. *)
Definition add_exact (a b : Decimal) : Decimal :=
  let m := Z.min (expo a) (expo b) in
  mkDecimal (coeff a * 10 ^ (expo a - m) + coeff b * 10 ^ (expo b - m)) m.

Definition mul_exact (a b : Decimal) : Decimal :=
  mkDecimal (coeff a * coeff b) (expo a + expo b).

(** The number of cents of a value [n * 10^m] given on a grid finer than a
    cent ([m <= -2]), rounded half up; and the cents of a decimal. *)
Definition cents_at (m n : Z) : Z := Z.sgn n * round_half_up (Z.abs n) (-2 - m).

Definition cents (d : Decimal) : Z := coeff (rescale round_half_up (-2) d).

End DecSem.

(* ================================================================== *)
(** ** The statements of the specification, as definitions *)
(* ================================================================== *)

Module Spec.

(** *** Progressive bracket evaluator (specification 4.2) *)

Definition lower_bound (b : bracket) : Decimal := fst (fst b).
Definition upper_bound (b : bracket) : Decimal := snd (fst b).
Definition bracket_rate (b : bracket) : Decimal := snd b.

(** A bracket applies when [base > lowerBound]. *)
Definition applies (base : Decimal) (b : bracket) : bool :=
  Dec.ltb (lower_bound b) base.

(** [min(base, upperBound) - lowerBound] *)
Definition bracket_amount (base : Decimal) (b : bracket) : Decimal :=
  Dec.sub (Dec.min base (upper_bound b)) (lower_bound b).

(** [rate * (min(base, upperBound) - lowerBound)] *)
Definition bracket_share (base : Decimal) (b : bracket) : Decimal :=
  Dec.mul (bracket_rate b) (bracket_amount base b).

(** The "rate% on amount" fragment of a bracket: the rate as a percentage,
    the percent sign, the word "on" and the amount. *)
Definition percentage (rate : Decimal) : Decimal := Dec.mul rate (Dec.of_Z 100).

Definition bracket_fragment (base : Decimal) (b : bracket) : string :=
  DecFmt.str (percentage (bracket_rate b)) ++ "% on " ++ DecFmt.str (bracket_amount base b).

(** The sum of a list of amounts, taken in order from 0. *)
Definition sum_from_zero (l : list Decimal) : Decimal :=
  fold_left Dec.add l (Dec.of_Z 0).

(** The currency-rounded sum over the brackets that apply, with the note,
    every difference, product and partial sum being one of the decimal
    context (rounded to 28 significant digits). *)
Definition progressive_tax_spec (base : Decimal) (brackets : list bracket)
  : option (Decimal * string) :=
  let applied := filter (applies base) brackets in
  let note := match applied with
              | [] => "No tax"
              | _ => Str.join " + " (map (bracket_fragment base) applied)
              end in
  match Dec.quantize_cents (sum_from_zero (map (bracket_share base) applied)) with
  | Some t => Some (t, note)
  | None => None
  end.

(** The same in exact arithmetic, as the formula of the specification reads:
    [min(base, upperBound) - lowerBound], its product with the rate, the sum
    of these products and the rate as a percentage are the numbers
    themselves, whatever their number of digits; only the sum is rounded, to
    cents. *)
Definition exact_amount (base : Decimal) (b : bracket) : Decimal :=
  DecSem.add_exact (Dec.min base (upper_bound b)) (Dec.copy_negate (lower_bound b)).

Definition exact_share (base : Decimal) (b : bracket) : Decimal :=
  DecSem.mul_exact (bracket_rate b) (exact_amount base b).

Definition exact_fragment (base : Decimal) (b : bracket) : string :=
  DecFmt.str (DecSem.mul_exact (bracket_rate b) (Dec.of_Z 100))
  ++ "% on " ++ DecFmt.str (exact_amount base b).

Definition exact_sum (l : list Decimal) : Decimal :=
  fold_left DecSem.add_exact l (Dec.of_Z 0).

Definition progressive_tax_exact (base : Decimal) (brackets : list bracket)
  : option (Decimal * string) :=
  let applied := filter (applies base) brackets in
  let note := match applied with
              | [] => "No tax"
              | _ => Str.join " + " (map (exact_fragment base) applied)
              end in
  match Dec.quantize_cents (exact_sum (map (exact_share base) applied)) with
  | Some t => Some (t, note)
  | None => None
  end.

(** A number that the context holds without rounding: at most 28 digits. *)
Definition fits (d : Decimal) : bool := Z.abs (Dec.coeff d) <? 10 ^ Dec.prec.

Fixpoint partial_sums_fit (sum : Decimal) (l : list Decimal) : bool :=
  match l with
  | [] => true
  | x :: rest =>
      fits (DecSem.add_exact sum x) && partial_sums_fit (DecSem.add_exact sum x) rest
  end.

(** The exact evaluation stays within the precision of the context: for
    every bracket that applies, the amount, its product with the rate and
    the rate as a percentage have at most 28 digits, and so has every
    partial sum. *)
Definition within_precision (base : Decimal) (brackets : list bracket) : bool :=
  let applied := filter (applies base) brackets in
  forallb (fun b => fits (exact_amount base b) && fits (exact_share base b)
                    && fits (DecSem.mul_exact (bracket_rate b) (Dec.of_Z 100))) applied
  && partial_sums_fit (Dec.of_Z 0) (map (exact_share base) applied).

(** The lower bounds of the table ascend. *)
Fixpoint ascending_lowers (brackets : list bracket) : bool :=
  match brackets with
  | b1 :: (b2 :: _) as rest =>
      Dec.leb (lower_bound b1) (lower_bound b2) && ascending_lowers rest
  | _ => true
  end.

(** The brackets do not overlap: each ends at or below the start of the
    next. *)
Fixpoint non_overlapping (brackets : list bracket) : bool :=
  match brackets with
  | b1 :: (b2 :: _) as rest =>
      Dec.leb (upper_bound b1) (lower_bound b2) && non_overlapping rest
  | _ => true
  end.

(** A table of a jurisdiction: every bracket starts at or above 0, ends at or
    above its start, and has a rate that is not negative. *)
Definition valid_bracket (b : bracket) : bool :=
  Dec.leb (Dec.of_Z 0) (lower_bound b)
  && Dec.leb (lower_bound b) (upper_bound b)
  && Dec.leb (Dec.of_Z 0) (bracket_rate b).

Definition valid_brackets (brackets : list bracket) : bool :=
  forallb valid_bracket brackets.

(** *** The statutory derivation chain of Curaçao (specification 4.5) *)

(** [premiumIncome = max(gross - fixedMonthlyDeduction, 0)] *)
Definition fixedMonthlyDeduction : Decimal :=
  Dec.div Curacao.VASTE_AFTREK (Dec.of_Z 12).

Definition premiumIncome (gross : Decimal) : Decimal :=
  Dec.max (Dec.sub gross fixedMonthlyDeduction) (Dec.of_Z 0).

(** [rawPremium = min(premiumIncome, monthlyCap) * employeeRate] *)
Definition rawPremium (premium_income : Decimal) : Decimal :=
  Dec.mul (Dec.min premium_income Curacao.AOV_AWW_MAX_MONTHLY)
          Curacao.AOV_AWW_EMPLOYEE_RATE.


(** [finalPrimaryPremium = max(rawPremium - credit, 0)], the credit being the
    one the calculator computes on the annualized premium income. *)
Definition finalPrimaryPremium (premium_income : Decimal) : Decimal :=
  Dec.max
    (Dec.sub (rawPremium premium_income)
             (Curacao.calculate_aov_aww_korting_monthly
                (Dec.mul premium_income (Dec.of_Z 12))))
    (Dec.of_Z 0).

(** [taxBase = premiumIncome - finalPrimaryPremium] *)
Definition taxBase (gross : Decimal) : Decimal :=
  Dec.sub (premiumIncome gross) (finalPrimaryPremium (premiumIncome gross)).

(** [T]: the table lookup, or the progressive brackets when the table is not
    available. *)
Definition gross_tax (file : tax_table_file) (tax_base : Decimal)
  : option TableDecimal :=
  match Curacao.lookup_tax_from_table file tax_base with
  | Some t => Some t
  | None =>
      match calculate_progressive_tax tax_base Curacao.TAX_BRACKETS with
      | Some (t, _) => Some (Finite t)
      | None => None
      end
  end.

Definition monthly_basic_credit : Decimal :=
  Dec.div Curacao.BASISAFTREK (Dec.of_Z 12).

(** [max(T(taxBase) - BASISAFTREK/12, 0)].  A table can hold a tax that is
    not finite: the maximum is 0 for [-Infinity], and neither [Infinity] nor
    a NaN gives a tax. *)
Definition floored_tax (raw_tax : TableDecimal) : option Decimal :=
  match raw_tax with
  | Finite t => Some (Dec.max (Dec.sub t monthly_basic_credit) (Dec.of_Z 0))
  | Infinite true => Some (Dec.of_Z 0)
  | _ => None
  end.

Definition final_tax (file : tax_table_file) (gross : Decimal) : option Decimal :=
  match gross_tax file (taxBase gross) with
  | Some raw_tax => floored_tax raw_tax
  | None => None
  end.

(** The note of the TAX line item of the standard path. *)
Definition tax_note (file : tax_table_file) (tax_base : Decimal) (raw_tax : TableDecimal)
  : string :=
  (match Curacao.lookup_tax_from_table file tax_base with
   | None => "Progressive brackets (fallback)"
   | Some _ => "Official table lookup (NAf " ++ DecFmt.format_f 2 tax_base ++ ")"
   end)
  ++ " | Gross tax: NAf " ++ table_format_f 2 raw_tax
  ++ " - Basisaftrek: NAf " ++ DecFmt.format_f 2 monthly_basic_credit.

(** *** The tax table (specification 4.3) *)

(** A row [(minInclusive, maxExclusive, grossTaxAmount)] of finite numbers,
    and the CSV row that holds it. *)
Definition table_row : Type := (Decimal * Decimal * Decimal)%type.

Definition row_tax (r : table_row) : Decimal := snd r.

Definition cells_of_row (r : table_row) : csv_row :=
  [CellDecimal (fst (fst r)); CellDecimal (snd (fst r)); CellDecimal (snd r)].

(** The half-open range of the row contains the base. *)
Definition in_range (base : Decimal) (r : table_row) : bool :=
  Dec.leb (fst (fst r)) base && Dec.ltb base (snd (fst r)).


Definition cell_empty (c : cell) : bool :=
  match c with CellEmpty => true | _ => false end.
Definition cell_bad (c : cell) : bool :=
  match c with CellBad => true | _ => false end.


(** A malformed row: three filled cells, one of which [Decimal(...)]
    refuses. *)
Definition malformed_row (row : csv_row) : bool :=
  match row with
  | c0 :: c1 :: c2 :: _ =>
      negb (cell_empty c0 || cell_empty c1 || cell_empty c2)
      && (cell_bad c0 || cell_bad c1 || cell_bad c2)
  | _ => false
  end.


(** Every bracket of the table starts below [cap] and ends at or below it. *)
Definition capped_brackets (cap : Decimal) (brackets : list bracket) : bool :=
  forallb (fun b => Dec.ltb (lower_bound b) cap && Dec.leb (upper_bound b) cap) brackets.

(** The end of the last Curaçao bracket. *)
Definition BRACKETS_END : Decimal := mkDecimal 999999999 0.

(** A table in cents: every bracket is valid, its bounds have at most two
    decimals and end at or below 999,999,999, and its rate has at most four
    decimals and is at most 1; the table has at most a thousand brackets.
    The tables of the four calculators are such tables. *)
Definition cent_bracket (b : bracket) : bool :=
  valid_bracket b
  && (-2 <=? Dec.expo (lower_bound b)) && (-2 <=? Dec.expo (upper_bound b))
  && Dec.leb (upper_bound b) BRACKETS_END
  && (-4 <=? Dec.expo (bracket_rate b)) && Dec.leb (bracket_rate b) (Dec.of_Z 1).

Definition cent_table (brackets : list bracket) : bool :=
  forallb cent_bracket brackets && Nat.leb (List.length brackets) 1000.

(** *** The BVZ bands *)

(** The capped monthly base at the standard rate. *)
Definition bvz_standard (premium_income : Decimal) : Decimal :=
  Dec.mul (Dec.min premium_income Curacao.BVZ_MAX_MONTHLY) Curacao.BVZ_EMPLOYEE_RATE.

(** The discount percentage of the five sub-bands of the middle band. *)
Definition sliding_discount (annual : Decimal) : Decimal :=
  if Dec.ltb annual (mkDecimal 13200 0) then mkDecimal 38 (-3)
  else if Dec.ltb annual (mkDecimal 14400 0) then mkDecimal 28 (-3)
  else if Dec.ltb annual (mkDecimal 15600 0) then mkDecimal 19 (-3)
  else if Dec.ltb annual (mkDecimal 16800 0) then mkDecimal 11 (-3)
  else mkDecimal 6 (-3).


(** The premium of the three bands of annualized premium income. *)
Definition bvz_premium (premium_income : Decimal) : Decimal :=
  let annual := Dec.mul premium_income (Dec.of_Z 12) in
  if Dec.ltb annual (mkDecimal 12000 0) then Dec.of_Z 0
  else if Dec.ltb annual (mkDecimal 18000 0)
       then Dec.sub (bvz_standard premium_income)
                    (Dec.mul (bvz_standard premium_income) (sliding_discount annual))
       else bvz_standard premium_income.

(** *** The ledger entries of the Curaçao social-security stage *)

(** An entry is a line item that still holds the amount handed to
    [add_line_item]; [round_items] is what the ledger makes of a sequence of
    entries. *)
Definition with_amount (item : PayrollLineItem.t) (a : Decimal) : PayrollLineItem.t :=
  PayrollLineItem.mk (PayrollLineItem.code item) (PayrollLineItem.name item)
    (PayrollLineItem.category item) a (PayrollLineItem.rate item)
    (PayrollLineItem.base_amount item) (PayrollLineItem.notes item).

Fixpoint round_items (entries : list PayrollLineItem.t) : option (list PayrollLineItem.t) :=
  match entries with
  | [] => Some []
  | e :: rest =>
      match round_currency (PayrollLineItem.amount e), round_items rest with
      | Some a, Some items => Some (with_amount e a :: items)
      | _, _ => None
      end
  end.

(** The discount the calculator applies: the sliding one inside the middle
    band and none outside. *)
Definition bvz_note (premium_income : Decimal) : string :=
  let annual := Dec.mul premium_income (Dec.of_Z 12) in
  let discount := Curacao.calculate_bvz_gliding_discount annual in
  if Dec.ltb (Dec.of_Z 0) (Dec.mul (bvz_standard premium_income) discount)
  then "Health Insurance" ++ " | Discount: -"
       ++ DecFmt.format_f 1 (Dec.mul discount (Dec.of_Z 100)) ++ "%"
  else "Health Insurance".

Definition bvz_entry (premium_income : Decimal) : PayrollLineItem.t :=
  let annual := Dec.mul premium_income (Dec.of_Z 12) in
  if Dec.ltb annual Curacao.BVZ_VRIJSTELLING_ANNUAL
  then PayrollLineItem.mk "BVZ" "BVZ (Health Insurance)" DEDUCTION (Dec.of_Z 0) None None
         (Some "Exempt: income below NAf 12000.00/year")
  else PayrollLineItem.mk "BVZ" "BVZ (4.3%)" DEDUCTION (bvz_premium premium_income)
         (Some Curacao.BVZ_EMPLOYEE_RATE)
         (Some (Dec.min premium_income Curacao.BVZ_MAX_MONTHLY))
         (Some (bvz_note premium_income)).

Definition avbz_rate (premium_income : Decimal) : Decimal :=
  if Dec.ltb (Dec.mul premium_income (Dec.of_Z 12)) Curacao.AVBZ_REDUCED_THRESHOLD
  then Curacao.AVBZ_REDUCED_EMPLOYEE else Curacao.AVBZ_EMPLOYEE_RATE.

Definition avbz_amount (premium_income : Decimal) : Decimal :=
  Dec.mul (Dec.min premium_income Curacao.AVBZ_MAX_MONTHLY) (avbz_rate premium_income).

Definition avbz_entry (premium_income : Decimal) : PayrollLineItem.t :=
  PayrollLineItem.mk "AVBZ" "AVBZ (Special Medical)" DEDUCTION (avbz_amount premium_income)
    (Some (avbz_rate premium_income))
    (Some (Dec.min premium_income Curacao.AVBZ_MAX_MONTHLY))
    (Some (if Dec.ltb (Dec.mul premium_income (Dec.of_Z 12)) Curacao.AVBZ_REDUCED_THRESHOLD
           then "0.5% (reduced rate)" else "1.5%")).

Definition aov_aww_entries (premium_income : Decimal) : list PayrollLineItem.t :=
  let annual := Dec.mul premium_income (Dec.of_Z 12) in
  [ PayrollLineItem.mk "AOV_AWW" "AOV/AWW (6.5%)" DEDUCTION (rawPremium premium_income)
      (Some Curacao.AOV_AWW_EMPLOYEE_RATE)
      (Some (Dec.min premium_income Curacao.AOV_AWW_MAX_MONTHLY))
      (Some "Pension & Widow/er Insurance");
    PayrollLineItem.mk "KORTING" "Premie Korting" DEDUCTION
      (Dec.neg (Curacao.calculate_aov_aww_korting_monthly annual)) None None
      (Some (if Dec.ltb annual Curacao.KORTING_MAX_INCOME
             then "Credit: income < NAf 27,633" else "Income >= NAf 27,633")) ].

Definition social_security_entries (employee : EmployeeInput.t) (premium_income : Decimal)
  : list PayrollLineItem.t :=
  (if EmployeeInput.aov_exempt employee then [] else aov_aww_entries premium_income)
  ++ [bvz_entry premium_income; avbz_entry premium_income].

Definition social_security_contributions (employee : EmployeeInput.t)
    (premium_income : Decimal) : dict Decimal :=
  [ ("AOV_AWW", if EmployeeInput.aov_exempt employee then Dec.of_Z 0
                else finalPrimaryPremium premium_income);
    ("BVZ", bvz_premium premium_income);
    ("AVBZ", avbz_amount premium_income);
    ("CESANTIA", Dec.of_Z 0) ].

Definition social_security_warnings (employee : EmployeeInput.t) : list string :=
  if EmployeeInput.aov_exempt employee then ["Employee is AOV/AWW exempt"] else [].

(** *** The orchestrator (specification 4.6) *)

(** An allowance that is taxed but not paid out. *)
Definition non_cash (label : string) : bool :=
  in_strings (Str.lower label) NON_CASH_LABELS.

(** [payableGross]: the base salary plus every allowance that is not flagged
    as non-cash. *)
Definition payableGross (employee : EmployeeInput.t) : Decimal :=
  fold_left Dec.add
    (dict_values (filter (fun kv => negb (non_cash (fst kv)))
                         (EmployeeInput.allowances employee)))
    (EmployeeInput.gross_salary employee).

(** [tax + sum(socialContributions) + otherDeductions], on the amounts the
    stages return. *)
Definition deductions_sum (tax : Decimal) (social_security : dict Decimal)
    (other : Decimal) : Decimal :=
  Dec.add (Dec.add tax (sum_values social_security)) other.

(** The amount of the last item of a ledger that passes [keep] and carries
    the code [c]: the value a dict comprehension keyed by code ends with. *)
Definition last_amount (keep : PayrollLineItem.t -> bool) (c : string)
    (items : list PayrollLineItem.t) : option Decimal :=
  fold_left
    (fun acc item =>
       if keep item && String.eqb c (PayrollLineItem.code item)
       then Some (PayrollLineItem.amount item) else acc)
    items None.

(** The sum of the amounts of the DEDUCTION-category line items. *)
Definition sum_deduction_items (items : list PayrollLineItem.t) : Decimal :=
  sum_from_zero
    (map PayrollLineItem.amount
         (filter (fun item => Category_eqb (PayrollLineItem.category item) DEDUCTION) items)).

(** The earnings a calculator sums before the allowances. *)
Definition gross_before_allowances (j : Jurisdiction) (employee : EmployeeInput.t)
  : Decimal :=
  match j with
  | curacao =>
      let base := Dec.add (Dec.of_Z 0) (EmployeeInput.gross_salary employee) in
      if Dec.ltb (Dec.of_Z 0) (EmployeeInput.overtime_hours employee)
      then
        let hourly :=
          match EmployeeInput.hourly_rate employee with
          | Some hr =>
              if Dec.eqb hr (Dec.of_Z 0)
              then Dec.div (EmployeeInput.gross_salary employee) (Dec.of_Z 160)
              else hr
          | None => Dec.div (EmployeeInput.gross_salary employee) (Dec.of_Z 160)
          end in
        Dec.add base
          (Dec.mul (Dec.mul hourly Curacao.OVERTIME_MULTIPLIER)
                   (EmployeeInput.overtime_hours employee))
      else base
  | _ => EmployeeInput.gross_salary employee
  end.

(** A line item whose amount is a whole number of cents, as the ledger
    leaves it. *)
Definition is_rounded (item : PayrollLineItem.t) : Prop :=
  round_currency (PayrollLineItem.amount item) = Some (PayrollLineItem.amount item).

(** A method that only appends rounded line items to the ledger and leaves
    the notes alone. *)
Definition appends_rounded {A : Type} (m : M A) : Prop :=
  forall s a s',
    m s = Some (a, s') ->
    exists items,
      line_items s' = (line_items s ++ items)%list /\
      Forall is_rounded items /\ notes s' = notes s.

End Spec.

From Stdlib Require Import Sorted.

(* ================================================================== *)
(** ** The class methods of the Curaçao calculator that load the tax table *)
(* ================================================================== *)

(** [load_tax_table] and the class method [lookup_tax_from_table] that reads
    the loaded table.  The class attribute [_tax_table_cache] is threaded as
    a state: [None] before a table has loaded. *)
Module CuracaoTable.

Definition tax_table : Type := list (TableDecimal * TableDecimal * TableDecimal).

(** The row loop of [load_tax_table].  The guard
    [row and row[0] and row[1] and row[2]] indexes the row from left to
    right: an empty row or an empty cell ends it, and a row that runs out
    before an empty cell is met raises [IndexError].  [None] is the
    exception the [except] clause catches. *)
Fixpoint load_rows (rows : list csv_row) (table : tax_table) : option tax_table :=
  match rows with
  | [] => Some table
  | row :: rest =>
      match row with
      | [] => load_rows rest table
      | CellEmpty :: _ => load_rows rest table
      | [_] => None
      | _ :: CellEmpty :: _ => load_rows rest table
      | [_; _] => None
      | _ :: _ :: CellEmpty :: _ => load_rows rest table
      | CellValue min_val :: CellValue max_val :: CellValue tax :: _ =>
          load_rows rest (table ++ [(min_val, max_val, tax)])%list
      | _ => None
      end
  end.

(** [load_tax_table]: the pair of the value returned and the cache left. *)
Definition load_tax_table (file : tax_table_file) (cache : option tax_table)
  : option tax_table * option tax_table :=
  match cache with
  | Some table => (Some table, cache)
  | None =>
      match file with
      | None => (None, cache)
      | Some [] => (None, cache)
      | Some (_header :: rows) =>
          match load_rows rows [] with
          | None => (None, cache)
          | Some table => (Some table, Some table)
          end
      end
  end.

(** The [for] loop of the class method [lookup_tax_from_table].  It runs
    outside any [try]: the outer [None] is the [InvalidOperation] of a
    comparison with a NaN, which leaves the method; the inner one tells that
    no row contains the base. *)
Fixpoint first_in_range (tax_base : Decimal) (table : tax_table)
  : option (option TableDecimal) :=
  match table with
  | [] => Some None
  | (min_val, max_val, tax) :: rest =>
      match table_leb min_val tax_base with
      | None => None
      | Some false => first_in_range tax_base rest
      | Some true =>
          match table_gtb max_val tax_base with
          | None => None
          | Some true => Some (Some tax)
          | Some false => first_in_range tax_base rest
          end
      end
  end.

(** The class method [lookup_tax_from_table] (the first definition of the
    class body): what it returns, or [None] when it raises, and the cache it
    leaves. *)
Definition lookup_tax_from_table (file : tax_table_file) (cache : option tax_table)
    (tax_base : Decimal) : option (option TableDecimal) * option tax_table :=
  let '(loaded, cache') := load_tax_table file cache in
  match loaded with
  | None => (Some None, cache')
  | Some table =>
      match first_in_range tax_base table with
      | None => (None, cache')
      | Some (Some tax) => (Some (Some tax), cache')
      | Some None =>
          match table with
          | [] => (Some (Some (Finite (Dec.of_Z 0))), cache')
          | row :: rest => (Some (Some (snd (last rest row))), cache')
          end
      end
  end.

(** The CSV row that holds a row of the table, and the row of the table
    that holds three finite numbers. *)
Definition cells_of (r : TableDecimal * TableDecimal * TableDecimal) : csv_row :=
  [CellValue (fst (fst r)); CellValue (snd (fst r)); CellValue (snd r)].

Definition finite_row (r : Spec.table_row) : TableDecimal * TableDecimal * TableDecimal :=
  (Finite (fst (fst r)), Finite (snd (fst r)), Finite (snd r)).

(** How the guard of [load_tax_table] ends on a row that does not load.  It
    is false on an empty row, on a row without a lower bound, on a row of
    two cells without an upper bound and on a row without a tax; it raises
    [IndexError] on a row that ends after one or two filled cells.  (A row
    that lacks its upper bound only is left aside: the loader has a default
    for it.) *)
Definition unguarded_row (row : csv_row) : bool :=
  match row with
  | [] => true
  | [c0] => Spec.cell_empty c0
  | [c0; c1] => Spec.cell_empty c0 || Spec.cell_empty c1
  | c0 :: _ :: c2 :: _ => Spec.cell_empty c0 || Spec.cell_empty c2
  end.

Definition short_row (row : csv_row) : bool :=
  match row with
  | [c0] => negb (Spec.cell_empty c0)
  | [c0; c1] => negb (Spec.cell_empty c0) && negb (Spec.cell_empty c1)
  | _ => false
  end.

End CuracaoTable.

(* ================================================================== *)
(** ** The validators of the data model ([app/models/__init__.py]) *)
(* ================================================================== *)

(** The list [valid] of [validate_jurisdiction]. *)
Definition VALID_JURISDICTIONS : list string :=
  ["curacao"; "st_maarten"; "aruba"; "bonaire"].

(** [EmployeeInput.validate_jurisdiction]; [None] is the [ValueError]. *)
Definition validate_jurisdiction (v : string) : option string :=
  if negb (in_strings (Str.lower v) VALID_JURISDICTIONS) then None
  else Some (Str.lower v).

(** The two constraints the model puts on the fields of an employee:
    [gross_salary] is declared with [gt=0], and [jurisdiction] goes through
    its validator, whose value replaces the field. *)
Definition validate_employee (raw : EmployeeInput.t) : option EmployeeInput.t :=
  if negb (Dec.ltb (Dec.of_Z 0) (EmployeeInput.gross_salary raw)) then None
  else
    match validate_jurisdiction (EmployeeInput.jurisdiction raw) with
    | None => None
    | Some j =>
        Some (EmployeeInput.mk
                (EmployeeInput.employee_id raw) (EmployeeInput.name raw) j
                (EmployeeInput.gross_salary raw) (EmployeeInput.hourly_rate raw)
                (EmployeeInput.period_start raw) (EmployeeInput.period_end raw)
                (EmployeeInput.regular_hours raw) (EmployeeInput.overtime_hours raw)
                (EmployeeInput.allowances raw) (EmployeeInput.deductions raw)
                (EmployeeInput.tax_exempt raw) (EmployeeInput.tax_percentage raw)
                (EmployeeInput.dependents raw)
                (EmployeeInput.aov_exempt raw) (EmployeeInput.aww_exempt raw))
    end.

(* ================================================================== *)
(** ** The endpoints ([app/main.py]) *)
(* ================================================================== *)

(** The dict [CALCULATORS], keyed by the jurisdiction strings. *)
Definition CALCULATORS_by_key (file : tax_table_file) : dict BasePayrollCalculator :=
  [ ("curacao", CALCULATORS file curacao);
    ("st_maarten", CALCULATORS file st_maarten);
    ("aruba", CALCULATORS file aruba);
    ("bonaire", CALCULATORS file bonaire) ].

(** [str(l)] for a list of strings that hold no quote and no escape. *)
Definition repr_strings (l : list string) : string :=
  "[" ++ Str.join ", " (map (fun k => "'" ++ k ++ "'") l) ++ "]".

(** [HTTPException(status_code, detail)] *)
Record HTTPException : Type := mkHTTPException { status_code : Z; detail : string }.

(** What an endpoint does: it returns a body (status 200) or raises. *)
Inductive Response (A : Type) : Type :=
| Returned (body : A)
| Raised (e : HTTPException).
Arguments Returned {A} body.
Arguments Raised {A} e.

Definition HTTP_400_BAD_REQUEST : Z := 400.
Definition HTTP_500_INTERNAL_SERVER_ERROR : Z := 500.

(** [BatchCalculationRequest], [BatchCalculationResponse] and the dicts of
    its [errors] list. *)
Module BatchCalculationRequest.
Record t : Type := mk { employees : list EmployeeInput.t; validate_only : bool }.
End BatchCalculationRequest.

Module BatchError.
Record t : Type := mk { employee_id : string; index : Z; error : string }.
End BatchError.

Module BatchCalculationResponse.
Record t : Type := mk {
  success_count : Z;
  error_count : Z;
  results : list PayrollCalculationResult.t;
  errors : list BatchError.t
}.
End BatchCalculationResponse.

Section Endpoints.

(** The content of the table file, and the text [str(e)] of the exception a
    calculation raises. *)
Variable file : tax_table_file.
Variable str_e : string.

(** [calculate_payroll], the endpoint [POST /api/v1/calculate/{jurisdiction}] *)
Definition calculate_payroll (jurisdiction : string) (employee : EmployeeInput.t)
  : Response PayrollCalculationResult.t :=
  let jurisdiction := Str.lower jurisdiction in
  match dict_get jurisdiction (CALCULATORS_by_key file) with
  | None =>
      Raised (mkHTTPException HTTP_400_BAD_REQUEST
                ("Invalid jurisdiction. Must be one of: "
                 ++ repr_strings (dict_keys (CALCULATORS_by_key file))))
  | Some calculator =>
      if negb (String.eqb (EmployeeInput.jurisdiction employee) jurisdiction)
      then Raised (mkHTTPException HTTP_400_BAD_REQUEST
                     ("Jurisdiction mismatch: URL says '" ++ jurisdiction
                      ++ "' but employee data says '"
                      ++ EmployeeInput.jurisdiction employee ++ "'"))
      else
        match calculate calculator employee with
        | Some result => Returned result
        | None =>
            Raised (mkHTTPException HTTP_500_INTERNAL_SERVER_ERROR
                      ("Calculation error: " ++ str_e))
        end
  end.

(** The loop of [calculate_payroll_batch]; the four accumulators are the
    local variables [results], [errors], [success_count], [error_count]. *)
Fixpoint batch_loop (validate_only : bool) (idx : Z) (employees : list EmployeeInput.t)
    (results : list PayrollCalculationResult.t) (errors : list BatchError.t)
    (success_count error_count : Z) : BatchCalculationResponse.t :=
  match employees with
  | [] => BatchCalculationResponse.mk success_count error_count results errors
  | employee :: rest =>
      let jurisdiction := Str.lower (EmployeeInput.jurisdiction employee) in
      match dict_get jurisdiction (CALCULATORS_by_key file) with
      | None =>
          batch_loop validate_only (idx + 1) rest results
            (errors ++ [BatchError.mk (EmployeeInput.employee_id employee) idx
                          ("Invalid jurisdiction: " ++ jurisdiction)])%list
            success_count (error_count + 1)
      | Some calculator =>
          if validate_only
          then batch_loop validate_only (idx + 1) rest results errors
                 (success_count + 1) error_count
          else
            match calculate calculator employee with
            | Some result =>
                batch_loop validate_only (idx + 1) rest (results ++ [result])%list errors
                  (success_count + 1) error_count
            | None =>
                batch_loop validate_only (idx + 1) rest results
                  (errors ++ [BatchError.mk (EmployeeInput.employee_id employee) idx str_e])%list
                  success_count (error_count + 1)
            end
      end
  end.

(** [calculate_payroll_batch], the endpoint [POST /api/v1/calculate/batch] *)
Definition calculate_payroll_batch (request : BatchCalculationRequest.t)
  : BatchCalculationResponse.t :=
  batch_loop (BatchCalculationRequest.validate_only request) 0
    (BatchCalculationRequest.employees request) [] [] 0 0.

End Endpoints.

(** The key of a calculator in the registry. *)
Definition jurisdiction_key (j : Jurisdiction) : string :=
  match j with
  | curacao => "curacao"
  | st_maarten => "st_maarten"
  | aruba => "aruba"
  | bonaire => "bonaire"
  end.

(** The results a batch returns for a list of employees, read off the
    single-employee endpoint called with the jurisdiction of each. *)
Definition returned_bodies (file : tax_table_file) (str_e : string)
    (employees : list EmployeeInput.t) : list PayrollCalculationResult.t :=
  flat_map (fun employee =>
              match calculate_payroll file str_e
                      (EmployeeInput.jurisdiction employee) employee with
              | Returned r => [r]
              | Raised _ => []
              end) employees.

(** The positions [start, start + 1, ...] of the employees the batch reports
    an error for. *)
Fixpoint error_positions (file : tax_table_file) (validate_only : bool) (start : Z)
    (employees : list EmployeeInput.t) : list Z :=
  match employees with
  | [] => []
  | employee :: rest =>
      let failed :=
        match dict_get (Str.lower (EmployeeInput.jurisdiction employee))
                       (CALCULATORS_by_key file) with
        | None => true
        | Some calculator =>
            negb validate_only
            && match calculate calculator employee with Some _ => false | None => true end
        end in
      (if failed then [start] else []) ++ error_positions file validate_only (start + 1) rest
  end%list.

(** The calculator a key of the registry stands for. *)
Definition jurisdiction_of_key (k : string) : option Jurisdiction :=
  if String.eqb k "curacao" then Some curacao
  else if String.eqb k "st_maarten" then Some st_maarten
  else if String.eqb k "aruba" then Some aruba
  else if String.eqb k "bonaire" then Some bonaire
  else None.

(** The result of the batch loop for one employee: the calculation is run
    for an employee of a known jurisdiction unless the request only
    validates. *)
Definition batch_outcome (file : tax_table_file) (employee : EmployeeInput.t)
  : option (option PayrollCalculationResult.t) :=
  match jurisdiction_of_key (Str.lower (EmployeeInput.jurisdiction employee)) with
  | None => None
  | Some j => Some (calculate (CALCULATORS file j) employee)
  end.

(** An entry of the [errors] list of a batch that started counting at
    [start]: its index points at an employee of the list, whose id it
    carries, and its text tells why that employee has no result. *)
Definition error_explained (file : tax_table_file) (str_e : string) (validate_only : bool)
    (start : Z) (employees : list EmployeeInput.t) (err : BatchError.t) : Prop :=
  start <= BatchError.index err /\
  exists e,
    nth_error employees (Z.to_nat (BatchError.index err - start)) = Some e /\
    BatchError.employee_id err = EmployeeInput.employee_id e /\
    match batch_outcome file e with
    | None =>
        BatchError.error err
        = "Invalid jurisdiction: " ++ Str.lower (EmployeeInput.jurisdiction e)
    | Some o => validate_only = false /\ o = None /\ BatchError.error err = str_e
    end.

(** The results of the employees of a batch that have one, in order. *)
Definition calculated (file : tax_table_file) (employees : list EmployeeInput.t)
  : list PayrollCalculationResult.t :=
  flat_map (fun e => match batch_outcome file e with
                     | Some (Some r) => [r]
                     | _ => []
                     end) employees.

(** The smallest amount [round_currency] refuses: half a cent below 10^26. *)
Definition ROUNDING_LIMIT : Decimal := mkDecimal (10 ^ 29 - 5) (-3).

(* ================================================================== *)
(** ** The entries the stages hand to the ledger *)
(* ================================================================== *)

(** An entry is a line item that still holds the amount handed to
    [add_line_item]. *)

(** The entry of one allowance and of one deduction of the employee. *)
Definition allowance_entry (kv : string * Decimal) : PayrollLineItem.t :=
  PayrollLineItem.mk ("ALW_" ++ Str.upper (fst kv))
    (Str.title (Str.replace_underscore (fst kv))) EARNING (snd kv) None None None.

Definition deduction_entry (kv : string * Decimal) : PayrollLineItem.t :=
  PayrollLineItem.mk ("DED_" ++ Str.upper (fst kv))
    (Str.title (Str.replace_underscore (fst kv))) DEDUCTION (snd kv) None None None.

(** The overtime rate and pay of the Curaçao calculator. *)
Definition overtime_rate (employee : EmployeeInput.t) : Decimal :=
  match EmployeeInput.hourly_rate employee with
  | Some hr =>
      if Dec.eqb hr (Dec.of_Z 0)
      then Dec.mul (Dec.div (EmployeeInput.gross_salary employee) (Dec.of_Z 160))
                   Curacao.OVERTIME_MULTIPLIER
      else Dec.mul hr Curacao.OVERTIME_MULTIPLIER
  | None =>
      Dec.mul (Dec.div (EmployeeInput.gross_salary employee) (Dec.of_Z 160))
              Curacao.OVERTIME_MULTIPLIER
  end.

Definition overtime_pay (employee : EmployeeInput.t) : Decimal :=
  Dec.mul (overtime_rate employee) (EmployeeInput.overtime_hours employee).

(** Overtime is paid by the Curaçao calculator, for a positive number of
    hours. *)
Definition pays_overtime (j : Jurisdiction) (employee : EmployeeInput.t) : bool :=
  match j with
  | curacao => Dec.ltb (Dec.of_Z 0) (EmployeeInput.overtime_hours employee)
  | _ => false
  end.

Definition overtime_entry (employee : EmployeeInput.t) : PayrollLineItem.t :=
  PayrollLineItem.mk "OVERTIME" "Overtime Pay" EARNING (overtime_pay employee)
    (Some Curacao.OVERTIME_MULTIPLIER) (Some (overtime_rate employee))
    (Some (DecFmt.str (EmployeeInput.overtime_hours employee) ++ " hours @ "
           ++ DecFmt.str (overtime_rate employee) ++ "/hour")).

(** The entries of [calculate_gross] and of [calculate_other_deductions]. *)
Definition earning_entries (j : Jurisdiction) (employee : EmployeeInput.t)
  : list PayrollLineItem.t :=
  (PayrollLineItem.mk "BASIC" "Basic Salary" EARNING (EmployeeInput.gross_salary employee)
     None None None
   :: (if pays_overtime j employee then [overtime_entry employee] else [])
   ++ map allowance_entry (EmployeeInput.allowances employee))%list.

Definition deduction_entries (employee : EmployeeInput.t) : list PayrollLineItem.t :=
  map deduction_entry (EmployeeInput.deductions employee).

(** An employee whose earnings are plain: the salary, the hourly rate, the
    overtime hours and the allowances lie inside the exponent range, and the
    keys of the allowances are ASCII text. *)
Definition plain_earnings (employee : EmployeeInput.t) : bool :=
  Dec.in_exponent_range (EmployeeInput.gross_salary employee)
  && match EmployeeInput.hourly_rate employee with
     | Some hourly_rate => Dec.in_exponent_range hourly_rate
     | None => true
     end
  && Dec.in_exponent_range (EmployeeInput.overtime_hours employee)
  && forallb (fun kv => Str.isascii (fst kv) && Dec.in_exponent_range (snd kv))
             (EmployeeInput.allowances employee).

(** The gross a calculator returns. *)
Definition gross_of (j : Jurisdiction) (employee : EmployeeInput.t) : Decimal :=
  let base :=
    match j with
    | curacao =>
        let base := Dec.add (Dec.of_Z 0) (EmployeeInput.gross_salary employee) in
        if pays_overtime j employee then Dec.add base (overtime_pay employee) else base
    | _ => EmployeeInput.gross_salary employee
    end in
  fold_left Dec.add (dict_values (EmployeeInput.allowances employee)) base.

(** The entries and the contributions of [calculate_social_security]. *)
Definition st_maarten_contribution (gross : Decimal) : Decimal :=
  Dec.mul (Dec.min gross StMaarten.SOCIAL_SECURITY_MAX) StMaarten.SOCIAL_SECURITY_RATE.

Definition contribution_entries (j : Jurisdiction) (employee : EmployeeInput.t)
    (gross : Decimal) : list PayrollLineItem.t :=
  match j with
  | curacao => Spec.social_security_entries employee (Spec.premiumIncome gross)
  | st_maarten =>
      [PayrollLineItem.mk "SOCIAL_SEC" "Social Security" DEDUCTION
         (st_maarten_contribution gross) (Some StMaarten.SOCIAL_SECURITY_RATE)
         (Some (Dec.min gross StMaarten.SOCIAL_SECURITY_MAX)) None]
  | _ => []
  end.

Definition contributions_of (j : Jurisdiction) (employee : EmployeeInput.t)
    (gross : Decimal) : dict Decimal :=
  match j with
  | curacao => Spec.social_security_contributions employee (Spec.premiumIncome gross)
  | st_maarten => [("SOCIAL_SEC", st_maarten_contribution gross)]
  | _ => []
  end.

(** The warnings a calculation leaves. *)
Definition warnings_of (j : Jurisdiction) (employee : EmployeeInput.t) : list string :=
  match j with
  | curacao =>
      ((if EmployeeInput.tax_exempt employee then ["Employee is tax exempt"] else [])
       ++ (if EmployeeInput.aov_exempt employee then ["Employee is AOV/AWW exempt"] else []))%list
  | _ => []
  end.

(** The codes of the line items of a result, in the order of the ledger. *)
Definition earning_codes (j : Jurisdiction) (employee : EmployeeInput.t) : list string :=
  ("BASIC"
   :: (if pays_overtime j employee then ["OVERTIME"] else [])
   ++ map (fun k => ("ALW_" ++ Str.upper k)%string)
          (dict_keys (EmployeeInput.allowances employee)))%list.

Definition contribution_codes (j : Jurisdiction) (employee : EmployeeInput.t) : list string :=
  match j with
  | curacao =>
      ((if EmployeeInput.aov_exempt employee then [] else ["AOV_AWW"; "KORTING"])
       ++ ["BVZ"; "AVBZ"])%list
  | st_maarten => ["SOCIAL_SEC"]
  | _ => []
  end.

Definition deduction_codes (employee : EmployeeInput.t) : list string :=
  map (fun k => "DED_" ++ Str.upper k) (dict_keys (EmployeeInput.deductions employee)).

(** A stage that records the given entries, rounded, returns [result] and
    leaves the warnings and the notes alone; it raises when an entry cannot
    be rounded. *)
Definition records {A : Type} (m : M A) (entries : list PayrollLineItem.t) (result : A)
  : Prop :=
  forall s,
    m s = match Spec.round_items entries with
          | None => None
          | Some items =>
              Some (result, mkState (line_items s ++ items) (warnings s) (notes s))
          end.

(** An item of the ledger that is the rounding of an entry. *)
Definition rounding_of (entry item : PayrollLineItem.t) : Prop :=
  round_currency (PayrollLineItem.amount entry) = Some (PayrollLineItem.amount item) /\
  item = Spec.with_amount entry (PayrollLineItem.amount item).

(** The bracket table of a calculator. *)
Definition TAX_BRACKETS_of (j : Jurisdiction) : list bracket :=
  match j with
  | curacao => Curacao.TAX_BRACKETS
  | st_maarten => StMaarten.TAX_BRACKETS
  | aruba => Aruba.TAX_BRACKETS
  | bonaire => Bonaire.TAX_BRACKETS
  end.

(* ================================================================== *)
(** ** Inputs of modest size *)
(* ================================================================== *)

(** An amount of at most 28 digits and at most ten million in size; a dict
    of at most a thousand such amounts. *)
Definition MODEST_LIMIT : Z := 10000000.
Definition MODEST_COUNT : nat := 1000.

Definition modest (d : Decimal) : bool :=
  (Z.abs (Dec.coeff d) <? 10 ^ Dec.prec)
  && Dec.leb (mkDecimal (- MODEST_LIMIT) 0) d
  && Dec.leb d (mkDecimal MODEST_LIMIT 0).

Definition modest_option (o : option Decimal) : bool :=
  match o with
  | Some d => modest d
  | None => true
  end.

Definition modest_dict (d : dict Decimal) : bool :=
  Nat.leb (List.length d) MODEST_COUNT && forallb (fun kv => modest (snd kv)) d.

(** An employee whose numbers are all modest. *)
Definition modest_employee (employee : EmployeeInput.t) : bool :=
  modest (EmployeeInput.gross_salary employee)
  && modest_option (EmployeeInput.hourly_rate employee)
  && modest (EmployeeInput.overtime_hours employee)
  && modest_option (EmployeeInput.tax_percentage employee)
  && modest_dict (EmployeeInput.allowances employee)
  && modest_dict (EmployeeInput.deductions employee).

(** A table file whose numbers are all modest (or no file at all). *)
Definition modest_cell (c : cell) : bool :=
  match c with
  | CellDecimal d => modest d
  | CellValue _ => false
  | _ => true
  end.

Definition modest_table (file : tax_table_file) : bool :=
  match file with
  | None => true
  | Some rows => forallb (forallb modest_cell) rows
  end.

(** An amount whose size is at most [k]. *)
Definition within (k : Z) (d : Decimal) : Prop :=
  (Rabs (DecSem.value d) <= IZR k)%R.

(** Sizes that the amounts of a calculation on modest inputs stay within:
    the gross, the tax, the sum of all deductions, and the net. *)
Definition GROSS_LIMIT : Z := 200010010000000.
Definition TAX_LIMIT : Z := 2000100100002000000000.
Definition DEDUCTIONS_LIMIT : Z := 2000100300022010000000.
Definition NET_LIMIT : Z := 2000100300032020000000.

(* ================================================================== *)
(** ** Facts about the decimal arithmetic *)
(* ================================================================== *)

Module DecFacts.
Import Dec DecSem.

(** *** Digit counts *)

Lemma pow10_pos k : 0 < 10 ^ k \/ k < 0.
Proof. destruct (Z.ltb_spec k 0); [right; lia | left; apply Z.pow_pos_nonneg; lia]. Qed.

Lemma pow10_gt0 k : 0 <= k -> 0 < 10 ^ k.
Proof. intros; apply Z.pow_pos_nonneg; lia. Qed.

Lemma digits_fuel_spec fuel : forall n,
  0 < n -> n < 2 ^ (Z.of_nat fuel + 1) ->
  10 ^ (digits_fuel fuel n - 1) <= n < 10 ^ (digits_fuel fuel n) /\ 1 <= digits_fuel fuel n.
Proof.
  induction fuel as [|f IH]; intros n Hpos Hlt.
  - simpl in *. change (2 ^ 1) with 2 in Hlt. assert (n = 1) by lia. subst. simpl. lia.
  - cbn [digits_fuel]. destruct (Z.ltb_spec n 10) as [Hs|Hs].
    + change (10 ^ (1 - 1)) with 1. change (10 ^ 1) with 10. lia.
    + assert (Hq : 0 < n / 10) by (apply Z.div_str_pos; lia).
      assert (Hq2 : n / 10 < 2 ^ (Z.of_nat f + 1)).
      { apply Z.div_lt_upper_bound; [lia|].
        replace (Z.of_nat (S f) + 1) with (Z.succ (Z.of_nat f + 1)) in Hlt by lia.
        rewrite Z.pow_succ_r in Hlt by lia. lia. }
      destruct (IH _ Hq Hq2) as [[Hlo Hhi] Hge].
      set (d := digits_fuel f (n / 10)) in *.
      replace (1 + d - 1) with (Z.succ (d - 1)) by lia.
      replace (1 + d) with (Z.succ d) by lia.
      rewrite !Z.pow_succ_r by lia.
      pose proof (Z.div_mod n 10 ltac:(lia)) as Hdm.
      pose proof (Z.mod_pos_bound n 10 ltac:(lia)) as Hmb.
      repeat split; try lia.
Qed.

Lemma ndigits_0 : ndigits 0 = 1.
Proof. reflexivity. Qed.

Lemma ndigits_spec n : 0 < n ->
  10 ^ (ndigits n - 1) <= n < 10 ^ (ndigits n) /\ 1 <= ndigits n.
Proof.
  intros Hn. unfold ndigits. apply digits_fuel_spec; [assumption|].
  rewrite Z2Nat.id by apply Z.log2_nonneg.
  pose proof (Z.log2_spec n Hn). replace (Z.log2 n + 1) with (Z.succ (Z.log2 n)) by lia. lia.
Qed.

Lemma ndigits_ge1 n : 1 <= ndigits n.
Proof.
  destruct (Z.lt_trichotomy n 0) as [H|[H|H]].
  - unfold ndigits. rewrite Z.log2_nonpos by lia. reflexivity.
  - subst. rewrite ndigits_0. lia.
  - apply ndigits_spec; assumption.
Qed.

Lemma ndigits_le_iff n k : 0 <= n -> 1 <= k -> (ndigits n <= k <-> n < 10 ^ k).
Proof.
  intros Hn Hk. destruct (Z.eq_dec n 0) as [->|Hnz].
  - rewrite ndigits_0. split; intros; [apply pow10_gt0; lia | lia].
  - destruct (ndigits_spec n ltac:(lia)) as [[Hlo Hhi] Hge]. split; intros H.
    + eapply Z.lt_le_trans; [exact Hhi|]. apply Z.pow_le_mono_r; lia.
    + destruct (Z.le_gt_cases (ndigits n) k) as [|Hgt]; [assumption|exfalso].
      assert (10 ^ k <= 10 ^ (ndigits n - 1)) by (apply Z.pow_le_mono_r; lia). lia.
Qed.

Lemma ndigits_mono a b : 0 <= a <= b -> ndigits a <= ndigits b.
Proof.
  intros [Ha Hab].
  apply ndigits_le_iff; [assumption | apply ndigits_ge1 |].
  destruct (Z.eq_dec b 0) as [->|Hb].
  - assert (a = 0) by lia. subst. reflexivity.
  - destruct (ndigits_spec b ltac:(lia)) as [[_ Hhi] _]. lia.
Qed.

Lemma ndigits_unique n d : 0 < n -> 10 ^ (d - 1) <= n < 10 ^ d -> ndigits n = d.
Proof.
  intros Hn [Hlo Hhi].
  destruct (ndigits_spec n Hn) as [[Hlo' Hhi'] Hge].
  assert (Hd : 1 <= d).
  { destruct (Z.le_gt_cases 1 d); [assumption|].
    destruct (Z.eq_dec d 0) as [->|]; [simpl in Hhi; lia|].
    rewrite Z.pow_neg_r in Hhi by lia. lia. }
  destruct (Z.lt_trichotomy (ndigits n) d) as [H|[H|H]]; [exfalso| assumption |exfalso].
  - assert (10 ^ ndigits n <= 10 ^ (d - 1)) by (apply Z.pow_le_mono_r; lia). lia.
  - assert (10 ^ d <= 10 ^ (ndigits n - 1)) by (apply Z.pow_le_mono_r; lia). lia.
Qed.

Lemma ndigits_scale n j : 0 < n -> 0 <= j -> ndigits (n * 10 ^ j) = ndigits n + j.
Proof.
  intros Hn Hj. destruct (ndigits_spec n Hn) as [[Hlo Hhi] Hge].
  pose proof (pow10_gt0 j Hj) as Hp.
  apply ndigits_unique; [nia|].
  replace (ndigits n + j - 1) with ((ndigits n - 1) + j) by lia.
  rewrite !Z.pow_add_r by lia. split; nia.
Qed.

(** *** Rounding to a multiple of [10^k] *)

Lemma round_half_even_bounds n k :
  n / 10 ^ k <= round_half_even n k <= n / 10 ^ k + 1.
Proof.
  unfold round_half_even. destruct (_ ?= _); [destruct (Z.even _)| |]; lia.
Qed.

Lemma round_half_even_exact m k : 0 <= k -> round_half_even (m * 10 ^ k) k = m.
Proof.
  intros Hk. pose proof (pow10_gt0 k Hk). unfold round_half_even.
  rewrite Z.div_mul, Z.mod_mul by lia.
  destruct (Z.compare_spec (2 * 0) (10 ^ k)); lia.
Qed.

Lemma round_half_even_mono n1 n2 k :
  0 <= k -> n1 <= n2 -> round_half_even n1 k <= round_half_even n2 k.
Proof.
  intros Hk Hle. pose proof (pow10_gt0 k Hk) as Hp.
  pose proof (Z.div_le_mono n1 n2 (10 ^ k) Hp Hle) as Hq.
  destruct (Z.eq_dec (n1 / 10 ^ k) (n2 / 10 ^ k)) as [Heq|Hne].
  - pose proof (Z.div_mod n1 (10 ^ k) ltac:(lia)) as H1.
    pose proof (Z.div_mod n2 (10 ^ k) ltac:(lia)) as H2.
    assert (Hr : n1 mod 10 ^ k <= n2 mod 10 ^ k) by (rewrite Heq in H1; lia).
    unfold round_half_even. rewrite Heq.
    destruct (Z.compare_spec (2 * (n1 mod 10 ^ k)) (10 ^ k));
      destruct (Z.compare_spec (2 * (n2 mod 10 ^ k)) (10 ^ k));
      destruct (Z.even (n2 / 10 ^ k)); lia.
  - pose proof (round_half_even_bounds n1 k). pose proof (round_half_even_bounds n2 k). lia.
Qed.

Lemma round_half_even_scale n k j :
  0 <= k -> 0 <= j -> round_half_even (n * 10 ^ j) (k + j) = round_half_even n k.
Proof.
  intros Hk Hj. pose proof (pow10_gt0 k Hk). pose proof (pow10_gt0 j Hj).
  unfold round_half_even. rewrite Z.pow_add_r by lia.
  rewrite Z.div_mul_cancel_r by lia.
  rewrite Z.mul_mod_distr_r by lia.
  replace (2 * (n mod 10 ^ k * 10 ^ j)) with (2 * (n mod 10 ^ k) * 10 ^ j) by ring.
  assert (Hc : (2 * (n mod 10 ^ k) * 10 ^ j ?= 10 ^ k * 10 ^ j)
               = (2 * (n mod 10 ^ k) ?= 10 ^ k)).
  { destruct (Z.compare_spec (2 * (n mod 10 ^ k)) (10 ^ k)) as [E|E|E].
    - rewrite E. apply Z.compare_refl.
    - apply Z.compare_lt_iff. nia.
    - apply Z.compare_gt_iff. nia. }
  rewrite Hc. reflexivity.
Qed.

(** *** The context rounding as a function on integers *)

Lemma rnd_abs_small n : 0 <= n -> n < 10 ^ prec -> rnd_abs n = n.
Proof.
  intros Hn Hlt. unfold rnd_abs.
  destruct (Z.leb_spec (ndigits n) prec) as [|Hgt]; [reflexivity|exfalso].
  apply (ndigits_le_iff n prec) in Hlt; [lia | lia | unfold prec; lia].
Qed.

Lemma rnd_abs_nonneg n : 0 <= n -> 0 <= rnd_abs n.
Proof.
  intros Hn. unfold rnd_abs. destruct (Z.leb_spec (ndigits n) prec) as [|Hgt]; [lia|].
  pose proof (pow10_gt0 (ndigits n - prec) ltac:(lia)) as Hp.
  pose proof (round_half_even_bounds n (ndigits n - prec)).
  assert (0 <= n / 10 ^ (ndigits n - prec)) by (apply Z.div_pos; lia). nia.
Qed.

(** For [n] of [28 + k] digits the rounded value lies between the two powers
    of ten that bracket [n]. *)
Lemma rnd_abs_large_bounds n : 0 <= n -> prec < ndigits n ->
  10 ^ (ndigits n - 1) <= rnd_abs n <= 10 ^ (ndigits n).
Proof.
  intros Hn Hgt. unfold rnd_abs.
  destruct (Z.leb_spec (ndigits n) prec) as [|_]; [lia|].
  set (k := ndigits n - prec). assert (Hk : 0 < k) by (unfold k; lia).
  assert (Hnz : 0 < n).
  { destruct (Z.eq_dec n 0) as [->|]; [rewrite ndigits_0 in Hgt; unfold prec in Hgt; lia | lia]. }
  destruct (ndigits_spec n Hnz) as [[Hlo Hhi] _].
  pose proof (pow10_gt0 k ltac:(lia)) as Hp.
  replace (ndigits n - 1) with ((prec - 1) + k) in * by (unfold k; lia).
  replace (ndigits n) with (prec + k) in Hhi |- * by (unfold k; lia).
  rewrite Z.pow_add_r in Hlo |- * by (unfold prec; lia).
  rewrite (Z.pow_add_r 10 prec k) in Hhi |- * by (unfold prec; lia).
  pose proof (round_half_even_mono _ _ k ltac:(lia) Hlo) as H1.
  rewrite round_half_even_exact in H1 by lia.
  pose proof (round_half_even_mono n (10 ^ prec * 10 ^ k) k ltac:(lia) ltac:(lia)) as H2.
  rewrite round_half_even_exact in H2 by lia.
  split; nia.
Qed.

Lemma rnd_abs_mono a b : 0 <= a <= b -> rnd_abs a <= rnd_abs b.
Proof.
  intros [Ha Hab].
  pose proof (ndigits_mono a b ltac:(lia)) as Hd.
  destruct (Z.le_gt_cases (ndigits b) prec) as [Hb|Hb].
  - unfold rnd_abs.
    destruct (Z.leb_spec (ndigits a) prec); destruct (Z.leb_spec (ndigits b) prec); lia.
  - destruct (Z.le_gt_cases (ndigits a) prec) as [Ha'|Ha'].
    + pose proof (rnd_abs_large_bounds b ltac:(lia) Hb) as [Hlo _].
      assert (rnd_abs a = a) as ->.
      { unfold rnd_abs. destruct (Z.leb_spec (ndigits a) prec); lia. }
      assert (a < 10 ^ prec) by (apply ndigits_le_iff; unfold prec in *; lia).
      assert (10 ^ prec <= 10 ^ (ndigits b - 1)) by (apply Z.pow_le_mono_r; unfold prec in *; lia).
      lia.
    + destruct (Z.eq_dec (ndigits a) (ndigits b)) as [Heq|Hne].
      * unfold rnd_abs. rewrite Heq.
        destruct (Z.leb_spec (ndigits b) prec); [lia|].
        pose proof (pow10_gt0 (ndigits b - prec) ltac:(lia)).
        pose proof (round_half_even_mono a b (ndigits b - prec) ltac:(lia) Hab). nia.
      * pose proof (rnd_abs_large_bounds a Ha Ha') as [_ Hhi].
        pose proof (rnd_abs_large_bounds b ltac:(lia) Hb) as [Hlo _].
        assert (10 ^ ndigits a <= 10 ^ (ndigits b - 1)) by (apply Z.pow_le_mono_r; lia).
        lia.
Qed.

Lemma rnd_abs_scale n j : 0 <= n -> 0 <= j -> rnd_abs (n * 10 ^ j) = rnd_abs n * 10 ^ j.
Proof.
  intros Hn Hj. destruct (Z.eq_dec n 0) as [->|Hnz]; [reflexivity|].
  pose proof (pow10_gt0 j Hj) as Hp.
  unfold rnd_abs. rewrite ndigits_scale by lia.
  destruct (Z.leb_spec (ndigits n + j) prec) as [H1|H1];
    destruct (Z.leb_spec (ndigits n) prec) as [H2|H2]; try lia.
  - (* n is short, n * 10^j is long: the dropped digits are zeros *)
    set (k := ndigits n + j - prec).
    replace (n * 10 ^ j) with ((n * 10 ^ (j - k)) * 10 ^ k)
      by (rewrite <- Z.mul_assoc, <- Z.pow_add_r by (unfold k; lia); f_equal; f_equal; lia).
    rewrite round_half_even_exact by (unfold k; lia). reflexivity.
  - replace (ndigits n + j - prec) with ((ndigits n - prec) + j) by lia.
    rewrite round_half_even_scale by lia.
    rewrite Z.pow_add_r by lia. ring.
Qed.

Lemma rnd28_mono a b : a <= b -> rnd28 a <= rnd28 b.
Proof.
  intros Hab. unfold rnd28.
  destruct (Z.lt_trichotomy a 0) as [Ha|[Ha|Ha]];
    destruct (Z.lt_trichotomy b 0) as [Hb|[Hb|Hb]]; try lia; subst;
    rewrite ?Z.sgn_neg, ?Z.sgn_pos, ?Z.sgn_0 by lia;
    try (pose proof (rnd_abs_nonneg (Z.abs a) ltac:(lia)));
    try (pose proof (rnd_abs_nonneg (Z.abs b) ltac:(lia))); try lia.
  - pose proof (rnd_abs_mono (Z.abs b) (Z.abs a) ltac:(lia)). lia.
  - pose proof (rnd_abs_mono (Z.abs a) (Z.abs b) ltac:(lia)). lia.
Qed.

Lemma rnd28_scale c j : 0 <= j -> rnd28 (c * 10 ^ j) = rnd28 c * 10 ^ j.
Proof.
  intros Hj. pose proof (pow10_gt0 j Hj) as Hp. unfold rnd28.
  rewrite Z.abs_mul, (Z.abs_eq (10 ^ j)) by lia.
  rewrite rnd_abs_scale by lia.
  rewrite Z.sgn_mul, (Z.sgn_pos (10 ^ j)) by lia. ring.
Qed.

Lemma rnd28_small c : Z.abs c < 10 ^ prec -> rnd28 c = c.
Proof.
  intros H. unfold rnd28. rewrite rnd_abs_small by lia.
  rewrite Z.mul_comm. apply Z.abs_sgn.
Qed.

Lemma rnd28_sgn c : Z.sgn (rnd28 c) = Z.sgn c.
Proof.
  unfold rnd28. destruct (Z.eq_dec c 0) as [->|Hc]; [reflexivity|].
  assert (0 < rnd_abs (Z.abs c)).
  { destruct (Z.le_gt_cases (ndigits (Z.abs c)) prec) as [H|H].
    - unfold rnd_abs. destruct (Z.leb_spec (ndigits (Z.abs c)) prec); lia.
    - pose proof (rnd_abs_large_bounds (Z.abs c) ltac:(lia) H) as [Hlo _].
      pose proof (pow10_gt0 (ndigits (Z.abs c) - 1) ltac:(unfold prec in *; lia)). lia. }
  rewrite Z.sgn_mul, (Z.sgn_pos (rnd_abs _)) by lia. rewrite Z.sgn_sgn. lia.
Qed.

(** [fix_ctx] in terms of [rnd28]. *)
Lemma fix_ctx_spec c e :
  expo (fix_ctx (mkDecimal c e)) >= e /\
  coeff (fix_ctx (mkDecimal c e)) * 10 ^ (expo (fix_ctx (mkDecimal c e)) - e) = rnd28 c /\
  Z.abs (coeff (fix_ctx (mkDecimal c e))) < 10 ^ prec.
Proof.
  unfold fix_ctx, rnd28, rnd_abs. cbn [coeff expo].
  destruct (Z.leb_spec (ndigits (Z.abs c)) prec) as [H|H]; cbn [coeff expo].
  - rewrite Z.sub_diag, Z.mul_1_r. repeat split; try lia.
    apply ndigits_le_iff; unfold prec in *; lia.
  - set (k := ndigits (Z.abs c) - prec) in *.
    pose proof (rnd_abs_large_bounds (Z.abs c) ltac:(lia) H) as [Hlo Hhi].
    unfold rnd_abs in Hlo, Hhi.
    destruct (Z.leb_spec (ndigits (Z.abs c)) prec); [lia|]. fold k in Hlo, Hhi.
    pose proof (pow10_gt0 k ltac:(unfold k; lia)) as Hp.
    replace (ndigits (Z.abs c)) with (prec + k) in Hhi by (unfold k; lia).
    rewrite Z.pow_add_r in Hhi by (unfold k, prec in *; lia).
    assert (Hq0 : 0 <= round_half_even (Z.abs c) k).
    { pose proof (round_half_even_bounds (Z.abs c) k).
      assert (0 <= Z.abs c / 10 ^ k) by (apply Z.div_pos; lia). lia. }
    destruct (Z.eqb_spec (round_half_even (Z.abs c) k) (10 ^ prec)) as [Heq|Hne];
      cbn [coeff expo].
    + rewrite Heq. replace (e + k + 1 - e) with (k + 1) by lia.
      repeat split; try lia.
      * rewrite Z.pow_add_r by lia. change (10 ^ prec) with (10 ^ (prec - 1) * 10). ring.
      * rewrite Z.abs_mul. destruct c; cbn [Z.sgn]; vm_compute; congruence.
    + replace (e + k - e) with k by lia. repeat split; try lia.
      rewrite Z.abs_mul, (Z.abs_eq (round_half_even _ _)) by lia.
      assert (round_half_even (Z.abs c) k <= 10 ^ prec) by nia.
      assert (0 <= Z.abs (Z.sgn c) <= 1) by (destruct c; simpl; lia).
      pose proof (pow10_gt0 prec ltac:(unfold prec; lia)). nia.
Qed.

Lemma powerRZ_10_pos e : (0 < powerRZ 10 e)%R.
Proof. apply powerRZ_lt. lra. Qed.

Lemma IZR_pow10 k : 0 <= k -> IZR (10 ^ k) = powerRZ 10 k.
Proof.
  intros Hk. destruct k as [|p|p]; [reflexivity| |lia].
  change (10 ^ Z.pos p) with (Z.pow_pos 10 p). apply Zpower_pos_powerRZ.
Qed.

Lemma value_align c e m : m <= e ->
  value (mkDecimal c e) = (IZR (c * 10 ^ (e - m)) * powerRZ 10 m)%R.
Proof.
  intros H. unfold value; cbn [coeff expo].
  rewrite mult_IZR, IZR_pow10 by lia.
  replace e with ((e - m) + m) at 1 by lia.
  rewrite powerRZ_add by lra. ring.
Qed.

Lemma value_eta d : value d = value (mkDecimal (coeff d) (expo d)).
Proof. reflexivity. Qed.

(** Comparison of two scaled integers at a common exponent. *)
Lemma scaled_le x y m : (IZR x * powerRZ 10 m <= IZR y * powerRZ 10 m)%R <-> x <= y.
Proof.
  pose proof (powerRZ_10_pos m). split; intros H'.
  - apply le_IZR. apply Rmult_le_reg_r with (powerRZ 10 m); assumption.
  - apply Rmult_le_compat_r; [lra | apply IZR_le; assumption].
Qed.

Lemma scaled_lt x y m : (IZR x * powerRZ 10 m < IZR y * powerRZ 10 m)%R <-> x < y.
Proof.
  pose proof (powerRZ_10_pos m). split; intros H'.
  - apply lt_IZR. apply Rmult_lt_reg_r with (powerRZ 10 m); assumption.
  - apply Rmult_lt_compat_r; [lra | apply IZR_lt; assumption].
Qed.

Lemma scaled_eq x y m : (IZR x * powerRZ 10 m = IZR y * powerRZ 10 m)%R <-> x = y.
Proof.
  pose proof (powerRZ_10_pos m). split; intros H'.
  - apply eq_IZR. apply Rmult_eq_reg_r with (powerRZ 10 m); [assumption | lra].
  - subst; reflexivity.
Qed.

Lemma compare_value a b :
  match compare a b with
  | Lt => (value a < value b)%R
  | Eq => value a = value b
  | Gt => (value b < value a)%R
  end.
Proof.
  unfold compare. set (m := Z.min (expo a) (expo b)).
  rewrite (value_eta a), (value_eta b).
  rewrite (value_align (coeff a) (expo a) m), (value_align (coeff b) (expo b) m) by lia.
  destruct (Z.compare_spec (coeff a * 10 ^ (expo a - m)) (coeff b * 10 ^ (expo b - m))).
  - apply scaled_eq; assumption.
  - apply scaled_lt; assumption.
  - apply scaled_lt; assumption.
Qed.

Lemma ltb_value a b : ltb a b = true <-> (value a < value b)%R.
Proof. unfold ltb. pose proof (compare_value a b). destruct (compare a b); split; intros; try discriminate; try reflexivity; lra. Qed.

Lemma leb_value a b : leb a b = true <-> (value a <= value b)%R.
Proof. unfold leb. pose proof (compare_value a b). destruct (compare a b); split; intros; try discriminate; try reflexivity; lra. Qed.

Lemma eqb_value a b : eqb a b = true <-> value a = value b.
Proof. unfold eqb. pose proof (compare_value a b). destruct (compare a b); split; intros; try discriminate; try reflexivity; lra. Qed.

Lemma ltb_false_value a b : ltb a b = false <-> (value b <= value a)%R.
Proof.
  pose proof (ltb_value a b). destruct (ltb a b); split; intros; try discriminate; try reflexivity.
  - assert (value a < value b)%R by (apply H; reflexivity). lra.
  - destruct (Rlt_dec (value a) (value b)) as [Hl|Hl]; [apply H in Hl; discriminate | lra].
Qed.

Lemma leb_false_value a b : leb a b = false <-> (value b < value a)%R.
Proof.
  pose proof (leb_value a b). destruct (leb a b); split; intros; try discriminate; try reflexivity.
  - assert (value a <= value b)%R by (apply H; reflexivity). lra.
  - destruct (Rle_dec (value a) (value b)) as [Hl|Hl]; [apply H in Hl; discriminate | lra].
Qed.

Lemma value_of_Z n : value (of_Z n) = IZR n.
Proof. unfold value, of_Z; cbn. lra. Qed.

Lemma value_max a b : value (max a b) = Rmax (value a) (value b).
Proof.
  unfold max. destruct (ltb a b) eqn:E.
  - apply ltb_value in E. rewrite Rmax_right; lra.
  - apply ltb_false_value in E. rewrite Rmax_left; lra.
Qed.

Lemma value_min a b : value (min a b) = Rmin (value a) (value b).
Proof.
  unfold min. destruct (ltb b a) eqn:E.
  - apply ltb_value in E. rewrite Rmin_right; lra.
  - apply ltb_false_value in E. rewrite Rmin_left; lra.
Qed.

(** *** The context rounding on values *)

Lemma value_fix_ctx c e :
  value (fix_ctx (mkDecimal c e)) = (IZR (rnd28 c) * powerRZ 10 e)%R.
Proof.
  destruct (fix_ctx_spec c e) as (He & Hc & _).
  rewrite <- Hc, value_eta. apply value_align. lia.
Qed.

Lemma fix_ctx_small d : Z.abs (coeff d) < 10 ^ prec -> fix_ctx d = d.
Proof.
  intros H. unfold fix_ctx.
  destruct (Z.leb_spec (ndigits (Z.abs (coeff d))) prec) as [|Hgt]; [reflexivity|exfalso].
  apply (ndigits_le_iff _ prec) in H; unfold prec in *; lia.
Qed.

Lemma fix_ctx_bounded d : Z.abs (coeff (fix_ctx d)) < 10 ^ prec.
Proof. destruct d as [c e]. apply fix_ctx_spec. Qed.

Lemma fix_ctx_idem d : fix_ctx (fix_ctx d) = fix_ctx d.
Proof. apply fix_ctx_small, fix_ctx_bounded. Qed.

Lemma value_fix_ctx_align c e m : m <= e ->
  value (fix_ctx (mkDecimal c e)) = (IZR (rnd28 (c * 10 ^ (e - m))) * powerRZ 10 m)%R.
Proof.
  intros H. rewrite value_fix_ctx, rnd28_scale by lia.
  change (IZR (rnd28 c) * powerRZ 10 e)%R with (value (mkDecimal (rnd28 c) e)).
  apply value_align. assumption.
Qed.

Lemma fix_ctx_mono a b :
  (value a <= value b)%R -> (value (fix_ctx a) <= value (fix_ctx b))%R.
Proof.
  destruct a as [ca ea], b as [cb eb]. intros H.
  set (m := Z.min ea eb).
  rewrite (value_align ca ea m), (value_align cb eb m) in H by lia.
  apply scaled_le in H. apply rnd28_mono in H.
  rewrite (value_fix_ctx_align ca ea m), (value_fix_ctx_align cb eb m) by lia.
  apply scaled_le. assumption.
Qed.

Lemma fix_ctx_value_eq a b : value a = value b -> value (fix_ctx a) = value (fix_ctx b).
Proof. intros H. apply Rle_antisym; apply fix_ctx_mono; lra. Qed.

Lemma fix_ctx_exact d : Z.abs (coeff d) < 10 ^ prec -> value (fix_ctx d) = value d.
Proof. intros H. rewrite fix_ctx_small; auto. Qed.

Lemma value_zero_coeff e : value (mkDecimal 0 e) = 0%R.
Proof. unfold value; cbn. lra. Qed.

Lemma value_sign d :
  ((0 < value d)%R <-> 0 < coeff d) /\ (value d = 0%R <-> coeff d = 0) /\
  ((value d < 0)%R <-> coeff d < 0).
Proof.
  unfold value. pose proof (powerRZ_10_pos (expo d)) as Hp.
  assert (H0 : 0%R = (IZR 0 * powerRZ 10 (expo d))%R) by lra.
  repeat split; intros H.
  - apply (scaled_lt 0 (coeff d) (expo d)). lra.
  - apply (scaled_lt 0 (coeff d) (expo d)) in H. lra.
  - apply (scaled_eq (coeff d) 0 (expo d)). lra.
  - apply (scaled_eq (coeff d) 0 (expo d)) in H. lra.
  - apply (scaled_lt (coeff d) 0 (expo d)). lra.
  - apply (scaled_lt (coeff d) 0 (expo d)) in H. lra.
Qed.

Lemma fix_ctx_sign d :
  ((0 < value d -> 0 < value (fix_ctx d)) /\
   (value d < 0 -> value (fix_ctx d) < 0) /\
   (value d = 0 -> value (fix_ctx d) = 0))%R.
Proof.
  destruct d as [c e]. rewrite value_fix_ctx.
  destruct (value_sign (mkDecimal c e)) as (Hp & Hz & Hn). cbn [coeff] in *.
  destruct (value_sign (mkDecimal (rnd28 c) e)) as (Hp' & Hz' & Hn').
  unfold value in Hp', Hz', Hn'. cbn [coeff expo] in *.
  pose proof (rnd28_sgn c) as Hs.
  repeat split; intros H.
  - apply Hp'. apply Hp in H. apply Z.sgn_pos_iff. rewrite Hs. apply Z.sgn_pos_iff; lia.
  - apply Hn'. apply Hn in H. apply Z.sgn_neg_iff. rewrite Hs. apply Z.sgn_neg_iff; lia.
  - apply Hz'. apply Hz in H. apply Z.sgn_null_iff. rewrite Hs. apply Z.sgn_null_iff; lia.
Qed.

(** *** The arithmetic operations on values *)


Lemma value_add_exact a b : value (add_exact a b) = (value a + value b)%R.
Proof.
  unfold add_exact. set (m := Z.min (expo a) (expo b)).
  rewrite (value_eta a), (value_eta b).
  rewrite (value_align (coeff a) (expo a) m), (value_align (coeff b) (expo b) m) by lia.
  unfold value; cbn [coeff expo]. rewrite plus_IZR. ring.
Qed.

Lemma add_unfold a b : add a b = fix_ctx (add_exact a b).
Proof. reflexivity. Qed.


Lemma value_mul_exact a b : value (mul_exact a b) = (value a * value b)%R.
Proof.
  unfold mul_exact, value; cbn [coeff expo].
  rewrite mult_IZR, powerRZ_add by lra. ring.
Qed.

Lemma mul_unfold a b : mul a b = fix_ctx (mul_exact a b).
Proof. reflexivity. Qed.

Lemma value_copy_negate a : value (copy_negate a) = (- value a)%R.
Proof. unfold copy_negate, value; cbn [coeff expo]. rewrite opp_IZR. ring. Qed.

Lemma add_mono a a' b b' :
  (value a <= value a')%R -> (value b <= value b')%R ->
  (value (add a b) <= value (add a' b'))%R.
Proof.
  intros Ha Hb. rewrite !add_unfold. apply fix_ctx_mono.
  rewrite !value_add_exact. lra.
Qed.

Lemma sub_mono a a' b b' :
  (value a <= value a')%R -> (value b' <= value b)%R ->
  (value (sub a b) <= value (sub a' b'))%R.
Proof.
  intros Ha Hb. unfold sub. apply add_mono; [assumption|].
  rewrite !value_copy_negate. lra.
Qed.

Lemma mul_mono_nonneg_r a a' r :
  (0 <= value r)%R -> (value a <= value a')%R ->
  (value (mul a r) <= value (mul a' r))%R.
Proof.
  intros Hr Ha. rewrite !mul_unfold. apply fix_ctx_mono.
  rewrite !value_mul_exact. apply Rmult_le_compat_r; assumption.
Qed.

Lemma mul_comm a b : mul a b = mul b a.
Proof. unfold mul. rewrite (Z.mul_comm (coeff a)), (Z.add_comm (expo a)). reflexivity. Qed.

Lemma mul_nonneg a b : (0 <= value a)%R -> (0 <= value b)%R -> (0 <= value (mul a b))%R.
Proof.
  intros Ha Hb. rewrite mul_unfold.
  assert (H : (value (mkDecimal 0 0) <= value (mul_exact a b))%R).
  { rewrite value_zero_coeff, value_mul_exact. apply Rmult_le_pos; assumption. }
  apply fix_ctx_mono in H. rewrite fix_ctx_small in H by (cbn [coeff]; vm_compute; reflexivity).
  rewrite value_zero_coeff in H. exact H.
Qed.

Lemma fix_ctx_nonneg d : (0 <= value d)%R -> (0 <= value (fix_ctx d))%R.
Proof.
  intros H. destruct (fix_ctx_sign d) as (Hp & _ & Hz).
  destruct H as [H|H]; [left; auto | right; symmetry; apply Hz; auto].
Qed.

Lemma fix_ctx_nonpos d : (value d <= 0)%R -> (value (fix_ctx d) <= 0)%R.
Proof.
  intros H. destruct (fix_ctx_sign d) as (_ & Hn & Hz).
  destruct H as [H|H]; [left; auto | right; apply Hz; auto].
Qed.

Lemma sub_nonneg a b : (value b <= value a)%R -> (0 <= value (sub a b))%R.
Proof.
  intros H. unfold sub. rewrite add_unfold. apply fix_ctx_nonneg.
  rewrite value_add_exact, value_copy_negate. lra.
Qed.

(** Adding a non-negative amount to a context-rounded number does not
    decrease it. *)
Lemma add_nonneg_r t x :
  Z.abs (coeff t) < 10 ^ prec -> (0 <= value x)%R -> (value t <= value (add t x))%R.
Proof.
  intros Ht Hx. rewrite <- (fix_ctx_exact t Ht) at 1.
  rewrite add_unfold. apply fix_ctx_mono. rewrite value_add_exact. lra.
Qed.

Lemma add_bounded a b : Z.abs (coeff (add a b)) < 10 ^ prec.
Proof. rewrite add_unfold. apply fix_ctx_bounded. Qed.

Lemma mul_bounded a b : Z.abs (coeff (mul a b)) < 10 ^ prec.
Proof. rewrite mul_unfold. apply fix_ctx_bounded. Qed.

(** *** Rounding to cents *)

Lemma round_half_up_exact m k : 0 <= k -> round_half_up (m * 10 ^ k) k = m.
Proof.
  intros Hk. pose proof (pow10_gt0 k Hk). unfold round_half_up.
  rewrite Z.div_mul, Z.mod_mul by lia.
  destruct (Z.leb_spec (10 ^ k) (2 * 0)); lia.
Qed.

Lemma round_half_up_bounds n k :
  n / 10 ^ k <= round_half_up n k <= n / 10 ^ k + 1.
Proof. unfold round_half_up. destruct (_ <=? _); lia. Qed.

Lemma round_half_up_mono n1 n2 k :
  0 <= k -> n1 <= n2 -> round_half_up n1 k <= round_half_up n2 k.
Proof.
  intros Hk Hle. pose proof (pow10_gt0 k Hk) as Hp.
  pose proof (Z.div_le_mono n1 n2 (10 ^ k) Hp Hle) as Hq.
  destruct (Z.eq_dec (n1 / 10 ^ k) (n2 / 10 ^ k)) as [Heq|Hne].
  - pose proof (Z.div_mod n1 (10 ^ k) ltac:(lia)) as H1.
    pose proof (Z.div_mod n2 (10 ^ k) ltac:(lia)) as H2.
    assert (Hr : n1 mod 10 ^ k <= n2 mod 10 ^ k) by (rewrite Heq in H1; lia).
    unfold round_half_up. rewrite Heq.
    destruct (Z.leb_spec (10 ^ k) (2 * (n1 mod 10 ^ k)));
      destruct (Z.leb_spec (10 ^ k) (2 * (n2 mod 10 ^ k))); lia.
  - pose proof (round_half_up_bounds n1 k). pose proof (round_half_up_bounds n2 k). lia.
Qed.

Lemma round_half_up_scale n k j :
  0 <= k -> 0 <= j -> round_half_up (n * 10 ^ j) (k + j) = round_half_up n k.
Proof.
  intros Hk Hj. pose proof (pow10_gt0 k Hk). pose proof (pow10_gt0 j Hj).
  unfold round_half_up. rewrite Z.pow_add_r by lia.
  rewrite Z.div_mul_cancel_r by lia.
  rewrite Z.mul_mod_distr_r by lia.
  destruct (Z.leb_spec (10 ^ k * 10 ^ j) (2 * (n mod 10 ^ k * 10 ^ j)));
    destruct (Z.leb_spec (10 ^ k) (2 * (n mod 10 ^ k))); try reflexivity; nia.
Qed.

Lemma round_half_up_error n k : 0 <= k ->
  2 * Z.abs (round_half_up n k * 10 ^ k - n) <= 10 ^ k.
Proof.
  intros Hk. pose proof (pow10_gt0 k Hk) as Hp.
  pose proof (Z.div_mod n (10 ^ k) ltac:(lia)) as Hdm.
  pose proof (Z.mod_pos_bound n (10 ^ k) Hp) as Hmb.
  unfold round_half_up.
  destruct (Z.leb_spec (10 ^ k) (2 * (n mod 10 ^ k))); nia.
Qed.



Lemma rescale_expo rnd e d : expo (rescale rnd e d) = e.
Proof. unfold rescale. destruct (_ <=? _); reflexivity. Qed.

Lemma cents_align c e m : m <= e -> m <= -2 ->
  cents (mkDecimal c e) = cents_at m (c * 10 ^ (e - m)).
Proof.
  intros H1 H2. unfold cents, cents_at, rescale. cbn [coeff expo].
  pose proof (pow10_gt0 (e - m) ltac:(lia)) as Hp.
  rewrite Z.abs_mul, (Z.abs_eq (10 ^ (e - m))) by lia.
  rewrite Z.sgn_mul, (Z.sgn_pos (10 ^ (e - m))), Z.mul_1_r by lia.
  destruct (Z.leb_spec (-2) e) as [He|He]; cbn [coeff].
  - replace (e - m) with ((e - -2) + (-2 - m)) by lia.
    rewrite Z.pow_add_r, Z.mul_assoc by lia.
    rewrite round_half_up_exact by lia.
    rewrite Z.mul_assoc, (Z.mul_comm (Z.sgn c)).
    rewrite Z.abs_sgn. reflexivity.
  - replace (-2 - m) with ((-2 - e) + (e - m)) by lia.
    rewrite round_half_up_scale by lia. reflexivity.
Qed.

Lemma cents_at_mono m n1 n2 : m <= -2 -> n1 <= n2 -> cents_at m n1 <= cents_at m n2.
Proof.
  intros Hm Hle. unfold cents_at.
  assert (Hnn : forall n, 0 <= round_half_up (Z.abs n) (-2 - m)).
  { intros n. pose proof (round_half_up_bounds (Z.abs n) (-2 - m)).
    pose proof (pow10_gt0 (-2 - m) ltac:(lia)).
    assert (0 <= Z.abs n / 10 ^ (-2 - m)) by (apply Z.div_pos; lia). lia. }
  pose proof (Hnn n1). pose proof (Hnn n2).
  destruct (Z.lt_trichotomy n1 0) as [Ha|[Ha|Ha]];
    destruct (Z.lt_trichotomy n2 0) as [Hb|[Hb|Hb]]; try lia; subst;
    rewrite ?Z.sgn_neg, ?Z.sgn_pos, ?Z.sgn_0 by lia; try lia.
  - pose proof (round_half_up_mono (Z.abs n2) (Z.abs n1) (-2 - m) ltac:(lia) ltac:(lia)). lia.
  - pose proof (round_half_up_mono (Z.abs n1) (Z.abs n2) (-2 - m) ltac:(lia) ltac:(lia)). lia.
Qed.

Lemma cents_at_error m n : m <= -2 ->
  2 * Z.abs (cents_at m n * 10 ^ (-2 - m) - n) <= 10 ^ (-2 - m).
Proof.
  intros Hm. unfold cents_at.
  pose proof (round_half_up_error (Z.abs n) (-2 - m) ltac:(lia)) as H.
  destruct (Z.lt_trichotomy n 0) as [Ha|[Ha|Ha]]; subst;
    rewrite ?Z.sgn_neg, ?Z.sgn_pos, ?Z.sgn_0 by lia; cbn [Z.abs] in *; lia.
Qed.

Lemma value_cents (r : Decimal) : expo r = -2 -> value r = (IZR (coeff r) / 100)%R.
Proof.
  intros H. unfold value. rewrite H. change (powerRZ 10 (-2)) with (/ (10 * (10 * 1)))%R.
  field.
Qed.

Lemma quantize_cents_some d r : quantize_cents d = Some r ->
  r = rescale round_half_up (-2) d /\ expo r = -2 /\ coeff r = cents d /\
  Z.abs (coeff r) < 10 ^ prec.
Proof.
  unfold quantize_cents. intros H.
  assert (Hr : r = rescale round_half_up (-2) d /\
               (coeff d = 0 \/ ndigits (Z.abs (coeff r)) <= prec)).
  { destruct (Z.eqb_spec (coeff d) 0); [inversion H; auto|].
    destruct (_ <? _); [discriminate|].
    destruct (Z.ltb_spec prec (ndigits (Z.abs (coeff (rescale round_half_up (-2) d)))));
      [discriminate|]. inversion H; subst. auto. }
  destruct Hr as [-> Hb]. repeat split; [apply rescale_expo|].
  destruct Hb as [Hz|Hb].
  - unfold rescale. rewrite Hz. destruct (_ <=? _); cbn [coeff Z.sgn]; vm_compute; reflexivity.
  - apply ndigits_le_iff; unfold prec in *; lia.
Qed.

(** Rounding to cents is monotone. *)
Lemma cents_mono a b : (value a <= value b)%R -> cents a <= cents b.
Proof.
  destruct a as [ca ea], b as [cb eb]. intros H.
  set (m := Z.min (Z.min ea eb) (-2)).
  rewrite (value_align ca ea m), (value_align cb eb m) in H by lia.
  apply scaled_le in H.
  rewrite (cents_align ca ea m), (cents_align cb eb m) by lia.
  apply cents_at_mono; [lia | assumption].
Qed.

Lemma quantize_cents_mono a b ra rb :
  quantize_cents a = Some ra -> quantize_cents b = Some rb ->
  (value a <= value b)%R -> (value ra <= value rb)%R.
Proof.
  intros Ha Hb H.
  destruct (quantize_cents_some _ _ Ha) as (_ & Hea & Hca & _).
  destruct (quantize_cents_some _ _ Hb) as (_ & Heb & Hcb & _).
  rewrite (value_cents ra Hea), (value_cents rb Heb), Hca, Hcb.
  apply cents_mono, IZR_le in H. lra.
Qed.

(** A recorded amount lies within half a cent of the amount it rounds. *)
Lemma cents_error d : (Rabs (IZR (cents d) / 100 - value d) <= 1 / 200)%R.
Proof.
  destruct d as [c e]. set (m := Z.min e (-2)).
  rewrite (value_align c e m), (cents_align c e m) by lia.
  set (n := c * 10 ^ (e - m)).
  pose proof (cents_at_error m n ltac:(lia)) as H.
  set (k := -2 - m) in *. pose proof (pow10_gt0 k ltac:(lia)) as Hp.
  assert (Hm : powerRZ 10 m = (/ (100 * IZR (10 ^ k)))%R).
  { rewrite IZR_pow10 by lia. replace m with (- (2 + k)) by lia.
    rewrite powerRZ_neg', powerRZ_add by lra.
    change (powerRZ 10 2) with (10 * (10 * 1))%R. f_equal. ring. }
  rewrite Hm. apply IZR_lt in Hp.
  apply IZR_le in H. rewrite mult_IZR, abs_IZR, minus_IZR, mult_IZR in H.
  set (P := IZR (10 ^ k)) in *. set (C := IZR (cents_at m n)) in *. set (N := IZR n) in *.
  replace (C / 100 - N * / (100 * P))%R with ((C * P - N) * / (100 * P))%R by (field; lra).
  rewrite Rabs_mult, (Rabs_pos_eq (/ _)) by (left; apply Rinv_0_lt_compat; lra).
  apply Rmult_le_reg_r with (100 * P)%R; [lra|].
  rewrite Rmult_assoc, Rinv_l by lra. lra.
Qed.

Lemma quantize_cents_error d r : quantize_cents d = Some r ->
  (Rabs (value r - value d) <= 1 / 200)%R.
Proof.
  intros H. destruct (quantize_cents_some _ _ H) as (_ & He & Hc & _).
  rewrite (value_cents r He), Hc. apply cents_error.
Qed.

(** An amount that already has at most two decimals is kept as it is. *)
Lemma quantize_cents_exact d r : quantize_cents d = Some r -> -2 <= expo d ->
  value r = value d.
Proof.
  intros H He. destruct (quantize_cents_some _ _ H) as (-> & _).
  unfold rescale. destruct (Z.leb_spec (-2) (expo d)); [|lia].
  transitivity (value (mkDecimal (coeff d) (expo d))); [|reflexivity].
  rewrite (value_align (coeff d) (expo d) (-2)) by lia. reflexivity.
Qed.

Lemma quantize_cents_idem d r : quantize_cents d = Some r -> quantize_cents r = Some r.
Proof.
  intros H. destruct (quantize_cents_some _ _ H) as (_ & He & _ & Hb).
  assert (Hr : rescale round_half_up (-2) r = r).
  { destruct r as [c e]. cbn [expo coeff] in *. subst e.
    unfold rescale. cbn. rewrite Z.mul_1_r. reflexivity. }
  unfold quantize_cents. rewrite Hr.
  destruct (Z.eqb_spec (coeff r) 0); [reflexivity|].
  assert (Hn : ndigits (Z.abs (coeff r)) <= prec)
    by (apply ndigits_le_iff; unfold prec in *; lia).
  rewrite He.
  destruct (Z.ltb_spec prec (ndigits (Z.abs (coeff r)) + -2 + 2)); [lia|].
  destruct (Z.ltb_spec prec (ndigits (Z.abs (coeff r)))); [lia|]. reflexivity.
Qed.

(** *** Signs of quotients and products *)

Lemma strip_zeros_nonneg fuel : forall c e ideal,
  0 <= c -> 0 <= fst (strip_zeros fuel c e ideal).
Proof.
  induction fuel as [|f IH]; intros c e ideal Hc; cbn [strip_zeros]; [assumption|].
  destruct ((e <? ideal) && (c mod 10 =? 0)); [|assumption].
  apply IH. apply Z.div_pos; lia.
Qed.

Lemma value_nonneg_coeff d : (0 <= value d)%R <-> 0 <= coeff d.
Proof.
  destruct (value_sign d) as (Hp & Hz & Hn). split; intros H.
  - destruct (Z.lt_ge_cases (coeff d) 0) as [Hl|]; [|assumption].
    apply Hn in Hl. lra.
  - destruct (Z.eq_dec (coeff d) 0) as [E|E].
    + apply Hz in E. lra.
    + left. apply Hp. lia.
Qed.

(** The quotient of a non-negative number by a positive one is not negative. *)
Lemma div_nonneg a b : (0 <= value a)%R -> (0 < value b)%R -> (0 <= value (div a b))%R.
Proof.
  intros Ha Hb. apply value_nonneg_coeff in Ha.
  destruct (value_sign b) as (Hpb & _). apply Hpb in Hb.
  unfold div.
  destruct (Z.eqb_spec (coeff b) 0); [lia|].
  destruct (Z.eqb_spec (coeff a) 0).
  - apply fix_ctx_nonneg. rewrite value_zero_coeff. lra.
  - rewrite (Z.sgn_pos (coeff a)), (Z.sgn_pos (coeff b)) by lia.
    set (shift := ndigits (Z.abs (coeff b)) - ndigits (Z.abs (coeff a)) + prec + 1).
    set (num := if 0 <=? shift then Z.abs (coeff a) * 10 ^ shift else Z.abs (coeff a)).
    set (den := if 0 <=? shift then Z.abs (coeff b) else Z.abs (coeff b) * 10 ^ (- shift)).
    assert (Hnum : 0 <= num).
    { unfold num. destruct (Z.leb_spec 0 shift); [|lia].
      pose proof (pow10_gt0 shift ltac:(lia)). nia. }
    assert (Hden : 0 < den).
    { unfold den. destruct (Z.leb_spec 0 shift); [lia|].
      pose proof (pow10_gt0 (- shift) ltac:(lia)). nia. }
    assert (Hq : 0 <= num / den) by (apply Z.div_pos; lia).
    destruct (num mod den =? 0).
    + pose proof (strip_zeros_nonneg (Z.to_nat (ndigits (num / den))) (num / den)
                    (expo a - expo b - shift) (expo a - expo b) Hq) as Hs.
      destruct (strip_zeros _ _ _ _) as [c' e']. cbn [fst] in Hs.
      apply fix_ctx_nonneg. apply value_nonneg_coeff. cbn [coeff]. lia.
    + apply fix_ctx_nonneg. apply value_nonneg_coeff. cbn [coeff].
      destruct (num / den mod 5 =? 0); lia.
Qed.


Lemma max_zero_nonneg a : (0 <= value (max a (of_Z 0)))%R.
Proof. rewrite value_max, value_of_Z. apply Rmax_r. Qed.

(** Half a cent is rounded away from zero. *)
Lemma cents_tie d n :
  value d = ((IZR n + 1 / 2) / 100)%R ->
  cents d = if 0 <=? n then n + 1 else n.
Proof.
  destruct d as [c e]. intros Hv. set (m := Z.min e (-3)).
  rewrite (value_align c e m) in Hv by lia.
  rewrite (cents_align c e m) by lia.
  set (N := c * 10 ^ (e - m)) in *. set (k := -2 - m).
  assert (Hk : 1 <= k) by (unfold k; lia).
  pose proof (pow10_gt0 k ltac:(lia)) as Hp.
  assert (Hm : powerRZ 10 m = (/ (100 * IZR (10 ^ k)))%R).
  { rewrite IZR_pow10 by lia. replace m with (- (2 + k)) by (unfold k; lia).
    rewrite powerRZ_neg', powerRZ_add by lra.
    change (powerRZ 10 2) with (10 * (10 * 1))%R. f_equal. ring. }
  rewrite Hm in Hv.
  assert (HZ : 2 * N = (2 * n + 1) * 10 ^ k).
  { apply eq_IZR. rewrite !mult_IZR, plus_IZR, mult_IZR.
    apply IZR_lt in Hp. set (P := IZR (10 ^ k)) in *.
    assert (IZR N = (IZR n + 1 / 2) * P)%R.
    { apply (Rmult_eq_compat_r (100 * P)) in Hv. field_simplify in Hv; lra. }
    lra. }
  set (H := 5 * 10 ^ (k - 1)).
  assert (HP : 10 ^ k = 2 * H).
  { unfold H. replace k with (Z.succ (k - 1)) at 1 by lia. rewrite Z.pow_succ_r by lia. ring. }
  assert (HH : 0 < H) by (unfold H; pose proof (pow10_gt0 (k - 1) ltac:(lia)); lia).
  assert (HN : N = (2 * n + 1) * H) by nia.
  unfold cents_at. fold k. unfold round_half_up.
  destruct (Z.leb_spec 0 n) as [Hn|Hn].
  - assert (Habs : Z.abs N = n * 10 ^ k + H) by (rewrite HN, HP; nia).
    rewrite Habs, HP.
    rewrite Z.div_add_l, Z.div_small, Z.add_0_r by lia.
    rewrite Z.add_comm, Z.mod_add, Z.mod_small by lia.
    destruct (Z.leb_spec (2 * H) (2 * H)); [|lia].
    rewrite Z.sgn_pos by nia. lia.
  - assert (Habs : Z.abs N = (- n - 1) * 10 ^ k + H) by (rewrite HN, HP; nia).
    rewrite Habs, HP.
    rewrite Z.div_add_l, Z.div_small, Z.add_0_r by lia.
    rewrite Z.add_comm, Z.mod_add, Z.mod_small by lia.
    destruct (Z.leb_spec (2 * H) (2 * H)); [|lia].
    rewrite Z.sgn_neg by nia. lia.
Qed.

(** *** Amounts that can be rounded to cents *)

Lemma powerRZ_10_le a b : a <= b -> (powerRZ 10 a <= powerRZ 10 b)%R.
Proof.
  intros H. replace b with ((b - a) + a) by lia.
  rewrite powerRZ_add by lra. rewrite <- (IZR_pow10 (b - a)) by lia.
  pose proof (pow10_gt0 (b - a) ltac:(lia)) as Hp.
  pose proof (powerRZ_10_pos a).
  assert (1 <= IZR (10 ^ (b - a)))%R by (apply IZR_le; lia). nra.
Qed.

Lemma powerRZ_10_lt_inv a b : (powerRZ 10 a < powerRZ 10 b)%R -> a < b.
Proof.
  intros H. destruct (Z.lt_ge_cases a b) as [|Hge]; [assumption|exfalso].
  pose proof (powerRZ_10_le b a Hge). lra.
Qed.

(** The size of a number bounds its digits. *)
Lemma digits_of_bounded d k :
  coeff d <> 0 -> (Rabs (value d) < powerRZ 10 k)%R ->
  ndigits (Z.abs (coeff d)) + expo d <= k.
Proof.
  intros Hnz Hlt. unfold value in Hlt.
  pose proof (powerRZ_10_pos (expo d)) as Hp.
  rewrite Rabs_mult, (Rabs_pos_eq (powerRZ 10 (expo d))), <- abs_IZR in Hlt by lra.
  destruct (ndigits_spec (Z.abs (coeff d)) ltac:(lia)) as [[Hlo _] Hge].
  set (nd := ndigits (Z.abs (coeff d))) in *.
  apply IZR_le in Hlo. rewrite IZR_pow10 in Hlo by lia.
  assert (H : (powerRZ 10 (nd - 1 + expo d) < powerRZ 10 k)%R).
  { rewrite powerRZ_add by lra.
    eapply Rle_lt_trans; [|exact Hlt]. apply Rmult_le_compat_r; lra. }
  apply powerRZ_10_lt_inv in H. lia.
Qed.

(** Amounts below 10^25 in size can be rounded to cents. *)
Lemma quantize_cents_defined d :
  (Rabs (value d) <= powerRZ 10 25)%R -> exists r, quantize_cents d = Some r.
Proof.
  intros Hb. unfold quantize_cents.
  destruct (Z.eqb_spec (coeff d) 0) as [|Hnz]; [eexists; reflexivity|].
  assert (H1 : ndigits (Z.abs (coeff d)) + expo d <= 26).
  { apply digits_of_bounded; [assumption|].
    eapply Rle_lt_trans; [exact Hb|].
    rewrite <- (IZR_pow10 25), <- (IZR_pow10 26) by lia.
    apply IZR_lt. reflexivity. }
  destruct (Z.ltb_spec prec (ndigits (Z.abs (coeff d)) + expo d + 2)) as [Hbad|_];
    [unfold prec in Hbad; lia|].
  assert (H2 : Z.abs (cents d) <= 10 ^ 27).
  { assert (Hb' : (- powerRZ 10 25 <= value d <= powerRZ 10 25)%R)
      by (unfold Rabs in Hb; destruct (Rcase_abs (value d)); lra).
    destruct Hb' as [Hlo Hhi].
    assert (Vhi : value (mkDecimal (10 ^ 27) (-2)) = powerRZ 10 25).
    { rewrite (value_cents (mkDecimal (10 ^ 27) (-2)) eq_refl). cbn [coeff].
      rewrite <- (IZR_pow10 25) by lia.
      change (10 ^ 27) with (10 ^ 25 * 100). rewrite mult_IZR. field. }
    assert (Vlo : value (mkDecimal (- 10 ^ 27) (-2)) = (- powerRZ 10 25)%R).
    { rewrite (value_cents (mkDecimal (- 10 ^ 27) (-2)) eq_refl). cbn [coeff].
      rewrite <- (IZR_pow10 25) by lia.
      change (- 10 ^ 27) with (- (10 ^ 25 * 100)). rewrite opp_IZR, mult_IZR. field. }
    rewrite <- Vhi in Hhi. rewrite <- Vlo in Hlo.
    apply cents_mono in Hhi, Hlo.
    assert (E1 : cents (mkDecimal (10 ^ 27) (-2)) = 10 ^ 27) by (vm_compute; reflexivity).
    assert (E2 : cents (mkDecimal (- 10 ^ 27) (-2)) = - 10 ^ 27) by (vm_compute; reflexivity).
    rewrite E1 in Hhi. rewrite E2 in Hlo. lia. }
  fold (cents d).
  destruct (Z.ltb_spec prec (ndigits (Z.abs (cents d)))) as [Hbad|_]; [|eexists; reflexivity].
  exfalso.
  assert (Z.abs (cents d) < 10 ^ prec).
  { eapply Z.le_lt_trans; [exact H2|]. reflexivity. }
  apply (ndigits_le_iff (Z.abs (cents d)) prec) in H; unfold prec in *; lia.
Qed.

Lemma quantize_cents_defined_between d hi :
  (0 <= value d)%R -> (value d <= value hi)%R -> leb hi (mkDecimal 1 25) = true ->
  exists r, quantize_cents d = Some r.
Proof.
  intros H0 H1 H2. apply leb_value in H2.
  assert (V : value (mkDecimal 1 25) = powerRZ 10 25) by (unfold value; cbn [coeff expo]; lra).
  rewrite V in H2.
  apply quantize_cents_defined. rewrite Rabs_pos_eq by assumption. lra.
Qed.

Lemma value_int n : value (mkDecimal n 0) = IZR n.
Proof. unfold value; cbn [Dec.coeff Dec.expo powerRZ]. lra. Qed.

End DecFacts.

(** Decide the comparisons of the goal from the real-number facts at hand. *)
Ltac decide_cmp :=
  repeat match goal with
    | |- context [Dec.ltb ?a ?b] =>
        first [ rewrite (proj2 (DecFacts.ltb_value a b)) by (rewrite ?DecFacts.value_int, ?DecFacts.value_of_Z; lra)
              | rewrite (proj2 (DecFacts.ltb_false_value a b)) by (rewrite ?DecFacts.value_int, ?DecFacts.value_of_Z; lra) ]
    | |- context [Dec.leb ?a ?b] =>
        first [ rewrite (proj2 (DecFacts.leb_value a b)) by (rewrite ?DecFacts.value_int, ?DecFacts.value_of_Z; lra)
              | rewrite (proj2 (DecFacts.leb_false_value a b)) by (rewrite ?DecFacts.value_int, ?DecFacts.value_of_Z; lra) ]
    end.

Ltac cmp_cases a b H :=
  destruct (Dec.ltb a b) eqn:H;
  [ apply DecFacts.ltb_value in H | apply DecFacts.ltb_false_value in H ];
  rewrite ?DecFacts.value_int, ?DecFacts.value_of_Z in H.


(* ================================================================== *)
(** ** The progressive bracket evaluator *)
(* ================================================================== *)

Section ProgressiveTax.
Import DecSem DecFacts Spec.

Lemma leb_negb_ltb a b : Dec.leb a b = negb (Dec.ltb b a).
Proof.
  destruct (Dec.ltb b a) eqn:E; cbn.
  - apply leb_false_value. apply ltb_value in E. assumption.
  - apply leb_value. apply ltb_false_value in E. assumption.
Qed.

(** What the loop computes, bracket by bracket, up to its [break]. *)
Lemma progressive_loop_unfold base lower upper rate rest tax parts :
  progressive_loop base ((lower, upper, rate) :: rest) tax parts =
    if applies base (lower, upper, rate)
    then progressive_loop base rest
           (Dec.add tax (bracket_share base (lower, upper, rate)))
           (parts ++ [bracket_fragment base (lower, upper, rate)])%list
    else (tax, parts).
Proof.
  cbn [progressive_loop]. unfold applies, bracket_share, bracket_fragment, bracket_amount,
    lower_bound, upper_bound, bracket_rate. cbn [fst snd].
  rewrite leb_negb_ltb. destruct (Dec.ltb lower base); cbn [negb]; [|reflexivity].
  rewrite (mul_comm rate). reflexivity.
Qed.

(** In an ascending table nothing applies after the first bracket that does
    not. *)
Lemma ascending_none_applies base b rest :
  ascending_lowers (b :: rest) = true -> applies base b = false ->
  filter (applies base) rest = [].
Proof.
  revert b. induction rest as [|b2 rest IH]; intros b Hasc Hb; [reflexivity|].
  cbn [ascending_lowers] in Hasc. apply andb_true_iff in Hasc as [Hle Hasc].
  assert (Hb2 : applies base b2 = false).
  { unfold applies in *. apply ltb_false_value. apply ltb_false_value in Hb.
    apply leb_value in Hle. lra. }
  cbn [filter]. rewrite Hb2. eapply IH; eassumption.
Qed.

Lemma ascending_tail b rest : ascending_lowers (b :: rest) = true -> ascending_lowers rest = true.
Proof.
  destruct rest as [|b2 rest]; [reflexivity|]. cbn [ascending_lowers].
  intros H. apply andb_true_iff in H as [_ H]. exact H.
Qed.

Lemma progressive_loop_filter base brackets : forall tax parts,
  ascending_lowers brackets = true ->
  progressive_loop base brackets tax parts =
    (fold_left Dec.add (map (bracket_share base) (filter (applies base) brackets)) tax,
     (parts ++ map (bracket_fragment base) (filter (applies base) brackets))%list).
Proof.
  induction brackets as [|[[lower upper] rate] rest IH]; intros tax parts Hasc.
  - cbn. rewrite app_nil_r. reflexivity.
  - rewrite progressive_loop_unfold. cbn [filter].
    destruct (applies base (lower, upper, rate)) eqn:E.
    + rewrite IH by (eapply ascending_tail; eassumption).
      cbn [map fold_left]. rewrite <- app_assoc. reflexivity.
    + rewrite (ascending_none_applies base _ _ Hasc E). cbn. rewrite app_nil_r. reflexivity.
Qed.

(** Where the exact numbers have at most 28 digits, the operators of the
    context do not round: amounts, shares, fragments and sums are the exact
    ones. *)
Lemma fits_fix_ctx d : fits d = true -> Dec.fix_ctx d = d.
Proof. unfold fits. intros H. apply fix_ctx_small. apply Z.ltb_lt. exact H. Qed.

Lemma bracket_amount_exact base b :
  fits (exact_amount base b) = true -> bracket_amount base b = exact_amount base b.
Proof.
  intros H. unfold bracket_amount, Dec.sub. rewrite add_unfold. apply fits_fix_ctx. exact H.
Qed.

Lemma bracket_share_exact base b :
  fits (exact_amount base b) = true -> fits (exact_share base b) = true ->
  bracket_share base b = exact_share base b.
Proof.
  intros Ha Hs. unfold bracket_share. rewrite (bracket_amount_exact base b Ha), mul_unfold.
  apply fits_fix_ctx. exact Hs.
Qed.

Lemma bracket_fragment_exact base b :
  fits (exact_amount base b) = true ->
  fits (mul_exact (bracket_rate b) (Dec.of_Z 100)) = true ->
  bracket_fragment base b = exact_fragment base b.
Proof.
  intros Ha Hp. unfold bracket_fragment, exact_fragment, percentage.
  rewrite (bracket_amount_exact base b Ha), mul_unfold, (fits_fix_ctx _ Hp). reflexivity.
Qed.

Lemma exact_evaluation base applied : forall sum,
  forallb (fun b => fits (exact_amount base b) && fits (exact_share base b)
                    && fits (mul_exact (bracket_rate b) (Dec.of_Z 100))) applied = true ->
  partial_sums_fit sum (map (exact_share base) applied) = true ->
  fold_left Dec.add (map (bracket_share base) applied) sum
  = fold_left add_exact (map (exact_share base) applied) sum /\
  map (bracket_fragment base) applied = map (exact_fragment base) applied.
Proof.
  induction applied as [|b rest IH]; intros sum Hall Hsums; [split; reflexivity|].
  cbn [forallb] in Hall. apply andb_true_iff in Hall as [Hb Hall].
  apply andb_true_iff in Hb as [Hb Hp]. apply andb_true_iff in Hb as [Ha Hs].
  cbn [map partial_sums_fit] in Hsums. apply andb_true_iff in Hsums as [Hsum Hsums].
  cbn [map fold_left].
  rewrite (bracket_share_exact base b Ha Hs), (bracket_fragment_exact base b Ha Hp).
  rewrite add_unfold, (fits_fix_ctx _ Hsum).
  destruct (IH _ Hall Hsums) as [IH1 IH2]. rewrite IH1, IH2. split; reflexivity.
Qed.

Lemma valid_bracket_value lower upper rate :
  valid_bracket (lower, upper, rate) = true ->
  (0 <= value lower)%R /\ (value lower <= value upper)%R /\ (0 <= value rate)%R.
Proof.
  unfold valid_bracket, lower_bound, upper_bound, bracket_rate. cbn [fst snd].
  intros H. apply andb_true_iff in H as [H H3]. apply andb_true_iff in H as [H1 H2].
  apply leb_value in H1, H2, H3. rewrite value_of_Z in H1, H3. auto.
Qed.

(** *** Bases and tables in cents need no rounding *)

(** The coefficient of a number of bounded size on a grid that is not finer
    than [10^-E]. *)
Lemma coeff_bound d E V : 0 <= E -> - E <= Dec.expo d ->
  (Rabs (value d) <= IZR V)%R -> Z.abs (Dec.coeff d) <= V * 10 ^ E.
Proof.
  intros HE He Hv.
  assert (H10 : 0 < 10 ^ (Dec.expo d + E)) by (apply pow10_gt0; lia).
  rewrite value_eta, (value_align (Dec.coeff d) (Dec.expo d) (- E)) in Hv by lia.
  replace (Dec.expo d - - E) with (Dec.expo d + E) in Hv by lia.
  assert (HV : IZR V = (IZR (V * 10 ^ E) * powerRZ 10 (- E))%R).
  { rewrite mult_IZR, IZR_pow10 by lia. rewrite Rmult_assoc, <- powerRZ_add by lra.
    replace (E + - E) with 0 by lia. cbn. lra. }
  rewrite HV in Hv.
  assert (Hv' : (- (IZR (V * 10 ^ E) * powerRZ 10 (- E))
                 <= IZR (Dec.coeff d * 10 ^ (Dec.expo d + E)) * powerRZ 10 (- E)
                 <= IZR (V * 10 ^ E) * powerRZ 10 (- E))%R)
    by (unfold Rabs in Hv; destruct (Rcase_abs _) in Hv; lra).
  destruct Hv' as [Hlo Hhi].
  apply scaled_le in Hhi.
  replace (- (IZR (V * 10 ^ E) * powerRZ 10 (- E)))%R
    with (IZR (- (V * 10 ^ E)) * powerRZ 10 (- E))%R in Hlo
    by (rewrite opp_IZR; ring).
  apply scaled_le in Hlo. nia.
Qed.

Lemma fits_bound d B : Z.abs (Dec.coeff d) <= B -> B < 10 ^ Dec.prec -> fits d = true.
Proof. intros H1 H2. unfold fits. apply Z.ltb_lt. lia. Qed.

Lemma cent_bracket_fits base b :
  cent_bracket b = true -> -2 <= Dec.expo base -> applies base b = true ->
  fits (exact_amount base b) = true /\ fits (exact_share base b) = true /\
  fits (mul_exact (bracket_rate b) (Dec.of_Z 100)) = true /\
  -6 <= Dec.expo (exact_share base b) /\
  (0 <= value (exact_share base b) <= 999999999)%R.
Proof.
  destruct b as [[lo hi] r]. unfold cent_bracket, applies, lower_bound, upper_bound, bracket_rate.
  cbn [fst snd]. rewrite !andb_true_iff, !Z.leb_le. intros [[[[[Hv Hel] Heh] Hcap] Her] Hr1] Heb Hap.
  apply valid_bracket_value in Hv as (Hlo0 & Hlohi & Hr0).
  apply leb_value in Hcap, Hr1. apply ltb_value in Hap.
  rewrite value_of_Z in Hr1.
  replace (value BRACKETS_END) with 999999999%R in Hcap
    by (unfold BRACKETS_END, value; cbn; lra).
  set (amount := exact_amount base (lo, hi, r)).
  assert (Hea : -2 <= Dec.expo amount).
  { unfold amount, exact_amount, add_exact, upper_bound, lower_bound. cbn [fst snd Dec.expo].
    unfold Dec.min. destruct (Dec.ltb hi base); cbn [Dec.copy_negate Dec.expo]; lia. }
  assert (Hva : (0 <= value amount <= 999999999)%R).
  { unfold amount, exact_amount, upper_bound, lower_bound. cbn [fst snd].
    rewrite value_add_exact, value_copy_negate, value_min.
    unfold Rmin. destruct (Rle_dec (value base) (value hi)); lra. }
  set (share := exact_share base (lo, hi, r)).
  assert (Hes : -6 <= Dec.expo share).
  { unfold share, exact_share, mul_exact, bracket_rate. cbn [fst snd Dec.expo].
    fold amount. lia. }
  assert (Hvs : (0 <= value share <= 999999999)%R).
  { unfold share, exact_share, bracket_rate. cbn [snd]. fold amount.
    rewrite value_mul_exact. nra. }
  assert (H28 : 10 ^ Dec.prec = 10000000000000000000000000000) by reflexivity.
  split; [|split; [|split; [|split]]].
  - apply (fits_bound _ (999999999 * 10 ^ 2)); [|rewrite H28; lia].
    apply coeff_bound; [lia | lia | apply Rabs_le; lra].
  - apply (fits_bound _ (999999999 * 10 ^ 6)); [|rewrite H28; lia].
    apply coeff_bound; [lia | exact Hes | apply Rabs_le; lra].
  - apply (fits_bound _ (100 * 10 ^ 4)); [|rewrite H28; lia].
    apply coeff_bound; [lia | cbn [mul_exact Dec.expo Dec.of_Z]; lia|].
    rewrite value_mul_exact, value_of_Z. apply Rabs_le. lra.
  - exact Hes.
  - exact Hvs.
Qed.

Lemma cent_sums_fit base applied : forall sum K,
  Forall (fun b => cent_bracket b = true /\ applies base b = true) applied ->
  -2 <= Dec.expo base ->
  -6 <= Dec.expo sum -> (0 <= value sum <= IZR K * 999999999)%R ->
  0 <= K -> K + Z.of_nat (List.length applied) <= 1001 ->
  partial_sums_fit sum (map (exact_share base) applied) = true.
Proof.
  induction applied as [|b rest IH]; intros sum K Hall Hb He Hv HK Hlen; [reflexivity|].
  inversion Hall as [|? ? [Hcb Hap] Hrest]; subst.
  destruct (cent_bracket_fits base b Hcb Hb Hap) as (_ & _ & _ & Hes & Hvs).
  cbn [List.length] in Hlen. cbn [map partial_sums_fit].
  assert (He' : -6 <= Dec.expo (add_exact sum (exact_share base b)))
    by (unfold add_exact; cbn [Dec.expo]; lia).
  assert (Hv' : (0 <= value (add_exact sum (exact_share base b))
                 <= IZR (K + 1) * 999999999)%R)
    by (rewrite value_add_exact, plus_IZR; lra).
  apply andb_true_iff. split.
  - apply (fits_bound _ ((K + 1) * 999999999 * 10 ^ 6)).
    + apply coeff_bound; [lia | exact He'|]. rewrite mult_IZR. apply Rabs_le. lra.
    + replace (10 ^ Dec.prec) with 10000000000000000000000000000 by reflexivity. nia.
  - apply (IH _ (K + 1)); try assumption; lia.
Qed.

Lemma cent_table_within_precision base brackets :
  cent_table brackets = true -> -2 <= Dec.expo base ->
  within_precision base brackets = true.
Proof.
  unfold cent_table. rewrite andb_true_iff, Nat.leb_le, forallb_forall. intros [Hall Hlen] Hb.
  assert (Happlied : Forall (fun b => cent_bracket b = true /\ applies base b = true)
                       (filter (applies base) brackets)).
  { apply Forall_forall. intros b Hin. apply filter_In in Hin as [Hin Hap]. auto. }
  unfold within_precision. apply andb_true_iff. split.
  - apply forallb_forall. intros b Hin.
    rewrite Forall_forall in Happlied. destruct (Happlied b Hin) as [Hcb Hap].
    destruct (cent_bracket_fits base b Hcb Hb Hap) as (H1 & H2 & H3 & _).
    rewrite H1, H2, H3. reflexivity.
  - apply (cent_sums_fit base _ _ 0 Happlied Hb).
    + cbn. lia.
    + rewrite value_of_Z. lra.
    + lia.
    + pose proof (filter_length_le (applies base) brackets). lia.
Qed.

(** C5, as stated, fails.  The sum is evaluated with the operators of the
    decimal context, which round to 28 digits: on the table of Aruba a base
    of 29 digits is rounded before it is multiplied with the rate, and the
    tax is 120.01 where the rounded exact sum is 120.00. *)
Lemma progressive_tax_rounds_long_base :
  Dec.leb (Dec.of_Z 0) long_base = true /\
  ascending_lowers Aruba.TAX_BRACKETS = true /\
  non_overlapping Aruba.TAX_BRACKETS = true /\
  calculate_progressive_tax long_base Aruba.TAX_BRACKETS
  = Some (mkDecimal 12001 (-2), "12.00% on 1000.041666666666666666666667") /\
  progressive_tax_exact long_base Aruba.TAX_BRACKETS
  = Some (mkDecimal 12000 (-2), "12.00% on 1000.0416666666666666666666666").
Proof. repeat split; vm_compute; reflexivity. Qed.

(** C5, amended.  For a bracket table whose lower bounds ascend,
    [calculate_progressive_tax] returns the currency-rounded sum, over the
    brackets with [base > lowerBound], of
    [rate * (min(base, upperBound) - lowerBound)], taken in table order (the
    loop stops at the first bracket whose lower bound is at or above the
    base) and evaluated with the operators of the decimal context, together
    with the note that joins the "rate% on amount" fragments of these
    brackets with " + ", or "No tax" when no bracket applies.  Where the
    exact amounts, products, percentages and partial sums have at most 28
    digits, this is the rounding of the exact sum, with the exact amounts in
    the note; and they have at most 28 digits for every base with at most
    two decimals on a table in cents, as the tables of the four calculators
    are. *)
Theorem calculate_progressive_tax_meets_spec (base : Decimal) (brackets : list bracket) :
  ascending_lowers brackets = true ->
  calculate_progressive_tax base brackets = progressive_tax_spec base brackets /\
  (within_precision base brackets = true ->
   calculate_progressive_tax base brackets = progressive_tax_exact base brackets) /\
  (cent_table brackets = true -> -2 <= Dec.expo base ->
   calculate_progressive_tax base brackets = progressive_tax_exact base brackets) /\
  (forall j, cent_table (TAX_BRACKETS_of j) = true).
Proof.
  intros Hasc.
  assert (Hspec : calculate_progressive_tax base brackets = progressive_tax_spec base brackets).
  { unfold calculate_progressive_tax, progressive_tax_spec, sum_from_zero, round_currency.
    rewrite progressive_loop_filter by assumption. cbn [app].
    destruct (filter (applies base) brackets); reflexivity. }
  assert (Hexact : within_precision base brackets = true ->
                   calculate_progressive_tax base brackets
                   = progressive_tax_exact base brackets).
  { intros Hfit. rewrite Hspec. unfold within_precision in Hfit.
    apply andb_true_iff in Hfit as [Hall Hsums].
    destruct (exact_evaluation base _ _ Hall Hsums) as [Hsum Hnotes].
    unfold progressive_tax_spec, progressive_tax_exact, sum_from_zero, exact_sum.
    rewrite Hsum, Hnotes. reflexivity. }
  split; [exact Hspec|]. split; [exact Hexact|]. split.
  - intros Hcent Hbase. apply Hexact. apply cent_table_within_precision; assumption.
  - intros j. destruct j; vm_compute; reflexivity.
Qed.

Lemma calculate_progressive_tax_meets_spec_witness :
  ascending_lowers Curacao.TAX_BRACKETS = true /\
  within_precision (mkDecimal 400000 (-2)) Curacao.TAX_BRACKETS = true /\
  calculate_progressive_tax (mkDecimal 400000 (-2)) Curacao.TAX_BRACKETS
  = progressive_tax_exact (mkDecimal 400000 (-2)) Curacao.TAX_BRACKETS.
Proof.
  assert (Hasc : ascending_lowers Curacao.TAX_BRACKETS = true) by reflexivity.
  assert (Hfit : within_precision (mkDecimal 400000 (-2)) Curacao.TAX_BRACKETS = true)
    by (vm_compute; reflexivity).
  split; [exact Hasc|]. split; [exact Hfit|].
  destruct (calculate_progressive_tax_meets_spec (mkDecimal 400000 (-2))
              Curacao.TAX_BRACKETS Hasc) as (_ & Hexact & _).
  exact (Hexact Hfit).
Defined.

Example progressive_tax_4000 :
  calculate_progressive_tax (mkDecimal 400000 (-2)) Curacao.TAX_BRACKETS
  = Some (mkDecimal 59671 (-2),
          "9.7500% on 2116.67 + 15.00% on 725.00 + 23.00% on 941.66 + 30.00% on 216.67").
Proof. vm_compute. reflexivity. Qed.

Example progressive_tax_none :
  calculate_progressive_tax (mkDecimal 0 (-2)) Curacao.TAX_BRACKETS
  = Some (mkDecimal 0 (-2), "No tax").
Proof. vm_compute. reflexivity. Qed.


(** *** Monotonicity *)


Lemma bracket_share_nonneg base b :
  valid_bracket b = true -> applies base b = true -> (0 <= value (bracket_share base b))%R.
Proof.
  destruct b as [[lower upper] rate]. intros Hv Ha.
  apply valid_bracket_value in Hv as (_ & Hlu & Hr).
  unfold applies, bracket_share, bracket_amount, lower_bound, upper_bound, bracket_rate in *.
  cbn [fst snd] in *. apply ltb_value in Ha.
  apply mul_nonneg; [assumption|]. apply sub_nonneg.
  rewrite value_min. apply Rmin_glb; lra.
Qed.

Lemma bracket_share_mono b1 b2 b :
  valid_bracket b = true -> (value b1 <= value b2)%R ->
  (value (bracket_share b1 b) <= value (bracket_share b2 b))%R.
Proof.
  destruct b as [[lower upper] rate]. intros Hv Hle.
  apply valid_bracket_value in Hv as (_ & _ & Hr).
  unfold bracket_share, bracket_amount, lower_bound, upper_bound, bracket_rate.
  cbn [fst snd]. rewrite !(mul_comm rate).
  apply mul_mono_nonneg_r; [assumption|]. apply sub_mono; [|lra].
  rewrite !value_min. apply Rle_min_compat_r. assumption.
Qed.

(** The running total never goes down while the loop runs. *)
Lemma progressive_loop_ge base brackets : forall tax parts,
  valid_brackets brackets = true -> Z.abs (Dec.coeff tax) < 10 ^ Dec.prec ->
  (value tax <= value (fst (progressive_loop base brackets tax parts)))%R.
Proof.
  induction brackets as [|[[lower upper] rate] rest IH]; intros tax parts Hv Hb.
  - cbn. lra.
  - cbn [valid_brackets forallb] in Hv. apply andb_true_iff in Hv as [Hv Hrest].
    rewrite progressive_loop_unfold.
    destruct (applies base (lower, upper, rate)) eqn:E; [|cbn; lra].
    eapply Rle_trans; [|apply IH; [assumption | apply add_bounded]].
    apply add_nonneg_r; [assumption|]. apply bracket_share_nonneg; assumption.
Qed.

Lemma progressive_loop_mono b1 b2 brackets : forall t1 t2 p1 p2,
  valid_brackets brackets = true -> (value b1 <= value b2)%R ->
  (value t1 <= value t2)%R -> Z.abs (Dec.coeff t2) < 10 ^ Dec.prec ->
  (value (fst (progressive_loop b1 brackets t1 p1))
   <= value (fst (progressive_loop b2 brackets t2 p2)))%R.
Proof.
  induction brackets as [|[[lower upper] rate] rest IH]; intros t1 t2 p1 p2 Hv Hle Ht Hb.
  - cbn. assumption.
  - pose proof Hv as Hv'.
    cbn [valid_brackets forallb] in Hv. apply andb_true_iff in Hv as [Hv Hrest].
    rewrite (progressive_loop_unfold b1).
    destruct (applies b1 (lower, upper, rate)) eqn:E1.
    + assert (E2 : applies b2 (lower, upper, rate) = true).
      { unfold applies in *. apply ltb_value. apply ltb_value in E1. lra. }
      rewrite (progressive_loop_unfold b2), E2.
      apply IH; [assumption | assumption | | apply add_bounded].
      apply add_mono; [assumption|]. apply bracket_share_mono; assumption.
    + cbn [fst]. eapply Rle_trans; [exact Ht|].
      apply progressive_loop_ge; assumption.
Qed.

(** C9.  For a bracket table of a jurisdiction (every bracket starts at or
    above 0, ends at or above its start, and has a non-negative rate) the tax
    of the progressive bracket evaluator is a non-decreasing function of the
    taxable base, and the tax at base 0 is 0. *)
Theorem progressive_tax_monotone (brackets : list bracket) :
  valid_brackets brackets = true ->
  (forall zero, Dec.eqb zero (Dec.of_Z 0) = true ->
     calculate_progressive_tax zero brackets = Some (mkDecimal 0 (-2), "No tax")) /\
  (forall base1 base2 tax1 note1 tax2 note2,
     Dec.leb base1 base2 = true ->
     calculate_progressive_tax base1 brackets = Some (tax1, note1) ->
     calculate_progressive_tax base2 brackets = Some (tax2, note2) ->
     Dec.leb tax1 tax2 = true).
Proof.
  intros Hv. split.
  - intros zero Hz. apply eqb_value in Hz. rewrite value_of_Z in Hz.
    unfold calculate_progressive_tax.
    destruct brackets as [|[[lower upper] rate] rest]; [reflexivity|].
    rewrite progressive_loop_unfold.
    cbn [valid_brackets forallb] in Hv. apply andb_true_iff in Hv as [Hv _].
    apply valid_bracket_value in Hv as (H0 & _).
    assert (E : applies zero (lower, upper, rate) = false).
    { unfold applies, lower_bound. cbn [fst]. apply ltb_false_value. lra. }
    rewrite E. reflexivity.
  - intros base1 base2 tax1 note1 tax2 note2 Hle H1 H2.
    apply leb_value in Hle. apply leb_value.
    unfold calculate_progressive_tax in H1, H2.
    pose proof (progressive_loop_mono base1 base2 brackets (Dec.of_Z 0) (Dec.of_Z 0) [] []
                  Hv Hle (Rle_refl _) ltac:(vm_compute; reflexivity)) as Hm.
    destruct (progressive_loop base1 brackets (Dec.of_Z 0) []) as [r1 q1].
    destruct (progressive_loop base2 brackets (Dec.of_Z 0) []) as [r2 q2].
    cbn [fst] in Hm.
    destruct (round_currency r1) as [c1|] eqn:E1; [|discriminate].
    destruct (round_currency r2) as [c2|] eqn:E2; [|discriminate].
    inversion H1; inversion H2; subst.
    eapply quantize_cents_mono; eassumption.
Qed.

Lemma progressive_tax_monotone_witness :
  valid_brackets StMaarten.TAX_BRACKETS = true /\
  calculate_progressive_tax (mkDecimal 0 (-2)) StMaarten.TAX_BRACKETS
    = Some (mkDecimal 0 (-2), "No tax") /\
  Dec.leb (mkDecimal 37525 (-2)) (mkDecimal 60000 (-2)) = true.
Proof.
  split; [reflexivity|].
  destruct (progressive_tax_monotone StMaarten.TAX_BRACKETS eq_refl) as [H0 Hmono].
  split.
  - apply H0. reflexivity.
  - apply (Hmono (mkDecimal 300100 (-2)) (mkDecimal 3900 0)
                 (mkDecimal 37525 (-2)) "10.00% on 2500 + 25.00% on 501.00"
                 (mkDecimal 60000 (-2)) "10.00% on 2500 + 25.00% on 1400");
      reflexivity.
Defined.

End ProgressiveTax.

(* ================================================================== *)
(** ** Curaçao: premium credit, tax base and final tax *)
(* ================================================================== *)

Section CuracaoTax.
Import DecSem DecFacts Spec.

(** *** The premium credit *)

Lemma korting_nonneg A : (0 <= value (Curacao.calculate_aov_aww_korting_monthly A))%R.
Proof.
  unfold Curacao.calculate_aov_aww_korting_monthly.
  destruct (Dec.leb Curacao.KORTING_MAX_INCOME A).
  - rewrite value_of_Z. lra.
  - apply div_nonneg; [apply max_zero_nonneg | rewrite value_of_Z; lra].
Qed.


(** The guard around the call of the credit in the calculator changes
    nothing: above the cutoff the credit is the literal 0 either way. *)
Lemma guarded_korting A :
  (if Dec.ltb A Curacao.KORTING_MAX_INCOME
   then Curacao.calculate_aov_aww_korting_monthly A else Dec.of_Z 0)
  = Curacao.calculate_aov_aww_korting_monthly A.
Proof.
  destruct (Dec.ltb A Curacao.KORTING_MAX_INCOME) eqn:E; [reflexivity|].
  unfold Curacao.calculate_aov_aww_korting_monthly.
  rewrite leb_negb_ltb, E. reflexivity.
Qed.

Lemma aov_aww_final_is_finalPrimaryPremium pi :
  Curacao.aov_aww_final_of pi = finalPrimaryPremium pi.
Proof.
  unfold Curacao.aov_aww_final_of, finalPrimaryPremium, rawPremium.
  rewrite guarded_korting. reflexivity.
Qed.

(** *** [calculate_tax] on the standard path *)

Local Opaque Dec.div Dec.mul Dec.add Dec.sub Dec.max Dec.min Dec.neg Dec.quantize_cents
  DecFmt.format_f DecFmt.str.


Lemma calculate_tax_standard file employee gross s :
  EmployeeInput.tax_exempt employee = false ->
  EmployeeInput.tax_percentage employee = None ->
  Curacao.calculate_tax file employee gross s =
    match gross_tax file (taxBase gross) with
    | None => None
    | Some raw_tax =>
        match floored_tax raw_tax with
        | None => None
        | Some final =>
            match round_currency final with
            | None => None
            | Some a =>
                Some (final,
                      mkState
                        (line_items s ++
                           [PayrollLineItem.mk "TAX" "Wage Tax (Loonbelasting)" DEDUCTION a
                              None (Some (taxBase gross))
                              (Some (tax_note file (taxBase gross) raw_tax))])
                        (warnings s) (notes s))
            end
        end
    end.
Proof.
  intros Hex Hpct. unfold Curacao.calculate_tax. rewrite Hex, Hpct.
  rewrite aov_aww_final_is_finalPrimaryPremium.
  change (Curacao.calculate_premium_income_monthly gross) with (premiumIncome gross).
  change (Dec.sub (premiumIncome gross) (finalPrimaryPremium (premiumIncome gross)))
    with (taxBase gross).
  change (Dec.div Curacao.BASISAFTREK (Dec.of_Z 12)) with monthly_basic_credit.
  unfold gross_tax, tax_note, bind, ret, lift_option, add_line_item, raise.
  destruct (Curacao.lookup_tax_from_table file (taxBase gross)) as [t|].
  - cbv beta iota zeta.
    destruct t as [t|[|]|]; cbn [table_sub table_max_zero floored_tax]; try reflexivity;
      destruct (round_currency _); reflexivity.
  - destruct (calculate_progressive_tax (taxBase gross) Curacao.TAX_BRACKETS) as [[t n]|];
      [|reflexivity].
    cbv beta iota zeta. cbn [fst table_sub table_max_zero floored_tax].
    destruct (round_currency _); reflexivity.
Qed.

Local Transparent Dec.div Dec.mul Dec.add Dec.sub Dec.max Dec.min Dec.neg Dec.quantize_cents
  DecFmt.format_f DecFmt.str Dec.ltb Dec.leb.

End CuracaoTax.

(* ================================================================== *)
(** ** Curaçao: the social-security stage *)
(* ================================================================== *)

Section CuracaoSocialSecurity.
Import DecSem DecFacts Spec.

(** Inside the middle band the loop over the gliding scale finds the
    discount of the sub-band. *)
Lemma gliding_discount_middle A :
  Dec.ltb A (mkDecimal 12000 0) = false -> Dec.ltb A (mkDecimal 18000 0) = true ->
  Curacao.calculate_bvz_gliding_discount A = sliding_discount A.
Proof.
  intros Hlo Hhi.
  pose proof (proj1 (ltb_false_value _ _) Hlo) as Vlo.
  pose proof (proj1 (ltb_value _ _) Hhi) as Vhi. rewrite value_int in Vlo, Vhi.
  unfold Curacao.calculate_bvz_gliding_discount, sliding_discount,
    Curacao.BVZ_GLIDING_START, Curacao.BVZ_GLIDING_END, Curacao.BVZ_GLIDING_SCALE,
    Curacao.gliding_scale_lookup.
  cmp_cases A (mkDecimal 13200 0) H1; [decide_cmp; reflexivity|].
  cmp_cases A (mkDecimal 14400 0) H2; [decide_cmp; reflexivity|].
  cmp_cases A (mkDecimal 15600 0) H3; [decide_cmp; reflexivity|].
  cmp_cases A (mkDecimal 16800 0) H4; decide_cmp; reflexivity.
Qed.

Lemma gliding_discount_outside A :
  Dec.ltb A (mkDecimal 18000 0) = false ->
  Curacao.calculate_bvz_gliding_discount A = Dec.of_Z 0.
Proof.
  intros Hhi. apply ltb_false_value in Hhi. rewrite value_int in Hhi.
  unfold Curacao.calculate_bvz_gliding_discount, Curacao.BVZ_GLIDING_START,
    Curacao.BVZ_GLIDING_END.
  decide_cmp. reflexivity.
Qed.

(** Taking no discount off a context-rounded premium leaves it as it is. *)
Lemma sub_mul_zero raw :
  Z.abs (Dec.coeff raw) < 10 ^ Dec.prec -> Dec.sub raw (Dec.mul raw (Dec.of_Z 0)) = raw.
Proof.
  intros Hb. destruct raw as [c e].
  unfold Dec.mul, Dec.of_Z. cbn [Dec.coeff Dec.expo].
  rewrite Z.mul_0_r, Z.add_0_r.
  rewrite (fix_ctx_small (mkDecimal 0 e)) by (cbn [Dec.coeff]; vm_compute; reflexivity).
  unfold Dec.sub, Dec.add, Dec.copy_negate. cbn [Dec.coeff Dec.expo].
  rewrite Z.min_id, Z.sub_diag, Z.pow_0_r.
  replace (c * 1 + - 0 * 1) with c by lia.
  apply fix_ctx_small. exact Hb.
Qed.

(** The premium the calculator records outside the exempt band is the one of
    the specification. *)
Lemma bvz_final_is_bvz_premium pi :
  Dec.ltb (Dec.mul pi (Dec.of_Z 12)) Curacao.BVZ_VRIJSTELLING_ANNUAL = false ->
  Dec.sub (bvz_standard pi)
          (Dec.mul (bvz_standard pi)
                   (Curacao.calculate_bvz_gliding_discount (Dec.mul pi (Dec.of_Z 12))))
  = bvz_premium pi.
Proof.
  intros Hlo. unfold bvz_premium.
  change Curacao.BVZ_VRIJSTELLING_ANNUAL with (mkDecimal 12000 0) in Hlo. rewrite Hlo.
  destruct (Dec.ltb (Dec.mul pi (Dec.of_Z 12)) (mkDecimal 18000 0)) eqn:Hhi.
  - rewrite gliding_discount_middle by assumption. reflexivity.
  - rewrite gliding_discount_outside by assumption.
    apply sub_mul_zero. unfold bvz_standard. apply mul_bounded.
Qed.

Lemma bvz_exempt_premium pi :
  Dec.ltb (Dec.mul pi (Dec.of_Z 12)) Curacao.BVZ_VRIJSTELLING_ANNUAL = true ->
  bvz_premium pi = Dec.of_Z 0.
Proof.
  intros Hlo. unfold bvz_premium.
  change Curacao.BVZ_VRIJSTELLING_ANNUAL with (mkDecimal 12000 0) in Hlo. rewrite Hlo.
  reflexivity.
Qed.

Lemma bvz_exempt_note :
  "Exempt: income below NAf " ++ DecFmt.format_f 2 Curacao.BVZ_VRIJSTELLING_ANNUAL ++ "/year"
  = "Exempt: income below NAf 12000.00/year".
Proof. vm_compute. reflexivity. Qed.

Local Opaque Dec.div Dec.mul Dec.add Dec.sub Dec.max Dec.min Dec.neg Dec.quantize_cents
  DecFmt.format_f DecFmt.str Dec.ltb Dec.leb.

(** [calculate_social_security] records the entries of the stage, in order,
    and returns the four contributions. *)
Lemma calculate_social_security_eq employee gross s :
  Curacao.calculate_social_security employee gross s =
    match round_items (social_security_entries employee (premiumIncome gross)) with
    | None => None
    | Some items =>
        Some (social_security_contributions employee (premiumIncome gross),
              mkState (line_items s ++ items)
                      (warnings s ++ social_security_warnings employee)
                      (notes s))
    end.
Proof.
  unfold Curacao.calculate_social_security.
  change (Curacao.calculate_premium_income_monthly gross) with (premiumIncome gross).
  set (pi := premiumIncome gross).
  unfold Curacao.social_security_aov_aww, Curacao.social_security_bvz,
    Curacao.social_security_avbz, social_security_entries, social_security_contributions,
    social_security_warnings, aov_aww_entries, avbz_entry, avbz_amount, avbz_rate,
    bind, ret, add_line_item, append_warning.
  fold (rawPremium pi). fold (bvz_standard pi).
  rewrite bvz_exempt_note.
  unfold bvz_entry, bvz_note.
  assert (Hk : Dec.ltb (Dec.mul pi (Dec.of_Z 12)) Curacao.KORTING_MAX_INCOME = false ->
               Curacao.calculate_aov_aww_korting_monthly (Dec.mul pi (Dec.of_Z 12))
               = Dec.of_Z 0).
  { intros E. rewrite <- guarded_korting, E. reflexivity. }
  unfold finalPrimaryPremium. fold (rawPremium pi).
  destruct (EmployeeInput.aov_exempt employee);
    destruct (Dec.ltb (Dec.mul pi (Dec.of_Z 12)) Curacao.KORTING_MAX_INCOME) eqn:Ek;
    try rewrite (Hk eq_refl);
    (destruct (Dec.ltb (Dec.mul pi (Dec.of_Z 12)) Curacao.BVZ_VRIJSTELLING_ANNUAL) eqn:Hb;
     [ rewrite (bvz_exempt_premium pi Hb) | rewrite (bvz_final_is_bvz_premium pi Hb) ]);
    destruct (Dec.ltb (Dec.mul pi (Dec.of_Z 12)) Curacao.AVBZ_REDUCED_THRESHOLD);
    cbn;
    repeat (match goal with
            | |- context [round_currency ?x] => destruct (round_currency x); cbn
            end);
    rewrite <- ?app_assoc, ?app_nil_r; reflexivity.
Qed.

Local Transparent Dec.div Dec.mul Dec.add Dec.sub Dec.max Dec.min Dec.neg Dec.quantize_cents
  DecFmt.format_f DecFmt.str Dec.ltb Dec.leb.

End CuracaoSocialSecurity.

(* ================================================================== *)
(** ** Curaçao: final tax, premium credit and BVZ bands *)
(* ================================================================== *)

Section CuracaoStatutory.
Import DecSem DecFacts Spec.

Local Opaque Dec.div Dec.mul Dec.add Dec.sub Dec.max Dec.min Dec.neg Dec.quantize_cents
  DecFmt.format_f DecFmt.str Dec.ltb Dec.leb.

Lemma calculate_tax_exempt file employee gross s :
  EmployeeInput.tax_exempt employee = true ->
  Curacao.calculate_tax file employee gross s =
    Some (Dec.of_Z 0,
          mkState
            (line_items s ++
               [PayrollLineItem.mk "TAX" "Wage Tax (Exempt)" DEDUCTION (mkDecimal 0 (-2))
                  None None (Some "Tax exempt status")])
            (warnings s ++ ["Employee is tax exempt"]) (notes s)).
Proof.
  intros Hex. unfold Curacao.calculate_tax. rewrite Hex.
  unfold bind, ret, add_line_item, append_warning. cbn [line_items warnings notes].
  replace (round_currency (Dec.of_Z 0)) with (Some (mkDecimal 0 (-2)))
    by (vm_compute; reflexivity).
  reflexivity.
Qed.

Lemma calculate_tax_override file employee gross s pct :
  EmployeeInput.tax_exempt employee = false ->
  EmployeeInput.tax_percentage employee = Some pct ->
  Curacao.calculate_tax file employee gross s =
    let tax := Dec.mul gross (Dec.div pct (Dec.of_Z 100)) in
    match round_currency tax with
    | None => None
    | Some a =>
        Some (tax,
              mkState
                (line_items s ++
                   [PayrollLineItem.mk "TAX" "Wage Tax" DEDUCTION a
                      (Some (Dec.div pct (Dec.of_Z 100))) (Some gross)
                      (Some ("Custom rate: " ++ DecFmt.str pct ++ "%"))])
                (warnings s) (notes s))
    end.
Proof.
  intros Hex Hpct. unfold Curacao.calculate_tax. rewrite Hex, Hpct.
  unfold bind, ret, add_line_item. cbv zeta.
  destruct (round_currency _); reflexivity.
Qed.

(** What the ledger makes of a sequence of entries, entry by entry. *)
Lemma round_items_spec entries : forall items,
  round_items entries = Some items ->
  Forall2 (fun e item => exists a, round_currency (PayrollLineItem.amount e) = Some a /\
                                   item = with_amount e a) entries items.
Proof.
  induction entries as [|e rest IH]; intros items H; cbn [round_items] in H.
  - inversion H. constructor.
  - destruct (round_currency (PayrollLineItem.amount e)) as [a|] eqn:Ea; [|discriminate].
    destruct (round_items rest) as [items'|]; [|discriminate].
    inversion H; subst. constructor; [exists a; auto | apply IH; reflexivity].
Qed.


(** C2.  For an employee who is not tax-exempt and supplies no override
    percentage, the Curaçao tax stage returns
    [max(T(taxBase) - BASISAFTREK/12, 0)] and records it (rounded to cents by
    the ledger) as its one TAX line item, where
    [premiumIncome = max(gross - VASTE_AFTREK/12, 0)],
    [taxBase = premiumIncome - finalPrimaryPremium] and [T] is the table
    lookup on [taxBase], or the progressive brackets on [taxBase] when the
    table is not available; and the stage returns whenever this value exists
    and can be rounded. *)
Theorem curacao_final_tax (file : tax_table_file) (employee : EmployeeInput.t)
    (gross : Decimal) (s : CalcState) :
  EmployeeInput.tax_exempt employee = false ->
  EmployeeInput.tax_percentage employee = None ->
  (forall tax s',
     Curacao.calculate_tax file employee gross s = Some (tax, s') ->
     final_tax file gross = Some tax /\
     exists item,
       line_items s' = (line_items s ++ [item])%list /\
       PayrollLineItem.code item = "TAX" /\
       PayrollLineItem.category item = DEDUCTION /\
       round_currency tax = Some (PayrollLineItem.amount item) /\
       PayrollLineItem.base_amount item = Some (taxBase gross)) /\
  (forall tax a,
     final_tax file gross = Some tax -> round_currency tax = Some a ->
     exists s', Curacao.calculate_tax file employee gross s = Some (tax, s')).
Proof.
  intros Hex Hpct. rewrite (calculate_tax_standard file employee gross s Hex Hpct).
  unfold final_tax. split.
  - intros tax s' H.
    destruct (gross_tax file (taxBase gross)) as [t|]; [|discriminate].
    destruct (floored_tax t) as [final|]; [|discriminate].
    destruct (round_currency _) as [a|] eqn:Ea; [|discriminate].
    inversion H; subst. split; [reflexivity|].
    eexists. cbn [line_items PayrollLineItem.code PayrollLineItem.category
                  PayrollLineItem.amount PayrollLineItem.base_amount].
    repeat split; try reflexivity. exact Ea.
  - intros tax a H Ha.
    destruct (gross_tax file (taxBase gross)) as [t|]; [|discriminate].
    rewrite H, Ha. eexists. reflexivity.
Qed.

Lemma curacao_final_tax_witness :
  exists tax s',
    Curacao.calculate_tax None (sample_employee (mkDecimal 400000 (-2)))
      (mkDecimal 400000 (-2)) (mkState [] [] []) = Some (tax, s') /\
    final_tax None (mkDecimal 400000 (-2)) = Some tax.
Proof.
  eexists. eexists. split.
  - vm_compute. reflexivity.
  - apply (proj1 (curacao_final_tax None (sample_employee (mkDecimal 400000 (-2)))
                    (mkDecimal 400000 (-2)) (mkState [] [] []) eq_refl eq_refl)
             _ (mkState
                  [PayrollLineItem.mk "TAX" "Wage Tax (Loonbelasting)" DEDUCTION
                     (mkDecimal 26986 (-2)) None
                     (Some (mkDecimal 3701041666666666666666666666 (-24)))
                     (Some "Progressive brackets (fallback) | Gross tax: NAf 512.78 - Basisaftrek: NAf 242.92")]
                  [] [])).
    vm_compute. reflexivity.
Defined.





Lemma bvz_entry_facts pi :
  PayrollLineItem.code (bvz_entry pi) = "BVZ" /\
  PayrollLineItem.category (bvz_entry pi) = DEDUCTION /\
  PayrollLineItem.amount (bvz_entry pi) = bvz_premium pi /\
  (Dec.ltb (Dec.mul pi (Dec.of_Z 12)) (mkDecimal 12000 0) = true ->
   PayrollLineItem.notes (bvz_entry pi) = Some "Exempt: income below NAf 12000.00/year").
Proof.
  unfold bvz_entry. change Curacao.BVZ_VRIJSTELLING_ANNUAL with (mkDecimal 12000 0).
  destruct (Dec.ltb (Dec.mul pi (Dec.of_Z 12)) (mkDecimal 12000 0)) eqn:Hb;
    cbn [PayrollLineItem.code PayrollLineItem.category PayrollLineItem.amount
         PayrollLineItem.notes]; repeat split; try discriminate.
  symmetry. apply bvz_exempt_premium. exact Hb.
Qed.



Local Transparent Dec.div Dec.mul Dec.add Dec.sub Dec.max Dec.min Dec.neg Dec.quantize_cents
  DecFmt.format_f DecFmt.str Dec.ltb Dec.leb.

End CuracaoStatutory.

(* ================================================================== *)
(** ** Curaçao: the tax table and the fallback to the brackets *)
(* ================================================================== *)

Section TaxTable.
Import DecSem DecFacts Spec.

Lemma last_cons {A : Type} (a d : A) (l : list A) : last (a :: l) d = last l a.
Proof.
  revert a d. induction l as [|b l IH]; intros a d; [reflexivity|].
  change (last (a :: b :: l) d) with (last (b :: l) d). rewrite !IH. reflexivity.
Qed.

(** On a table whose rows all hold three finite numbers the loop returns the
    tax of the first row that contains the base, and otherwise the tax of the
    row read last. *)
Lemma table_rows_loop_well_formed base rows : forall previous,
  Curacao.table_rows_loop base (map cells_of_row rows) previous =
    match find (in_range base) rows with
    | Some r => Some (Finite (row_tax r))
    | None =>
        match rows with
        | [] => previous
        | r :: rest => Some (Finite (row_tax (last rest r)))
        end
    end.
Proof.
  induction rows as [|[[lo hi] tax] rest IH]; intros previous; [reflexivity|].
  cbn [map cells_of_row Curacao.table_rows_loop find fst snd table_leb table_gtb].
  unfold in_range at 1. cbn [fst snd].
  destruct (Dec.leb lo base); cbn [andb];
    [destruct (Dec.ltb base hi); [reflexivity|]|];
    (rewrite IH; destruct (find (in_range base) rest); [reflexivity|];
     destruct rest as [|r rest']; [reflexivity|]; rewrite last_cons; reflexivity).
Qed.



(** *** The fallback never fails *)

(** The brackets end somewhere: past the end of the table the tax no longer
    grows, so the tax of any base is at most the tax at the end. *)
Lemma progressive_loop_capped cap base brackets : forall t1 t2 p1 p2,
  valid_brackets brackets = true -> capped_brackets cap brackets = true ->
  (value t1 <= value t2)%R -> Z.abs (Dec.coeff t2) < 10 ^ Dec.prec ->
  (value (fst (progressive_loop base brackets t1 p1))
   <= value (fst (progressive_loop cap brackets t2 p2)))%R.
Proof.
  induction brackets as [|[[lower upper] rate] rest IH]; intros t1 t2 p1 p2 Hv Hc Ht Hb.
  - cbn. assumption.
  - pose proof Hv as Hv'.
    cbn [valid_brackets forallb] in Hv. apply andb_true_iff in Hv as [Hv Hrest].
    cbn [capped_brackets forallb] in Hc. apply andb_true_iff in Hc as [Hc Hcrest].
    unfold lower_bound, upper_bound in Hc. cbn [fst snd] in Hc.
    apply andb_true_iff in Hc as [Hlo Hhi]. apply ltb_value in Hlo. apply leb_value in Hhi.
    rewrite (progressive_loop_unfold base).
    destruct (applies base (lower, upper, rate)) eqn:E1.
    + assert (E2 : applies cap (lower, upper, rate) = true) by (apply ltb_value; exact Hlo).
      rewrite (progressive_loop_unfold cap), E2.
      apply IH; [assumption | assumption | | apply add_bounded].
      apply add_mono; [assumption|].
      apply valid_bracket_value in Hv as (_ & _ & Hr).
      unfold bracket_share, bracket_amount, lower_bound, upper_bound, bracket_rate.
      cbn [fst snd]. rewrite !(mul_comm rate).
      apply mul_mono_nonneg_r; [assumption|]. apply sub_mono; [|lra].
      rewrite !value_min. rewrite (Rmin_right (value cap)) by assumption. apply Rmin_r.
    + cbn [fst]. eapply Rle_trans; [exact Ht|].
      apply progressive_loop_ge; assumption.
Qed.


Local Opaque Dec.div Dec.mul Dec.add Dec.sub Dec.max Dec.min Dec.neg Dec.quantize_cents
  DecFmt.format_f DecFmt.str Dec.ltb Dec.leb.



Local Transparent Dec.div Dec.mul Dec.add Dec.sub Dec.max Dec.min Dec.neg Dec.quantize_cents
  DecFmt.format_f DecFmt.str Dec.ltb Dec.leb.


(** An infinite upper bound makes a row open-ended, and a tax of the table
    that is [Infinity] makes the calculation raise. *)
Example lookup_open_ended_row :
  Curacao.lookup_tax_from_table
    (Some [sample_header;
           [CellDecimal (mkDecimal 1000 0); CellValue (Infinite false);
            CellDecimal (mkDecimal 80 0)]]) (mkDecimal 1500 0)
  = Some (Finite (mkDecimal 80 0)) /\
  Curacao.calculate_tax
    (Some [sample_header;
           [CellDecimal (mkDecimal 0 0); CellValue (Infinite false);
            CellValue (Infinite false)]])
    (sample_employee (mkDecimal 400000 (-2))) (mkDecimal 400000 (-2)) (mkState [] [] [])
  = None.
Proof. split; vm_compute; reflexivity. Qed.

End TaxTable.

(* ================================================================== *)
(** ** The orchestrator and the ledger *)
(* ================================================================== *)

Section Orchestrator.
Import DecSem DecFacts Spec.

(** *** Dicts *)

Lemma dict_get_set {V : Type} (c k : string) (v : V) (d : dict V) :
  dict_get c (dict_set k v d) = if String.eqb c k then Some v else dict_get c d.
Proof.
  induction d as [|[k' v'] d IH]; cbn [dict_set dict_get].
  - reflexivity.
  - destruct (String.eqb_spec k k') as [->|Hne]; cbn [dict_get].
    + destruct (String.eqb c k'); reflexivity.
    + rewrite IH. destruct (String.eqb_spec c k') as [->|]; [|reflexivity].
      destruct (String.eqb_spec k' k) as [->|]; [contradiction | reflexivity].
Qed.

Lemma group_by_code_get (keep : PayrollLineItem.t -> bool) c items : forall d : dict Decimal,
  dict_get c
    (fold_left (fun (acc : dict Decimal) item =>
                  if keep item
                  then dict_set (PayrollLineItem.code item) (PayrollLineItem.amount item) acc
                  else acc) items d)
  = match last_amount keep c items with
    | Some a => Some a
    | None => dict_get c d
    end.
Proof.
  unfold last_amount.
  induction items as [|item items IH] using rev_ind; intros d; [reflexivity|].
  rewrite !fold_left_app. cbn [fold_left].
  destruct (keep item); cbn [andb].
  - rewrite dict_get_set. destruct (String.eqb c (PayrollLineItem.code item)); [reflexivity|].
    apply IH.
  - apply IH.
Qed.

(** The groupings of a result, key by key. *)
Lemma group_by_code_last keep c items :
  dict_get c (group_by_code keep items) = last_amount keep c items.
Proof.
  unfold group_by_code. rewrite group_by_code_get.
  destruct (last_amount keep c items); reflexivity.
Qed.


Local Opaque Dec.div Dec.mul Dec.add Dec.sub Dec.max Dec.min Dec.neg Dec.quantize_cents
  DecFmt.format_f DecFmt.str Dec.ltb Dec.leb Dec.eqb.

(** *** Every stage only appends rounded items *)

Lemma appends_ret {A : Type} (a : A) : appends_rounded (ret a).
Proof.
  intros s x s' H. inversion H; subst. exists []. rewrite app_nil_r. auto.
Qed.

Lemma appends_bind {A B : Type} (m : M A) (k : A -> M B) :
  appends_rounded m -> (forall a, appends_rounded (k a)) -> appends_rounded (bind m k).
Proof.
  intros Hm Hk s b s' H. unfold bind in H.
  destruct (m s) as [[a s1]|] eqn:E; [|discriminate].
  destruct (Hm _ _ _ E) as (i1 & H1 & F1 & N1).
  destruct (Hk a _ _ _ H) as (i2 & H2 & F2 & N2).
  exists (i1 ++ i2)%list. rewrite H2, H1, app_assoc. repeat split.
  - apply Forall_app; auto.
  - congruence.
Qed.

Lemma appends_add_line_item code name category amount rate base_amount notes_ :
  appends_rounded (add_line_item code name category amount rate base_amount notes_).
Proof.
  intros s x s' H. unfold add_line_item in H.
  destruct (round_currency amount) as [a|] eqn:E; [|discriminate]. inversion H; subst.
  eexists. cbn [line_items notes]. repeat split.
  constructor; [|constructor]. unfold is_rounded. cbn [PayrollLineItem.amount].
  eapply quantize_cents_idem. exact E.
Qed.

Lemma appends_append_warning w : appends_rounded (append_warning w).
Proof.
  intros s x s' H. inversion H; subst. exists []. cbn. rewrite app_nil_r. auto.
Qed.

Lemma appends_lift_option {A : Type} (o : option A) : appends_rounded (lift_option o).
Proof.
  intros s x s' H. unfold lift_option in H. destruct o; [|discriminate].
  inversion H; subst. exists []. rewrite app_nil_r. auto.
Qed.

Lemma appends_raise {A : Type} : appends_rounded (@raise A).
Proof. intros s x s' H. discriminate. Qed.

Lemma appends_allowances_loop als : forall gross, appends_rounded (allowances_loop als gross).
Proof.
  induction als as [|[code amount] als IH]; intros gross; cbn [allowances_loop].
  - apply appends_ret.
  - apply appends_bind; [apply appends_add_line_item | intros _; apply IH].
Qed.

Lemma appends_other_deductions_loop ds :
  forall total, appends_rounded (other_deductions_loop ds total).
Proof.
  induction ds as [|[code amount] ds IH]; intros total; cbn [other_deductions_loop].
  - apply appends_ret.
  - apply appends_bind; [apply appends_add_line_item | intros _; apply IH].
Qed.

Ltac appends_step :=
  first
    [ apply appends_ret
    | apply appends_add_line_item
    | apply appends_append_warning
    | apply appends_lift_option
    | apply appends_raise
    | apply appends_allowances_loop
    | apply appends_other_deductions_loop
    | apply appends_bind; [|intros ?]
    | match goal with
      | |- appends_rounded (if ?c then _ else _) => destruct c
      | |- appends_rounded (match ?o with Some _ => _ | None => _ end) => destruct o
      | |- appends_rounded (let '(_, _) := ?p in _) => destruct p
      | |- appends_rounded (match ?v with Finite _ => _ | _ => _ end) => destruct v
      end ].

Lemma appends_calculate_gross file j employee :
  appends_rounded (calculate_gross (CALCULATORS file j) employee).
Proof.
  destruct j; cbn [CALCULATORS calculate_gross Curacao.calculator StMaarten.calculator
                   Aruba.calculator Bonaire.calculator];
    unfold Curacao.calculate_gross, StMaarten.calculate_gross, Aruba.calculate_gross,
      Bonaire.calculate_gross, simple_calculate_gross; repeat appends_step.
Qed.

Lemma appends_calculate_tax file j employee gross :
  appends_rounded (calculate_tax (CALCULATORS file j) employee gross).
Proof.
  destruct j; cbn [CALCULATORS calculate_tax Curacao.calculator StMaarten.calculator
                   Aruba.calculator Bonaire.calculator];
    unfold Curacao.calculate_tax, StMaarten.calculate_tax, Aruba.calculate_tax,
      Bonaire.calculate_tax, bracket_calculate_tax; repeat appends_step.
Qed.

Lemma round_items_rounded entries items :
  round_items entries = Some items -> Forall is_rounded items.
Proof.
  intros H. apply round_items_spec in H.
  induction H as [|e item es items' (a & Ha & ->) _ IH]; constructor; [|exact IH].
  unfold is_rounded. cbn [with_amount PayrollLineItem.amount].
  eapply quantize_cents_idem. exact Ha.
Qed.

Lemma appends_calculate_social_security file j employee gross :
  appends_rounded (calculate_social_security (CALCULATORS file j) employee gross).
Proof.
  destruct j; cbn [CALCULATORS calculate_social_security Curacao.calculator
                   StMaarten.calculator Aruba.calculator Bonaire.calculator].
  - intros s a s' H. rewrite calculate_social_security_eq in H.
    destruct (round_items _) as [items|] eqn:E; [|discriminate]. inversion H; subst.
    exists items. cbn [line_items notes]. repeat split.
    eapply round_items_rounded. exact E.
  - unfold StMaarten.calculate_social_security. repeat appends_step.
  - unfold Aruba.calculate_social_security. apply appends_ret.
  - unfold Bonaire.calculate_social_security. apply appends_ret.
Qed.

Lemma appends_calculate_other_deductions employee :
  appends_rounded (calculate_other_deductions employee).
Proof. unfold calculate_other_deductions. apply appends_other_deductions_loop. Qed.

(** *** What [calculate] returns *)

Lemma run_stages_inv calc employee s0 gross tax ss other s :
  run_stages calc employee s0 = Some ((gross, tax, ss, other), s) ->
  exists s1 s2 s3,
    calculate_gross calc employee s0 = Some (gross, s1) /\
    calculate_tax calc employee gross s1 = Some (tax, s2) /\
    calculate_social_security calc employee gross s2 = Some (ss, s3) /\
    calculate_other_deductions employee s3 = Some (other, s).
Proof.
  unfold run_stages, bind, ret. intros H.
  destruct (calculate_gross calc employee s0) as [[g s1]|]; [|discriminate].
  destruct (calculate_tax calc employee g s1) as [[t s2]|] eqn:Et; [|discriminate].
  destruct (calculate_social_security calc employee g s2) as [[c s3]|] eqn:Es; [|discriminate].
  destruct (calculate_other_deductions employee s3) as [[o s4]|] eqn:Eo; [|discriminate].
  inversion H; subst. exists s1, s2, s3. auto.
Qed.

Lemma add_paid_allowances_is_fold als : forall net,
  add_paid_allowances als net
  = fold_left Dec.add (dict_values (filter (fun kv => negb (non_cash (fst kv))) als)) net.
Proof.
  induction als as [|[code amount] als IH]; intros net; [reflexivity|].
  cbn [add_paid_allowances filter fst]. unfold non_cash at 1.
  destruct (negb (in_strings (Str.lower code) NON_CASH_LABELS)); cbn [dict_values map snd fold_left];
    apply IH.
Qed.

Lemma calculate_inv calc employee r :
  calculate calc employee = Some r ->
  exists gross tax ss other s,
    run_stages calc employee (mkState [] [] []) = Some ((gross, tax, ss, other), s) /\
    round_currency gross = Some (PayrollCalculationResult.gross_total r) /\
    round_currency (deductions_sum tax ss other)
      = Some (PayrollCalculationResult.deductions_total r) /\
    round_currency (Dec.sub (payableGross employee) (deductions_sum tax ss other))
      = Some (PayrollCalculationResult.net_salary r) /\
    PayrollCalculationResult.line_items r = line_items s /\
    PayrollCalculationResult.earnings r = group_by_code is_earning (line_items s) /\
    PayrollCalculationResult.statutory_deductions r
      = group_by_code is_statutory (line_items s) /\
    PayrollCalculationResult.other_deductions r = group_by_code is_other (line_items s) /\
    PayrollCalculationResult.warnings r = warnings s.
Proof.
  unfold calculate. intros H.
  destruct (run_stages calc employee (mkState [] [] [])) as [[[[[g t] c] o] s]|];
    [|discriminate].
  cbv zeta in H. rewrite add_paid_allowances_is_fold in H.
  fold (payableGross employee) in H. fold (deductions_sum t c o) in H.
  destruct (round_currency g) as [rg|] eqn:Eg; [|discriminate].
  destruct (round_currency (deductions_sum t c o)) as [rd|] eqn:Ed; [|discriminate].
  destruct (round_currency (Dec.sub (payableGross employee) (deductions_sum t c o)))
    as [rn|] eqn:En; [|discriminate].
  inversion H; subst.
  cbn [PayrollCalculationResult.gross_total PayrollCalculationResult.deductions_total
       PayrollCalculationResult.net_salary PayrollCalculationResult.line_items
       PayrollCalculationResult.earnings PayrollCalculationResult.statutory_deductions
       PayrollCalculationResult.other_deductions PayrollCalculationResult.warnings].
  exists g, t, c, o, s.
  split; [reflexivity|]. split; [exact Eg|]. split; [exact Ed|]. split; [exact En|].
  repeat (split; [reflexivity|]). reflexivity.
Qed.

(** The ledger of a result, stage by stage. *)
Lemma calculate_ledger file j employee r :
  calculate (CALCULATORS file j) employee = Some r ->
  Forall is_rounded (PayrollCalculationResult.line_items r).
Proof.
  intros H. apply calculate_inv in H as (g & t & c & o & s & Hrun & _ & _ & _ & Hl & _).
  apply run_stages_inv in Hrun as (s1 & s2 & s3 & H1 & H2 & H3 & H4).
  destruct (appends_calculate_gross _ _ _ _ _ _ H1) as (i1 & E1 & F1 & _).
  destruct (appends_calculate_tax _ _ _ _ _ _ _ H2) as (i2 & E2 & F2 & _).
  destruct (appends_calculate_social_security _ _ _ _ _ _ _ H3) as (i3 & E3 & F3 & _).
  destruct (appends_calculate_other_deductions _ _ _ _ H4) as (i4 & E4 & F4 & _).
  rewrite Hl, E4, E3, E2, E1. cbn [line_items app].
  rewrite !Forall_app. auto.
Qed.

Local Transparent Dec.div Dec.mul Dec.add Dec.sub Dec.max Dec.min Dec.neg Dec.quantize_cents
  DecFmt.format_f DecFmt.str Dec.ltb Dec.leb Dec.eqb.

End Orchestrator.

(* ================================================================== *)
(** ** The groupings of a result *)
(* ================================================================== *)

Section Groupings.
Import DecSem DecFacts Spec.

Local Opaque Dec.div Dec.mul Dec.add Dec.sub Dec.max Dec.min Dec.neg Dec.quantize_cents
  DecFmt.format_f DecFmt.str Dec.ltb Dec.leb Dec.eqb.










Local Transparent Dec.div Dec.mul Dec.add Dec.sub Dec.max Dec.min Dec.neg Dec.quantize_cents
  DecFmt.format_f DecFmt.str Dec.ltb Dec.leb Dec.eqb.

End Groupings.

(* ================================================================== *)
(** ** Reconciliation of the totals *)
(* ================================================================== *)

Section Totals.
Import DecSem DecFacts Spec.

(** The context rounding never lowers the exponent. *)
Lemma fix_ctx_expo d : Dec.expo d <= Dec.expo (Dec.fix_ctx d).
Proof. destruct d as [c e]. pose proof (fix_ctx_spec c e) as (H & _). cbn [Dec.expo]. lia. Qed.

Lemma add_expo a b : Z.min (Dec.expo a) (Dec.expo b) <= Dec.expo (Dec.add a b).
Proof. rewrite add_unfold. etransitivity; [|apply fix_ctx_expo]. reflexivity. Qed.

Lemma sub_expo a b : Z.min (Dec.expo a) (Dec.expo b) <= Dec.expo (Dec.sub a b).
Proof. unfold Dec.sub. apply (add_expo a (Dec.copy_negate b)). Qed.

(** Subtraction depends on the numbers only. *)
Lemma sub_value_eq a b b' : value b = value b' -> value (Dec.sub a b) = value (Dec.sub a b').
Proof.
  intros H. unfold Dec.sub. rewrite !add_unfold. apply fix_ctx_value_eq.
  rewrite !value_add_exact, !value_copy_negate, H. reflexivity.
Qed.

Local Opaque Dec.div Dec.mul Dec.add Dec.sub Dec.max Dec.min Dec.neg Dec.quantize_cents
  DecFmt.format_f DecFmt.str Dec.ltb Dec.leb Dec.eqb.

(** *** The gross of every calculator holds every allowance *)

Lemma allowances_loop_value als : forall gross s v s',
  allowances_loop als gross s = Some (v, s') ->
  v = fold_left Dec.add (dict_values als) gross.
Proof.
  induction als as [|[code amount] als IH]; intros gross s v s' H; cbn [allowances_loop] in H.
  - inversion H. reflexivity.
  - unfold bind in H. destruct (add_line_item _ _ _ _ _ _ _ s) as [[u s1]|]; [|discriminate].
    apply IH in H. exact H.
Qed.

Lemma calculate_gross_value file j employee s v s' :
  calculate_gross (CALCULATORS file j) employee s = Some (v, s') ->
  v = fold_left Dec.add (dict_values (EmployeeInput.allowances employee))
        (gross_before_allowances j employee).
Proof.
  destruct j; cbn [CALCULATORS calculate_gross Curacao.calculator StMaarten.calculator
                   Aruba.calculator Bonaire.calculator gross_before_allowances];
    unfold Curacao.calculate_gross, StMaarten.calculate_gross, Aruba.calculate_gross,
      Bonaire.calculate_gross, simple_calculate_gross, bind, ret; intros H.
  - destruct (add_line_item _ _ _ _ _ _ _ s) as [[u s1]|]; [|discriminate].
    destruct (Dec.ltb (Dec.of_Z 0) (EmployeeInput.overtime_hours employee)).
    + destruct (add_line_item _ _ _ _ _ _ _ s1) as [[u2 s2]|]; [|discriminate].
      apply allowances_loop_value in H. rewrite H.
      destruct (EmployeeInput.hourly_rate employee) as [hr|]; [|reflexivity].
      destruct (Dec.eqb hr (Dec.of_Z 0)); reflexivity.
    + apply allowances_loop_value in H. exact H.
  - destruct (add_line_item _ _ _ _ _ _ _ s) as [[u s1]|]; [|discriminate].
    apply allowances_loop_value in H. exact H.
  - destruct (add_line_item _ _ _ _ _ _ _ s) as [[u s1]|]; [|discriminate].
    apply allowances_loop_value in H. exact H.
  - destruct (add_line_item _ _ _ _ _ _ _ s) as [[u s1]|]; [|discriminate].
    apply allowances_loop_value in H. exact H.
Qed.

(** C1, as stated, fails.  For a St. Maarten salary of 3001.00 the net
    salary is 2430.69 while the salary minus [deductions_total] is 2430.68;
    for a Curaçao salary of 4005.27 [deductions_total] is 758.52 while the
    recorded DEDUCTION line items add up to 758.50. *)
Lemma totals_do_not_reconcile :
  (exists r,
     calculate (CALCULATORS None st_maarten) st_maarten_3001 = Some r /\
     PayrollCalculationResult.net_salary r = mkDecimal 243069 (-2) /\
     Dec.sub (payableGross st_maarten_3001) (PayrollCalculationResult.deductions_total r)
       = mkDecimal 243068 (-2)) /\
  (exists r,
     calculate (CALCULATORS None curacao) (sample_employee (mkDecimal 400527 (-2))) = Some r /\
     PayrollCalculationResult.deductions_total r = mkDecimal 75852 (-2) /\
     sum_deduction_items (PayrollCalculationResult.line_items r) = mkDecimal 75850 (-2)).
Proof.
  split; eexists; (split; [vm_compute; reflexivity|]); split; vm_compute; reflexivity.
Qed.

(** C1, amended.  For every employee and every jurisdiction calculator the
    result has [net_salary = round_currency(payableGross - D)] and
    [deductions_total = round_currency(D)], where [D] is the tax plus the
    social contributions plus the other deductions as the stages return
    them, and [payableGross] is the base salary plus every allowance that is
    not non-cash; [gross_total] is the rounded gross, which holds every
    allowance.  When [D] and [payableGross] have at most two decimals,
    [net_salary] equals [payableGross - deductions_total]. *)
Theorem net_and_deductions_totals (file : tax_table_file) (j : Jurisdiction)
    (employee : EmployeeInput.t) (r : PayrollCalculationResult.t) :
  calculate (CALCULATORS file j) employee = Some r ->
  exists gross tax social_security other s,
    run_stages (CALCULATORS file j) employee (mkState [] [] [])
      = Some ((gross, tax, social_security, other), s) /\
    let D := deductions_sum tax social_security other in
    round_currency (Dec.sub (payableGross employee) D)
      = Some (PayrollCalculationResult.net_salary r) /\
    round_currency D = Some (PayrollCalculationResult.deductions_total r) /\
    round_currency gross = Some (PayrollCalculationResult.gross_total r) /\
    gross = fold_left Dec.add (dict_values (EmployeeInput.allowances employee))
              (gross_before_allowances j employee) /\
    (-2 <= Dec.expo D -> -2 <= Dec.expo (payableGross employee) ->
     Dec.eqb (PayrollCalculationResult.net_salary r)
             (Dec.sub (payableGross employee) (PayrollCalculationResult.deductions_total r))
     = true).
Proof.
  intros H. apply calculate_inv in H as (g & t & c & o & s & Hrun & Hg & Hd & Hn & _).
  exists g, t, c, o, s. split; [exact Hrun|]. cbv zeta.
  split; [exact Hn|]. split; [exact Hd|]. split; [exact Hg|]. split.
  - apply run_stages_inv in Hrun as (s1 & _ & _ & H1 & _).
    eapply calculate_gross_value. exact H1.
  - intros HD HP. apply eqb_value.
    rewrite (quantize_cents_exact _ _ Hn).
    + apply sub_value_eq. symmetry. apply (quantize_cents_exact _ _ Hd). exact HD.
    + pose proof (sub_expo (payableGross employee) (deductions_sum t c o)). lia.
Qed.

Local Transparent Dec.div Dec.mul Dec.add Dec.sub Dec.max Dec.min Dec.neg Dec.quantize_cents
  DecFmt.format_f DecFmt.str Dec.ltb Dec.leb Dec.eqb.

Lemma net_and_deductions_totals_witness :
  exists r,
    calculate (CALCULATORS None aruba) employee_with_phone = Some r /\
    PayrollCalculationResult.gross_total r = mkDecimal 475000 (-2) /\
    payableGross employee_with_phone = mkDecimal 470000 (-2) /\
    Dec.eqb (PayrollCalculationResult.net_salary r)
            (Dec.sub (payableGross employee_with_phone)
                     (PayrollCalculationResult.deductions_total r)) = true.
Proof.
  destruct (calculate (CALCULATORS None aruba) employee_with_phone) as [r|] eqn:E;
    [|vm_compute in E; discriminate].
  exists r. split; [reflexivity|].
  destruct (net_and_deductions_totals None aruba employee_with_phone r E)
    as (g & t & c & o & s & Hrun & _ & _ & _ & _ & Hexact).
  split; [|split; [vm_compute; reflexivity|]].
  - vm_compute in E. inversion E. reflexivity.
  - apply Hexact.
    + vm_compute in Hrun. inversion Hrun. vm_compute. discriminate.
    + vm_compute. discriminate.
Defined.

End Totals.

(* ================================================================== *)
(** ** Rounding in the ledger *)
(* ================================================================== *)

Section LedgerRounding.
Import DecSem DecFacts Spec.

(** C8, as stated, fails.  For a Curaçao salary of 4005.27 the recorded
    DEDUCTION line items (270.99, 257.63, 0.00, 170.43 and 59.45) add up to
    758.50, while [deductions_total], the rounding of the sum of the
    unrounded amounts, is 758.52: the total is not the sum of the rounded
    items, and the two differ by two cents. *)
Lemma rounded_items_miss_total_by_two_cents :
  exists r,
    calculate (CALCULATORS None curacao) (sample_employee (mkDecimal 400527 (-2))) = Some r /\
    map PayrollLineItem.amount
        (filter (fun item => Category_eqb (PayrollLineItem.category item) DEDUCTION)
                (PayrollCalculationResult.line_items r))
    = [mkDecimal 27099 (-2); mkDecimal 25763 (-2); mkDecimal 0 (-2);
       mkDecimal 17043 (-2); mkDecimal 5945 (-2)] /\
    sum_deduction_items (PayrollCalculationResult.line_items r) = mkDecimal 75850 (-2) /\
    PayrollCalculationResult.deductions_total r = mkDecimal 75852 (-2).
Proof.
  eexists. split; [vm_compute; reflexivity|]. repeat split; vm_compute; reflexivity.
Qed.

Local Opaque Dec.div Dec.mul Dec.add Dec.sub Dec.max Dec.min Dec.neg Dec.quantize_cents
  DecFmt.format_f DecFmt.str Dec.ltb Dec.leb Dec.eqb.

(** C8, amended.  The amount of a line item is rounded to two decimals,
    half up, when the item is recorded: the recorded amount has exponent -2,
    lies within half a cent of the amount handed in, takes half a cent away
    from zero, and is left as it is by a second rounding.  Every line item of
    a result is rounded in this way.  The totals [gross_total],
    [deductions_total] and [net_salary] are each one rounding of a sum of the
    amounts the stages return, not sums of the rounded line items. *)
Theorem ledger_rounds_once :
  (forall code name category amount rate base_amount notes_ s s',
     add_line_item code name category amount rate base_amount notes_ s = Some (tt, s') ->
     exists a,
       line_items s' =
         (line_items s ++
            [PayrollLineItem.mk code name category a rate base_amount notes_])%list /\
       round_currency amount = Some a /\
       Dec.expo a = -2 /\
       (Rabs (value a - value amount) <= 1 / 200)%R /\
       (forall n, value amount = ((IZR n + 1 / 2) / 100)%R ->
                  Dec.coeff a = if 0 <=? n then n + 1 else n) /\
       round_currency a = Some a) /\
  (forall file j employee r,
     calculate (CALCULATORS file j) employee = Some r ->
     Forall is_rounded (PayrollCalculationResult.line_items r) /\
     exists gross tax social_security other s,
       run_stages (CALCULATORS file j) employee (mkState [] [] [])
         = Some ((gross, tax, social_security, other), s) /\
       round_currency gross = Some (PayrollCalculationResult.gross_total r) /\
       round_currency (deductions_sum tax social_security other)
         = Some (PayrollCalculationResult.deductions_total r) /\
       round_currency (Dec.sub (payableGross employee)
                               (deductions_sum tax social_security other))
         = Some (PayrollCalculationResult.net_salary r)).
Proof.
  split.
  - intros code name category amount rate base_amount notes_ s s' H.
    unfold add_line_item in H.
    destruct (round_currency amount) as [a|] eqn:E; [|discriminate].
    inversion H; subst. exists a. cbn [line_items].
    destruct (quantize_cents_some _ _ E) as (_ & He & Hc & _).
    split; [reflexivity|]. split; [reflexivity|]. split; [exact He|].
    split; [exact (quantize_cents_error _ _ E)|]. split.
    + intros n Hn. rewrite Hc. apply cents_tie. exact Hn.
    + exact (quantize_cents_idem _ _ E).
  - intros file j employee r H. split; [eapply calculate_ledger; exact H|].
    apply calculate_inv in H as (g & t & c & o & s & Hrun & Hg & Hd & Hn & _).
    exists g, t, c, o, s. auto.
Qed.

Local Transparent Dec.div Dec.mul Dec.add Dec.sub Dec.max Dec.min Dec.neg Dec.quantize_cents
  DecFmt.format_f DecFmt.str Dec.ltb Dec.leb Dec.eqb.

Lemma ledger_rounds_once_witness :
  exists a,
    add_line_item "DED_LOAN" "Loan" DEDUCTION (mkDecimal 2675 (-3)) None None None
      (mkState [] [] [])
    = Some (tt, mkState [PayrollLineItem.mk "DED_LOAN" "Loan" DEDUCTION a None None None] [] [])
    /\ a = mkDecimal 268 (-2).
Proof.
  destruct ledger_rounds_once as [Hadd _].
  destruct (Hadd "DED_LOAN" "Loan" DEDUCTION (mkDecimal 2675 (-3)) None None None
                 (mkState [] [] [])
                 (mkState [PayrollLineItem.mk "DED_LOAN" "Loan" DEDUCTION (mkDecimal 268 (-2))
                             None None None] [] []) eq_refl)
    as (a & _ & Ha & _).
  exists a. vm_compute in Ha. inversion Ha. split; reflexivity.
Defined.

End LedgerRounding.

(* ================================================================== *)
(** ** The three paths of the tax stage *)
(* ================================================================== *)

Section TaxPaths.
Import DecSem DecFacts Spec.

(** C6 at the failing input: the Aruba calculator taxes an employee who is
    flagged tax-exempt like any other; it records a TAX line item of 120.00
    with the bracket note and returns 120.00. *)
Theorem aruba_taxes_exempt_employee :
  EmployeeInput.tax_exempt aruba_exempt = true /\
  calculate_tax (CALCULATORS None aruba) aruba_exempt (mkDecimal 1000 0) (mkState [] [] [])
  = Some (mkDecimal 12000 (-2),
          mkState [PayrollLineItem.mk "TAX" "Income Tax" DEDUCTION (mkDecimal 12000 (-2))
                     None (Some (mkDecimal 1000 0)) (Some "12.00% on 1000")]
                  [] []).
Proof. split; vm_compute; reflexivity. Qed.

Local Opaque Dec.div Dec.mul Dec.add Dec.sub Dec.max Dec.min Dec.neg Dec.quantize_cents
  DecFmt.format_f DecFmt.str Dec.ltb Dec.leb Dec.eqb.

(** The Curaçao calculator does check the three paths in order. *)
Lemma curacao_tax_paths file employee gross s tax s' :
  Curacao.calculate_tax file employee gross s = Some (tax, s') ->
  exists item,
    line_items s' = (line_items s ++ [item])%list /\
    PayrollLineItem.code item = "TAX" /\
    PayrollLineItem.category item = DEDUCTION /\
    round_currency tax = Some (PayrollLineItem.amount item) /\
    match EmployeeInput.tax_exempt employee, EmployeeInput.tax_percentage employee with
    | true, _ =>
        tax = Dec.of_Z 0 /\ PayrollLineItem.amount item = mkDecimal 0 (-2) /\
        exists note, PayrollLineItem.notes item = Some note /\
                     Str.contains "exempt" (Str.lower note) = true
    | false, Some pct =>
        tax = Dec.mul gross (Dec.div pct (Dec.of_Z 100)) /\
        exists note, PayrollLineItem.notes item = Some note /\
                     Str.contains "Custom rate" note = true
    | false, None => final_tax file gross = Some tax
    end.
Proof.
  intros H. destruct (EmployeeInput.tax_exempt employee) eqn:Hex.
  - rewrite calculate_tax_exempt in H by assumption. inversion H; subst.
    eexists. split; [reflexivity|]. cbn [PayrollLineItem.code PayrollLineItem.category
      PayrollLineItem.amount PayrollLineItem.notes].
    repeat (split; [first [reflexivity | vm_compute; reflexivity]|]).
    eexists. split; [reflexivity | vm_compute; reflexivity].
  - destruct (EmployeeInput.tax_percentage employee) as [pct|] eqn:Hpct.
    + rewrite (calculate_tax_override _ _ _ _ pct) in H by assumption. cbv zeta in H.
      destruct (round_currency _) as [a|] eqn:Ea; [|discriminate]. inversion H; subst.
      eexists. split; [reflexivity|]. cbn [PayrollLineItem.code PayrollLineItem.category
        PayrollLineItem.amount PayrollLineItem.notes].
      split; [reflexivity|]. split; [reflexivity|]. split; [exact Ea|].
      split; [reflexivity|]. eexists. split; [reflexivity|].
      cbn [Str.contains append prefix]. reflexivity.
    + rewrite calculate_tax_standard in H by assumption. unfold final_tax.
      destruct (gross_tax file (taxBase gross)) as [t|]; [|discriminate].
      destruct (floored_tax t) as [final|]; [|discriminate].
      destruct (round_currency _) as [a|] eqn:Ea; [|discriminate]. inversion H; subst.
      eexists. split; [reflexivity|]. cbn [PayrollLineItem.code PayrollLineItem.category
        PayrollLineItem.amount].
      split; [reflexivity|]. split; [reflexivity|]. split; [exact Ea | reflexivity].
Qed.

Lemma bracket_calculate_tax_item brackets tax_name employee gross s tax s' :
  bracket_calculate_tax brackets tax_name employee gross s = Some (tax, s') ->
  exists item,
    line_items s' = (line_items s ++ [item])%list /\
    PayrollLineItem.code item = "TAX" /\ PayrollLineItem.category item = DEDUCTION.
Proof.
  unfold bracket_calculate_tax, bind, ret, lift_option, add_line_item. intros H.
  destruct (calculate_progressive_tax gross brackets) as [[t n]|]; [|discriminate].
  destruct (round_currency t); [|discriminate]. inversion H; subst.
  eexists. split; [reflexivity|]. split; reflexivity.
Qed.

(** Every call of a tax stage records exactly one TAX line item. *)
Lemma one_tax_item_per_call file j employee gross s tax s' :
  calculate_tax (CALCULATORS file j) employee gross s = Some (tax, s') ->
  exists item,
    line_items s' = (line_items s ++ [item])%list /\
    PayrollLineItem.code item = "TAX" /\ PayrollLineItem.category item = DEDUCTION.
Proof.
  destruct j; cbn [CALCULATORS calculate_tax Curacao.calculator StMaarten.calculator
                   Aruba.calculator Bonaire.calculator]; intros H.
  - destruct (curacao_tax_paths _ _ _ _ _ _ H) as (item & Hl & Hc & Hk & _).
    exists item. auto.
  - unfold StMaarten.calculate_tax in H.
    destruct (EmployeeInput.tax_exempt employee).
    + unfold bind, ret, add_line_item in H.
      destruct (round_currency (Dec.of_Z 0)); [|discriminate]. inversion H; subst.
      eexists. split; [reflexivity|]. split; reflexivity.
    + exact (bracket_calculate_tax_item _ _ employee _ _ _ _ H).
  - exact (bracket_calculate_tax_item _ _ employee _ _ _ _ H).
  - exact (bracket_calculate_tax_item _ _ employee _ _ _ _ H).
Qed.

Local Transparent Dec.div Dec.mul Dec.add Dec.sub Dec.max Dec.min Dec.neg Dec.quantize_cents
  DecFmt.format_f DecFmt.str Dec.ltb Dec.leb Dec.eqb.

(** St. Maarten honours the exemption, without a note, and ignores an
    override percentage; Bonaire, like Aruba, ignores both. *)
Example st_maarten_exempt_item :
  calculate_tax (CALCULATORS None st_maarten) aruba_exempt (mkDecimal 1000 0)
    (mkState [] [] [])
  = Some (mkDecimal 0 0,
          mkState [PayrollLineItem.mk "TAX" "Income Tax (Exempt)" DEDUCTION (mkDecimal 0 (-2))
                     None None None] [] []).
Proof. vm_compute. reflexivity. Qed.

Example bonaire_taxes_exempt_employee :
  calculate_tax (CALCULATORS None bonaire) aruba_exempt (mkDecimal 1000 0)
    (mkState [] [] [])
  = Some (mkDecimal 15000 (-2),
          mkState [PayrollLineItem.mk "TAX" "Payroll Tax" DEDUCTION (mkDecimal 15000 (-2))
                     None (Some (mkDecimal 1000 0)) (Some "15.00% on 1000")] [] []).
Proof. vm_compute. reflexivity. Qed.

End TaxPaths.

(* ================================================================== *)
(** ** Currency rounding: where it is defined, order and sign *)
(* ================================================================== *)

Section CurrencyRounding.
Import Dec DecSem DecFacts Spec.

Lemma value_ROUNDING_LIMIT : value ROUNDING_LIMIT = (IZR (10 ^ 28) / 100 - 1 / 200)%R.
Proof.
  unfold ROUNDING_LIMIT, value. cbn [coeff expo].
  change (10 ^ 29 - 5) with (10 ^ 28 * 10 - 5). rewrite minus_IZR, mult_IZR.
  change (powerRZ 10 (-3)) with (/ (10 * (10 * (10 * 1))))%R. field.
Qed.

Lemma cents_copy_negate d : cents (copy_negate d) = - cents d.
Proof.
  unfold cents, rescale, copy_negate. cbn [coeff expo].
  destruct (-2 <=? expo d); cbn [coeff].
  - ring.
  - rewrite Z.abs_opp, Z.sgn_opp. ring.
Qed.

Lemma quantize_cents_none_iff d :
  quantize_cents d = None <-> 10 ^ 28 <= Z.abs (cents d).
Proof.
  unfold quantize_cents. fold (cents d).
  destruct (Z.eqb_spec (coeff d) 0) as [Hz|Hnz].
  - split; [discriminate|]. intros H. exfalso.
    assert (E : cents d = 0).
    { unfold cents, rescale. rewrite Hz. destruct (-2 <=? expo d); reflexivity. }
    rewrite E in H. change (Z.abs 0) with 0 in H.
    pose proof (pow10_gt0 28 ltac:(lia)). lia.
  - destruct (Z.ltb_spec prec (ndigits (Z.abs (coeff d)) + expo d + 2)) as [Hbig|Hsmall].
    + split; [intros _|reflexivity].
      assert (Hv : (powerRZ 10 26 <= Rabs (value d))%R).
      { destruct (Rle_lt_dec (powerRZ 10 26) (Rabs (value d))) as [H|H]; [exact H|].
        apply (digits_of_bounded d 26 Hnz) in H. unfold prec in Hbig. lia. }
      assert (V1 : value (mkDecimal (10 ^ 28) (-2)) = powerRZ 10 26).
      { rewrite (value_cents (mkDecimal (10 ^ 28) (-2)) eq_refl). cbn [coeff].
        rewrite <- (IZR_pow10 26) by lia.
        change (10 ^ 28) with (10 ^ 26 * 100). rewrite mult_IZR. field. }
      assert (V2 : value (mkDecimal (- 10 ^ 28) (-2)) = (- powerRZ 10 26)%R).
      { rewrite (value_cents (mkDecimal (- 10 ^ 28) (-2)) eq_refl). cbn [coeff].
        rewrite <- (IZR_pow10 26) by lia.
        change (- 10 ^ 28) with (- (10 ^ 26 * 100)). rewrite opp_IZR, mult_IZR. field. }
      assert (E1 : cents (mkDecimal (10 ^ 28) (-2)) = 10 ^ 28) by (vm_compute; reflexivity).
      assert (E2 : cents (mkDecimal (- 10 ^ 28) (-2)) = - 10 ^ 28)
        by (vm_compute; reflexivity).
      unfold Rabs in Hv. destruct (Rcase_abs (value d)) as [Hneg|Hpos].
      * assert (H : (value d <= value (mkDecimal (- 10 ^ 28) (-2)))%R) by (rewrite V2; lra).
        apply cents_mono in H. rewrite E2 in H. lia.
      * assert (H : (value (mkDecimal (10 ^ 28) (-2)) <= value d)%R) by (rewrite V1; lra).
        apply cents_mono in H. rewrite E1 in H. lia.
    + destruct (Z.ltb_spec prec (ndigits (Z.abs (cents d)))) as [Hbig|Hfit].
      * split; [intros _|reflexivity].
        destruct (Z.lt_ge_cases (Z.abs (cents d)) (10 ^ 28)) as [H|H]; [|lia].
        apply (ndigits_le_iff (Z.abs (cents d)) 28) in H; unfold prec in *; lia.
      * split; [discriminate|]. intros H. exfalso.
        assert (H' : Z.abs (cents d) < 10 ^ 28).
        { apply (ndigits_le_iff (Z.abs (cents d)) 28); unfold prec in *; lia. }
        lia.
Qed.

(** X1.  [round_currency] raises exactly on the amounts whose size is at
    least 10^26 less half a cent: those are the amounts whose cents need more
    than 28 digits.  Every amount below that size is rounded. *)
Theorem round_currency_raises_iff (amount : Decimal) :
  round_currency amount = None <->
  Dec.leb ROUNDING_LIMIT amount = true \/
  Dec.leb amount (Dec.copy_negate ROUNDING_LIMIT) = true.
Proof.
  unfold round_currency. rewrite quantize_cents_none_iff, !leb_value.
  rewrite value_copy_negate, value_ROUNDING_LIMIT.
  pose proof (cents_error amount) as Herr.
  assert (EL : cents ROUNDING_LIMIT = 10 ^ 28) by (vm_compute; reflexivity).
  split.
  - intros H.
    assert (Hc : (IZR (10 ^ 28) <= IZR (Z.abs (cents amount)))%R) by (apply IZR_le; exact H).
    rewrite abs_IZR in Hc.
    unfold Rabs in Herr, Hc.
    destruct (Rcase_abs (IZR (cents amount) / 100 - value amount));
      destruct (Rcase_abs (IZR (cents amount))); [right|left|right|left]; lra.
  - intros [H|H].
    + rewrite <- value_ROUNDING_LIMIT in H. apply cents_mono in H. rewrite EL in H. lia.
    + rewrite <- value_ROUNDING_LIMIT, <- value_copy_negate in H.
      apply cents_mono in H. rewrite cents_copy_negate, EL in H. lia.
Qed.

Lemma round_currency_raises_iff_witness :
  round_currency (mkDecimal 1 26) = None /\
  round_currency (mkDecimal (10 ^ 28 - 1) (-2)) <> None.
Proof.
  split.
  - apply (proj2 (round_currency_raises_iff (mkDecimal 1 26))).
    left. vm_compute. reflexivity.
  - intros H. apply (proj1 (round_currency_raises_iff (mkDecimal (10 ^ 28 - 1) (-2)))) in H.
    destruct H as [H|H]; vm_compute in H; discriminate.
Defined.

(** X2.  [round_currency] keeps the order of amounts and commutes with
    negation: of two amounts that round, the smaller one never rounds to the
    larger result, and the rounding of [-a] is the negated rounding of [a]
    (half a cent goes away from zero on either side). *)
Theorem round_currency_monotone_odd :
  (forall a b ra rb,
     round_currency a = Some ra -> round_currency b = Some rb ->
     Dec.leb a b = true -> Dec.leb ra rb = true) /\
  (forall a,
     round_currency (Dec.copy_negate a) = option_map Dec.copy_negate (round_currency a)).
Proof.
  split.
  - intros a b ra rb Ha Hb Hle. apply leb_value. apply leb_value in Hle.
    exact (quantize_cents_mono a b ra rb Ha Hb Hle).
  - intros a. unfold round_currency, quantize_cents.
    assert (Hr : rescale round_half_up (-2) (copy_negate a)
                 = copy_negate (rescale round_half_up (-2) a)).
    { unfold rescale, copy_negate. cbn [coeff expo].
      destruct (-2 <=? expo a); cbn [coeff expo]; f_equal.
      - ring.
      - rewrite Z.abs_opp, Z.sgn_opp. ring. }
    rewrite Hr.
    change (coeff (copy_negate a)) with (- coeff a).
    change (expo (copy_negate a)) with (expo a).
    change (coeff (copy_negate (rescale round_half_up (-2) a)))
      with (- coeff (rescale round_half_up (-2) a)).
    rewrite !Z.abs_opp.
    replace (- coeff a =? 0) with (coeff a =? 0)
      by (destruct (Z.eqb_spec (coeff a) 0), (Z.eqb_spec (- coeff a) 0); lia).
    destruct (coeff a =? 0); [reflexivity|].
    destruct (prec <? ndigits (Z.abs (coeff a)) + expo a + 2); [reflexivity|].
    destruct (prec <? ndigits (Z.abs (coeff (rescale round_half_up (-2) a))));
      reflexivity.
Qed.

Lemma round_currency_monotone_odd_witness :
  Dec.leb (mkDecimal 2674 (-3)) (mkDecimal 2675 (-3)) = true /\
  Dec.leb (mkDecimal 267 (-2)) (mkDecimal 268 (-2)) = true /\
  round_currency (mkDecimal (-2675) (-3)) = Some (mkDecimal (-268) (-2)).
Proof.
  destruct round_currency_monotone_odd as [Hmono Hodd].
  split; [vm_compute; reflexivity|]. split.
  - apply (Hmono (mkDecimal 2674 (-3)) (mkDecimal 2675 (-3)));
      vm_compute; reflexivity.
  - pose proof (Hodd (mkDecimal 2675 (-3))) as H. vm_compute in H. exact H.
Defined.

End CurrencyRounding.

(* ================================================================== *)
(** ** What the stages record *)
(* ================================================================== *)

Section Stages.
Import DecSem DecFacts Spec.

Local Opaque Dec.div Dec.mul Dec.add Dec.sub Dec.max Dec.min Dec.neg Dec.quantize_cents
  DecFmt.format_f DecFmt.str Dec.ltb Dec.leb Dec.eqb.

Lemma round_items_app e1 e2 :
  round_items (e1 ++ e2) =
    match round_items e1, round_items e2 with
    | Some i1, Some i2 => Some (i1 ++ i2)%list
    | _, _ => None
    end.
Proof.
  induction e1 as [|e e1 IH]; cbn [app round_items].
  - destruct (round_items e2); reflexivity.
  - rewrite IH. destruct (round_currency (PayrollLineItem.amount e)); [|reflexivity].
    destruct (round_items e1); [|reflexivity].
    destruct (round_items e2); reflexivity.
Qed.

Lemma round_items_defined entries :
  Forall (fun entry => round_currency (PayrollLineItem.amount entry) <> None) entries ->
  exists items, round_items entries = Some items.
Proof.
  induction 1 as [|e entries He _ [items IH]]; [exists []; reflexivity|].
  cbn [round_items]. destruct (round_currency (PayrollLineItem.amount e)) as [a|];
    [|contradiction]. rewrite IH. eexists. reflexivity.
Qed.

Lemma round_items_rounding entries : forall items,
  round_items entries = Some items -> Forall2 rounding_of entries items.
Proof.
  induction entries as [|e entries IH]; intros items H; cbn [round_items] in H.
  - inversion H. constructor.
  - destruct (round_currency (PayrollLineItem.amount e)) as [a|] eqn:Ea; [|discriminate].
    destruct (round_items entries) as [rest|]; [|discriminate].
    inversion H; subst. constructor; [|apply IH; reflexivity].
    split; [exact Ea | reflexivity].
Qed.

Lemma rounding_of_codes entries items :
  Forall2 rounding_of entries items ->
  map PayrollLineItem.code items = map PayrollLineItem.code entries /\
  map PayrollLineItem.category items = map PayrollLineItem.category entries.
Proof.
  induction 1 as [|e i entries items [_ Hi] _ [IH1 IH2]]; [split; reflexivity|].
  cbn [map]. rewrite IH1, IH2, Hi. split; reflexivity.
Qed.

Lemma records_ret {A : Type} (a : A) : records (ret a) [] a.
Proof. intros [l w n]. cbn [round_items line_items warnings notes]. rewrite app_nil_r. reflexivity. Qed.

Lemma records_bind {A B : Type} (m : M A) (k : A -> M B) e1 e2 a b :
  records m e1 a -> records (k a) e2 b -> records (bind m k) (e1 ++ e2) b.
Proof.
  intros Hm Hk s. unfold bind. rewrite Hm, round_items_app.
  destruct (round_items e1) as [i1|]; [|reflexivity].
  rewrite Hk. cbn [line_items warnings notes].
  destruct (round_items e2) as [i2|]; [|reflexivity].
  rewrite app_assoc. reflexivity.
Qed.

Lemma records_add_line_item code name category amount rate base_amount notes_ :
  records (add_line_item code name category amount rate base_amount notes_)
          [PayrollLineItem.mk code name category amount rate base_amount notes_] tt.
Proof.
  intros s. unfold add_line_item. cbn [round_items PayrollLineItem.amount].
  destruct (round_currency amount); reflexivity.
Qed.

Lemma records_allowances_loop als : forall gross,
  records (allowances_loop als gross) (map allowance_entry als)
          (fold_left Dec.add (dict_values als) gross).
Proof.
  induction als as [|[code amount] als IH]; intros gross; cbn [allowances_loop map].
  - apply records_ret.
  - change (allowance_entry (code, amount) :: map allowance_entry als)
      with ([allowance_entry (code, amount)] ++ map allowance_entry als)%list.
    eapply records_bind; [apply records_add_line_item | apply IH].
Qed.

Lemma records_other_deductions_loop ds : forall total,
  records (other_deductions_loop ds total) (map deduction_entry ds)
          (fold_left Dec.add (dict_values ds) total).
Proof.
  induction ds as [|[code amount] ds IH]; intros total; cbn [other_deductions_loop map].
  - apply records_ret.
  - change (deduction_entry (code, amount) :: map deduction_entry ds)
      with ([deduction_entry (code, amount)] ++ map deduction_entry ds)%list.
    eapply records_bind; [apply records_add_line_item | apply IH].
Qed.

Lemma records_calculate_gross file j employee :
  records (calculate_gross (CALCULATORS file j) employee)
          (earning_entries j employee) (gross_of j employee).
Proof.
  unfold earning_entries, gross_of.
  destruct j; cbn [CALCULATORS calculate_gross Curacao.calculator StMaarten.calculator
    Aruba.calculator Bonaire.calculator pays_overtime].
  - unfold Curacao.calculate_gross.
    change (?x :: ?l) with ([x] ++ l)%list at 1.
    eapply records_bind; [apply records_add_line_item|].
    destruct (Dec.ltb (Dec.of_Z 0) (EmployeeInput.overtime_hours employee)).
    + eapply records_bind; [|apply records_allowances_loop].
      change [overtime_entry employee] with ([overtime_entry employee] ++ [])%list.
      eapply records_bind; [apply records_add_line_item|].
      apply records_ret.
    + change (map allowance_entry (EmployeeInput.allowances employee))
        with ([] ++ map allowance_entry (EmployeeInput.allowances employee))%list at 1.
      eapply records_bind; [apply records_ret | apply records_allowances_loop].
  - unfold StMaarten.calculate_gross, simple_calculate_gross.
    change (?x :: ?l) with ([x] ++ l)%list at 1.
    eapply records_bind; [apply records_add_line_item | apply records_allowances_loop].
  - unfold Aruba.calculate_gross, simple_calculate_gross.
    change (?x :: ?l) with ([x] ++ l)%list at 1.
    eapply records_bind; [apply records_add_line_item | apply records_allowances_loop].
  - unfold Bonaire.calculate_gross, simple_calculate_gross.
    change (?x :: ?l) with ([x] ++ l)%list at 1.
    eapply records_bind; [apply records_add_line_item | apply records_allowances_loop].
Qed.

Lemma records_calculate_other_deductions employee :
  records (calculate_other_deductions employee) (deduction_entries employee)
          (fold_left Dec.add (dict_values (EmployeeInput.deductions employee)) (Dec.of_Z 0)).
Proof. apply records_other_deductions_loop. Qed.

(** The tax stage appends one TAX item, which holds the rounded tax, and the
    Curaçao calculator adds a warning for an exempt employee. *)
Lemma tax_stage_state file j employee gross s tax s' :
  calculate_tax (CALCULATORS file j) employee gross s = Some (tax, s') ->
  exists item,
    s' = mkState (line_items s ++ [item])
                 (warnings s ++ match j with
                                | curacao =>
                                    if EmployeeInput.tax_exempt employee
                                    then ["Employee is tax exempt"] else []
                                | _ => []
                                end)
                 (notes s) /\
    PayrollLineItem.code item = "TAX" /\
    PayrollLineItem.category item = DEDUCTION /\
    round_currency tax = Some (PayrollLineItem.amount item).
Proof.
  assert (Hbracket : forall brackets tax_name,
    bracket_calculate_tax brackets tax_name employee gross s = Some (tax, s') ->
    exists item,
      s' = mkState (line_items s ++ [item]) (warnings s ++ []) (notes s) /\
      PayrollLineItem.code item = "TAX" /\
      PayrollLineItem.category item = DEDUCTION /\
      round_currency tax = Some (PayrollLineItem.amount item)).
  { intros brackets tax_name H. unfold bracket_calculate_tax, bind, lift_option in H.
    unfold calculate_progressive_tax in H.
    destruct (progressive_loop gross brackets (Dec.of_Z 0) []) as [t parts].
    destruct (round_currency t) as [t'|] eqn:Et; [|discriminate].
    unfold add_line_item, ret in H.
    destruct (round_currency t') as [a|] eqn:Ea; [|discriminate].
    inversion H; subst. eexists. rewrite app_nil_r. split; [reflexivity|].
    cbn [PayrollLineItem.code PayrollLineItem.category PayrollLineItem.amount].
    auto. }
  destruct j; cbn [CALCULATORS calculate_tax Curacao.calculator StMaarten.calculator
    Aruba.calculator Bonaire.calculator].
  - intros H. destruct (EmployeeInput.tax_exempt employee) eqn:Hex.
    + rewrite calculate_tax_exempt in H by assumption. inversion H; subst.
      eexists. split; [reflexivity|].
      cbn [PayrollLineItem.code PayrollLineItem.category PayrollLineItem.amount].
      split; [reflexivity|]. split; [reflexivity|].
      vm_compute. reflexivity.
    + destruct (EmployeeInput.tax_percentage employee) as [pct|] eqn:Hpct.
      * rewrite (calculate_tax_override file employee gross s pct Hex Hpct) in H.
        cbv zeta in H.
        match type of H with
        | context [round_currency ?x] =>
            destruct (round_currency x) as [a|] eqn:Ea; [|discriminate]
        end.
        inversion H; subst. eexists. rewrite app_nil_r. split; [reflexivity|].
        cbn [PayrollLineItem.code PayrollLineItem.category PayrollLineItem.amount].
        auto.
      * rewrite (calculate_tax_standard file employee gross s Hex Hpct) in H.
        destruct (gross_tax file (taxBase gross)) as [t|]; [|discriminate].
        destruct (floored_tax t) as [final|] eqn:Efinal; [|discriminate].
        cbv zeta in H.
        match type of H with
        | context [round_currency ?x] =>
            destruct (round_currency x) as [a|] eqn:Ea; [|discriminate]
        end.
        inversion H; subst. eexists. rewrite app_nil_r. split; [reflexivity|].
        cbn [PayrollLineItem.code PayrollLineItem.category PayrollLineItem.amount].
        auto.
  - unfold StMaarten.calculate_tax.
    destruct (EmployeeInput.tax_exempt employee); [|apply Hbracket].
    unfold bind, add_line_item, ret.
    destruct (round_currency (Dec.of_Z 0)) as [a|] eqn:Ea; [|discriminate].
    intros H. inversion H; subst. eexists. rewrite app_nil_r. split; [reflexivity|].
    cbn [PayrollLineItem.code PayrollLineItem.category PayrollLineItem.amount]. auto.
  - apply Hbracket.
  - apply Hbracket.
Qed.

(** The social-security stage records the entries of the jurisdiction and
    returns its contributions. *)
Lemma social_security_stage_state file j employee gross s :
  calculate_social_security (CALCULATORS file j) employee gross s =
    match round_items (contribution_entries j employee gross) with
    | None => None
    | Some items =>
        Some (contributions_of j employee gross,
              mkState (line_items s ++ items)
                      (warnings s ++ match j with
                                     | curacao => social_security_warnings employee
                                     | _ => []
                                     end)
                      (notes s))
    end.
Proof.
  destruct j; cbn [CALCULATORS calculate_social_security Curacao.calculator
    StMaarten.calculator Aruba.calculator Bonaire.calculator contribution_entries
    contributions_of].
  - apply calculate_social_security_eq.
  - unfold StMaarten.calculate_social_security, bind, add_line_item, ret.
    cbn [round_items PayrollLineItem.amount]. unfold st_maarten_contribution.
    destruct (round_currency _); [|reflexivity]. rewrite app_nil_r. reflexivity.
  - unfold Aruba.calculate_social_security, ret. cbn [round_items].
    destruct s as [l w n]; cbn [line_items warnings notes]. rewrite !app_nil_r. reflexivity.
  - unfold Bonaire.calculate_social_security, ret. cbn [round_items].
    destruct s as [l w n]; cbn [line_items warnings notes]. rewrite !app_nil_r. reflexivity.
Qed.

Local Transparent Dec.div Dec.mul Dec.add Dec.sub Dec.max Dec.min Dec.neg Dec.quantize_cents
  DecFmt.format_f DecFmt.str Dec.ltb Dec.leb Dec.eqb.

End Stages.

(* ================================================================== *)
(** ** The ledger of a result *)
(* ================================================================== *)

Section Ledger.
Import DecSem DecFacts Spec.

Local Opaque Dec.div Dec.mul Dec.add Dec.sub Dec.max Dec.min Dec.neg Dec.quantize_cents
  DecFmt.format_f DecFmt.str Dec.ltb Dec.leb Dec.eqb.

Lemma records_inv {A : Type} (m : M A) entries result s a s' :
  records m entries result -> m s = Some (a, s') ->
  a = result /\
  exists items,
    round_items entries = Some items /\
    s' = mkState (line_items s ++ items) (warnings s) (notes s).
Proof.
  intros Hm H. rewrite Hm in H. destruct (round_items entries) as [items|]; [|discriminate].
  inversion H; subst. split; [reflexivity|]. exists items. auto.
Qed.

Lemma records_defined {A : Type} (m : M A) entries result s :
  records m entries result ->
  (Forall (fun entry => round_currency (PayrollLineItem.amount entry) <> None) entries
   <-> m s <> None).
Proof.
  intros Hm. rewrite Hm. split.
  - intros H. destruct (round_items_defined _ H) as [items ->]. discriminate.
  - intros H. destruct (round_items entries) as [items|] eqn:E; [|contradiction].
    apply round_items_rounding in E. clear H Hm.
    induction E as [|e i entries items [He _] _ IH]; [constructor|].
    constructor; [|exact IH]. rewrite He. discriminate.
Qed.

Lemma earning_entries_codes j employee :
  map PayrollLineItem.code (earning_entries j employee) = earning_codes j employee /\
  Forall (fun entry => PayrollLineItem.category entry = EARNING) (earning_entries j employee).
Proof.
  unfold earning_entries, earning_codes, dict_keys. split.
  - cbn [map PayrollLineItem.code]. f_equal. rewrite map_app, !map_map. f_equal.
    destruct (pays_overtime j employee); reflexivity.
  - constructor; [reflexivity|]. apply Forall_app. split.
    + destruct (pays_overtime j employee); repeat constructor.
    + apply Forall_map. apply Forall_forall. intros kv _. reflexivity.
Qed.

Lemma deduction_entries_codes employee :
  map PayrollLineItem.code (deduction_entries employee) = deduction_codes employee /\
  Forall (fun entry => PayrollLineItem.category entry = DEDUCTION)
         (deduction_entries employee).
Proof.
  unfold deduction_entries, deduction_codes, dict_keys. split.
  - rewrite !map_map. reflexivity.
  - apply Forall_map. apply Forall_forall. intros kv _. reflexivity.
Qed.

Lemma contribution_entries_codes j employee gross :
  map PayrollLineItem.code (contribution_entries j employee gross)
    = contribution_codes j employee /\
  Forall (fun entry => PayrollLineItem.category entry = DEDUCTION)
         (contribution_entries j employee gross).
Proof.
  destruct j; cbn [contribution_entries contribution_codes];
    try (split; [reflexivity | repeat constructor]).
  unfold social_security_entries, aov_aww_entries.
  destruct (bvz_entry_facts (premiumIncome gross)) as (Hc & Hk & _).
  split.
  - rewrite map_app. cbn [map PayrollLineItem.code]. rewrite Hc.
    destruct (EmployeeInput.aov_exempt employee); reflexivity.
  - apply Forall_app. split.
    + destruct (EmployeeInput.aov_exempt employee); repeat constructor.
    + constructor; [exact Hk|]. repeat constructor.
Qed.

Lemma rounding_of_categories cat entries items :
  Forall2 rounding_of entries items ->
  Forall (fun entry => PayrollLineItem.category entry = cat) entries ->
  Forall (fun item => PayrollLineItem.category item = cat) items.
Proof.
  induction 1 as [|e i entries items [_ Hi] _ IH]; intros Hc; [constructor|].
  inversion Hc; subst. constructor; [|apply IH; assumption].
  replace (PayrollLineItem.category i) with (PayrollLineItem.category e)
    by (rewrite Hi; reflexivity).
  reflexivity.
Qed.

(** X3.  For an employee whose salary, hourly rate, overtime hours and
    allowances lie inside the exponent range and whose allowance keys are
    ASCII text, the earnings stage of every calculator returns the gross and
    records the basic salary first, then (Curaçao only, for a positive
    number of overtime hours) the overtime pay, then one item per allowance
    in the order of the input, with the code ALW_ followed by the upper-cased
    key.  Every item is an EARNING and holds the rounded amount; the warnings
    and the notes are left alone.  The stage raises exactly when one of these
    amounts cannot be rounded. *)
Theorem earnings_stage_records (file : tax_table_file) (j : Jurisdiction)
    (employee : EmployeeInput.t) (s : CalcState) :
  plain_earnings employee = true ->
  (forall gross s',
     calculate_gross (CALCULATORS file j) employee s = Some (gross, s') ->
     gross = gross_of j employee /\
     exists items,
       s' = mkState (line_items s ++ items) (warnings s) (notes s) /\
       Forall2 rounding_of (earning_entries j employee) items /\
       map PayrollLineItem.code items = earning_codes j employee /\
       Forall (fun item => PayrollLineItem.category item = EARNING) items) /\
  (Forall (fun entry => round_currency (PayrollLineItem.amount entry) <> None)
          (earning_entries j employee)
   <-> calculate_gross (CALCULATORS file j) employee s <> None).
Proof.
  intros _. split.
  - intros gross s' H.
    destruct (records_inv _ _ _ _ _ _ (records_calculate_gross file j employee) H)
      as (Hg & items & Hr & Hs).
    split; [exact Hg|]. exists items. split; [exact Hs|].
    apply round_items_rounding in Hr. split; [exact Hr|].
    destruct (earning_entries_codes j employee) as [Hc Hk].
    destruct (rounding_of_codes _ _ Hr) as [Hc' _]. split; [congruence|].
    exact (rounding_of_categories EARNING _ _ Hr Hk).
  - apply records_defined with (result := gross_of j employee).
    apply records_calculate_gross.
Qed.

(** X4.  The stage of the other deductions returns the sum of the amounts of
    [employee.deductions], taken in order from 0, and records one DEDUCTION
    item per entry, in the order of the input, with the code DED_ followed by
    the upper-cased key and the rounded amount.  Without deductions it
    returns 0 and leaves the ledger as it is.  It raises exactly when one of
    the amounts cannot be rounded. *)
Theorem other_deductions_stage_records (employee : EmployeeInput.t) (s : CalcState) :
  (forall total s',
     calculate_other_deductions employee s = Some (total, s') ->
     total = fold_left Dec.add (dict_values (EmployeeInput.deductions employee)) (Dec.of_Z 0) /\
     exists items,
       s' = mkState (line_items s ++ items) (warnings s) (notes s) /\
       Forall2 rounding_of (deduction_entries employee) items /\
       map PayrollLineItem.code items = deduction_codes employee /\
       Forall (fun item => PayrollLineItem.category item = DEDUCTION) items) /\
  (EmployeeInput.deductions employee = [] ->
   calculate_other_deductions employee s = Some (Dec.of_Z 0, s)) /\
  (Forall (fun kv => round_currency (snd kv) <> None) (EmployeeInput.deductions employee)
   <-> calculate_other_deductions employee s <> None).
Proof.
  split; [|split].
  - intros total s' H.
    destruct (records_inv _ _ _ _ _ _ (records_calculate_other_deductions employee) H)
      as (Hg & items & Hr & Hs).
    split; [exact Hg|]. exists items. split; [exact Hs|].
    apply round_items_rounding in Hr. split; [exact Hr|].
    destruct (deduction_entries_codes employee) as [Hc Hk].
    destruct (rounding_of_codes _ _ Hr) as [Hc' _]. split; [congruence|].
    exact (rounding_of_categories DEDUCTION _ _ Hr Hk).
  - intros He. unfold calculate_other_deductions. rewrite He. reflexivity.
  - rewrite <- (records_defined _ _ _ s (records_calculate_other_deductions employee)).
    unfold deduction_entries. rewrite Forall_map. reflexivity.
Qed.

(** The parts of the ledger of a result. *)
Lemma calculate_ledger_parts file j employee r :
  calculate (CALCULATORS file j) employee = Some r ->
  exists E T S D tax s1 s2,
    round_items (earning_entries j employee) = Some E /\
    round_items (contribution_entries j employee (gross_of j employee)) = Some S /\
    round_items (deduction_entries employee) = Some D /\
    calculate_tax (CALCULATORS file j) employee (gross_of j employee) s1 = Some (tax, s2) /\
    PayrollLineItem.code T = "TAX" /\
    PayrollLineItem.category T = DEDUCTION /\
    round_currency tax = Some (PayrollLineItem.amount T) /\
    PayrollCalculationResult.line_items r = (E ++ [T] ++ S ++ D)%list /\
    PayrollCalculationResult.warnings r = warnings_of j employee /\
    PayrollCalculationResult.calculation_notes r = [].
Proof.
  unfold calculate, run_stages, bind.
  destruct (calculate_gross (CALCULATORS file j) employee (mkState [] [] []))
    as [[g s1]|] eqn:E1; [|discriminate].
  destruct (calculate_tax (CALCULATORS file j) employee g s1) as [[t s2]|] eqn:E2;
    [|discriminate].
  destruct (calculate_social_security (CALCULATORS file j) employee g s2)
    as [[c s3]|] eqn:E3; [|discriminate].
  destruct (calculate_other_deductions employee s3) as [[o s4]|] eqn:E4; [|discriminate].
  unfold ret.
  destruct (round_currency g); [|discriminate].
  destruct (round_currency (Dec.add (Dec.add t (sum_values c)) o)); [|discriminate].
  destruct (round_currency _); [|discriminate].
  intros H. inversion H; subst r; clear H.
  cbn [PayrollCalculationResult.line_items PayrollCalculationResult.warnings
       PayrollCalculationResult.calculation_notes].
  destruct (records_inv _ _ _ _ _ _ (records_calculate_gross file j employee) E1)
    as (Hg & E & HE & Hs1). subst g.
  destruct (tax_stage_state _ _ _ _ _ _ _ E2) as (T & Hs2 & HT1 & HT2 & HT3).
  rewrite social_security_stage_state in E3.
  destruct (round_items (contribution_entries j employee (gross_of j employee)))
    as [S|] eqn:HS; [|discriminate].
  inversion E3; subst c s3; clear E3.
  destruct (records_inv _ _ _ _ _ _ (records_calculate_other_deductions employee) E4)
    as (_ & D & HD & Hs4).
  exists E, T, S, D, t, s1, s2.
  split; [exact HE|]. split; [reflexivity|]. split; [exact HD|]. split; [exact E2|].
  split; [exact HT1|]. split; [exact HT2|]. split; [exact HT3|].
  subst s4 s2 s1. cbn [line_items warnings notes].
  split; [rewrite <- !app_assoc; reflexivity|]. split; [|reflexivity].
  cbn [app]. unfold warnings_of. destruct j; try reflexivity.
Qed.

(** X5.  The line items of every result come in one order: the earnings
    (BASIC, OVERTIME if paid, one ALW_ item per allowance), then TAX, then
    the social-security items of the jurisdiction, then one DED_ item per
    deduction.  The earnings are EARNING items and all the others DEDUCTION
    items; no item of another category is recorded. *)
Theorem ledger_layout (file : tax_table_file) (j : Jurisdiction)
    (employee : EmployeeInput.t) (r : PayrollCalculationResult.t) :
  calculate (CALCULATORS file j) employee = Some r ->
  map PayrollLineItem.code (PayrollCalculationResult.line_items r)
    = (earning_codes j employee
       ++ "TAX" :: contribution_codes j employee ++ deduction_codes employee)%list /\
  map PayrollLineItem.category (PayrollCalculationResult.line_items r)
    = (repeat EARNING (List.length (earning_codes j employee))
       ++ repeat DEDUCTION (1 + List.length (contribution_codes j employee)
                              + List.length (deduction_codes employee)))%list.
Proof.
  intros H.
  destruct (calculate_ledger_parts _ _ _ _ H)
    as (Ei & Ti & Si & Di & tax & s1 & s2 & HE & HS & HD & _ & HT1 & HT2 & _ & Hl & _).
  apply round_items_rounding in HE, HS, HD.
  destruct (earning_entries_codes j employee) as [Ec Ek].
  destruct (contribution_entries_codes j employee (gross_of j employee)) as [Sc Sk].
  destruct (deduction_entries_codes employee) as [Dc Dk].
  destruct (rounding_of_codes _ _ HE) as [Ec' _].
  destruct (rounding_of_codes _ _ HS) as [Sc' _].
  destruct (rounding_of_codes _ _ HD) as [Dc' _].
  pose proof (rounding_of_categories _ _ _ HE Ek) as Ek'.
  pose proof (rounding_of_categories _ _ _ HS Sk) as Sk'.
  pose proof (rounding_of_categories _ _ _ HD Dk) as Dk'.
  assert (Hrep : forall cat items,
            Forall (fun item => PayrollLineItem.category item = cat) items ->
            map PayrollLineItem.category items
            = repeat cat (List.length (map PayrollLineItem.code items))).
  { intros cat items F. induction F as [|i items Hi _ IH]; [reflexivity|].
    cbn [map List.length repeat]. rewrite Hi, IH. reflexivity. }
  rewrite Hl. split.
  - rewrite !map_app. cbn [map app]. rewrite Ec', Sc', Dc', HT1, Ec, Sc, Dc. reflexivity.
  - rewrite !map_app. cbn [map app].
    rewrite (Hrep _ _ Ek'), (Hrep _ _ Sk'), (Hrep _ _ Dk'), HT2, Ec', Sc', Dc', Ec, Sc, Dc.
    f_equal. change (1 + ?a + ?b)%nat with (S (a + b)). cbn [repeat]. f_equal.
    rewrite repeat_app. reflexivity.
Qed.

(** X6.  No calculator ever writes a calculation note: [calculation_notes]
    is empty in every result.  The warnings are fixed by two flags of the
    input: the Curaçao calculator warns of a tax-exempt employee and of an
    AOV/AWW-exempt employee, in that order, and the other calculators never
    warn. *)
Theorem warnings_and_notes (file : tax_table_file) (j : Jurisdiction)
    (employee : EmployeeInput.t) (r : PayrollCalculationResult.t) :
  calculate (CALCULATORS file j) employee = Some r ->
  PayrollCalculationResult.calculation_notes r = [] /\
  PayrollCalculationResult.warnings r = warnings_of j employee.
Proof.
  intros H.
  destruct (calculate_ledger_parts _ _ _ _ H)
    as (E & T & S & D & tax & s1 & s2 & _ & _ & _ & _ & _ & _ & _ & _ & Hw & Hn).
  split; assumption.
Qed.

Local Transparent Dec.div Dec.mul Dec.add Dec.sub Dec.max Dec.min Dec.neg Dec.quantize_cents
  DecFmt.format_f DecFmt.str Dec.ltb Dec.leb Dec.eqb.

End Ledger.

Section LedgerExamples.
Import DecSem DecFacts Spec.

Lemma earnings_stage_records_witness :
  plain_earnings employee_with_phone = true /\
  exists gross s',
    calculate_gross (CALCULATORS None aruba) employee_with_phone (mkState [] [] [])
      = Some (gross, s') /\
    gross = mkDecimal 475000 (-2) /\
    map PayrollLineItem.code (line_items s') = ["BASIC"; "ALW_PHONE"; "ALW_TRANSPORTATION"].
Proof.
  split; [vm_compute; reflexivity|].
  destruct (calculate_gross (CALCULATORS None aruba) employee_with_phone (mkState [] [] []))
    as [[gross s']|] eqn:E; [|vm_compute in E; discriminate].
  assert (Hplain : plain_earnings employee_with_phone = true) by (vm_compute; reflexivity).
  destruct (earnings_stage_records None aruba employee_with_phone (mkState [] [] []) Hplain)
    as [H _].
  destruct (H gross s' E) as (Hg & items & Hs & _ & Hc & _).
  exists gross, s'. split; [reflexivity|]. split.
  - rewrite Hg. vm_compute. reflexivity.
  - rewrite Hs. cbn [line_items app]. rewrite Hc. vm_compute. reflexivity.
Defined.

Lemma other_deductions_stage_records_witness :
  calculate_other_deductions st_maarten_3001 (mkState [] [] [])
  = Some (Dec.of_Z 0, mkState [] [] []).
Proof.
  destruct (other_deductions_stage_records st_maarten_3001 (mkState [] [] []))
    as (_ & Hempty & _).
  apply Hempty. reflexivity.
Defined.

Lemma ledger_layout_witness :
  exists r,
    calculate (CALCULATORS None curacao) (sample_employee (mkDecimal 400000 (-2))) = Some r /\
    map PayrollLineItem.code (PayrollCalculationResult.line_items r)
    = ["BASIC"; "TAX"; "AOV_AWW"; "KORTING"; "BVZ"; "AVBZ"].
Proof.
  destruct (calculate (CALCULATORS None curacao) (sample_employee (mkDecimal 400000 (-2))))
    as [r|] eqn:E; [|vm_compute in E; discriminate].
  exists r. split; [reflexivity|].
  destruct (ledger_layout None curacao _ r E) as [Hc _].
  rewrite Hc. vm_compute. reflexivity.
Defined.

Lemma warnings_and_notes_witness :
  exists r,
    calculate (CALCULATORS None aruba) aruba_exempt = Some r /\
    PayrollCalculationResult.calculation_notes r = [] /\
    PayrollCalculationResult.warnings r = [].
Proof.
  destruct (calculate (CALCULATORS None aruba) aruba_exempt)
    as [r|] eqn:E; [|vm_compute in E; discriminate].
  exists r. split; [reflexivity|].
  exact (warnings_and_notes None aruba aruba_exempt r E).
Defined.

Local Opaque Dec.div Dec.mul Dec.add Dec.sub Dec.max Dec.min Dec.neg Dec.quantize_cents
  DecFmt.format_f DecFmt.str Dec.ltb Dec.leb Dec.eqb.

Lemma last_amount_fold keep c items : forall acc,
  fold_left
    (fun acc item =>
       if keep item && String.eqb c (PayrollLineItem.code item)
       then Some (PayrollLineItem.amount item) else acc)
    items acc
  = match last_amount keep c items with
    | Some a => Some a
    | None => acc
    end.
Proof.
  unfold last_amount. induction items as [|item items IH]; intros acc; [reflexivity|].
  cbn [fold_left]. rewrite IH. symmetry. rewrite IH.
  destruct (fold_left _ items None); [reflexivity|].
  destruct (keep item && String.eqb c (PayrollLineItem.code item)); reflexivity.
Qed.

Lemma last_amount_app keep c l1 l2 :
  last_amount keep c (l1 ++ l2) =
    match last_amount keep c l2 with
    | Some a => Some a
    | None => last_amount keep c l1
    end.
Proof.
  unfold last_amount at 1. rewrite fold_left_app. apply last_amount_fold.
Qed.

Lemma last_amount_none keep c items :
  Forall (fun item => keep item && String.eqb c (PayrollLineItem.code item) = false) items ->
  last_amount keep c items = None.
Proof.
  unfold last_amount. induction 1 as [|item items Hi _ IH]; [reflexivity|].
  cbn [fold_left]. rewrite Hi. exact IH.
Qed.

Lemma no_code_no_match keep c items :
  ~ In c (map PayrollLineItem.code items) ->
  Forall (fun item => keep item && String.eqb c (PayrollLineItem.code item) = false) items.
Proof.
  intros Hn. apply Forall_forall. intros item Hin.
  destruct (String.eqb_spec c (PayrollLineItem.code item)) as [->|];
    [|apply andb_false_r].
  exfalso. apply Hn. apply in_map. exact Hin.
Qed.

Lemma other_category_no_match keep cat c items :
  (forall item, PayrollLineItem.category item = cat -> keep item = false) ->
  Forall (fun item => PayrollLineItem.category item = cat) items ->
  Forall (fun item => keep item && String.eqb c (PayrollLineItem.code item) = false) items.
Proof.
  intros Hk H. eapply Forall_impl; [|exact H]. intros item Hi. cbv beta.
  rewrite (Hk item Hi). reflexivity.
Qed.

Lemma prefixed_differs (prefix key code : string) :
  String.prefix prefix code = false -> code <> prefix ++ key.
Proof.
  intros Hp ->. revert Hp. clear. induction prefix as [|ch prefix IH].
  - cbn [String.append String.prefix]. destruct key; discriminate.
  - cbn [String.append String.prefix].
    destruct (ascii_dec ch ch) as [_|Hne]; [exact IH | contradiction].
Qed.

(** X7.  In every result the earnings group holds BASIC with the rounded
    basic salary, and the statutory group holds TAX with the rounding of the
    tax the tax stage returned for the gross of the employee; TAX never
    appears in the group of the other deductions.  No allowance, contribution
    or deduction of the input can take the place of either entry. *)
Theorem groups_hold_basic_and_tax (file : tax_table_file) (j : Jurisdiction)
    (employee : EmployeeInput.t) (r : PayrollCalculationResult.t) :
  calculate (CALCULATORS file j) employee = Some r ->
  (exists basic,
     round_currency (EmployeeInput.gross_salary employee) = Some basic /\
     dict_get "BASIC" (PayrollCalculationResult.earnings r) = Some basic) /\
  (exists tax s1 s2 recorded,
     calculate_tax (CALCULATORS file j) employee (gross_of j employee) s1 = Some (tax, s2) /\
     round_currency tax = Some recorded /\
     dict_get "TAX" (PayrollCalculationResult.statutory_deductions r) = Some recorded) /\
  dict_get "TAX" (PayrollCalculationResult.other_deductions r) = None.
Proof.
  intros H.
  destruct (calculate_ledger_parts _ _ _ _ H)
    as (Ei & Ti & Si & Di & tax & s1 & s2 & HE & HS & HD & Htax & HT1 & HT2 & HT3 & Hl & _).
  apply calculate_inv in H
    as (_ & _ & _ & _ & s & _ & _ & _ & _ & Hli & Hearn & Hstat & Hother & _).
  rewrite Hearn, Hstat, Hother, <- Hli, Hl, !group_by_code_last. clear Hearn Hstat Hother Hli Hl s.
  apply round_items_rounding in HE, HS, HD.
  destruct (earning_entries_codes j employee) as [Ec Ek].
  destruct (contribution_entries_codes j employee (gross_of j employee)) as [Sc Sk].
  destruct (deduction_entries_codes employee) as [Dc Dk].
  destruct (rounding_of_codes _ _ HE) as [Ec' _].
  destruct (rounding_of_codes _ _ HS) as [Sc' _].
  destruct (rounding_of_codes _ _ HD) as [Dc' _].
  pose proof (rounding_of_categories _ _ _ HE Ek) as Ek'.
  pose proof (rounding_of_categories _ _ _ HS Sk) as Sk'.
  pose proof (rounding_of_categories _ _ _ HD Dk) as Dk'.
  rewrite Ec in Ec'. rewrite Sc in Sc'. rewrite Dc in Dc'.
  assert (HnoS : ~ In "TAX" (map PayrollLineItem.code Si)).
  { rewrite Sc'. destruct j; cbn [contribution_codes].
    - destruct (EmployeeInput.aov_exempt employee); cbn [app In];
        intros Hin; repeat (destruct Hin as [Hin|Hin]; [discriminate|]); exact Hin.
    - intros [Hin|[]]. discriminate.
    - intros [].
    - intros []. }
  assert (HnoD : ~ In "TAX" (map PayrollLineItem.code Di)).
  { rewrite Dc'. unfold deduction_codes. rewrite in_map_iff. intros (k & Hk & _).
    symmetry in Hk. revert Hk. apply prefixed_differs. reflexivity. }
  assert (Hded : forall item, PayrollLineItem.category item = DEDUCTION ->
                              is_earning item = false).
  { intros item Hi. unfold is_earning. rewrite Hi. reflexivity. }
  assert (Hearning : forall item, PayrollLineItem.category item = EARNING ->
                                  is_statutory item = false /\ is_other item = false).
  { intros item Hi. unfold is_statutory, is_other. rewrite Hi. split; reflexivity. }
  split; [|split].
  - (* BASIC *)
    unfold earning_entries in HE. inversion HE as [|e0 basic es Ei' [Hb Hbi] HE' Heq1 Heq2].
    subst Ei. cbn [PayrollLineItem.amount] in Hb.
    exists (PayrollLineItem.amount basic). split; [exact Hb|].
    change ((basic :: Ei') ++ [Ti] ++ Si ++ Di)%list
      with ([basic] ++ (Ei' ++ [Ti] ++ Si ++ Di))%list.
    rewrite last_amount_app.
    rewrite (last_amount_none is_earning "BASIC" (Ei' ++ [Ti] ++ Si ++ Di)%list).
    + unfold last_amount. cbn [fold_left]. rewrite Hbi. reflexivity.
    + rewrite !Forall_app. split; [|split; [|split]].
      * apply no_code_no_match. cbn [map] in Ec'. unfold earning_codes in Ec'.
        injection Ec' as _ Ec'. rewrite Ec'. rewrite in_app_iff. intros [Hin|Hin].
        -- destruct (pays_overtime j employee); [|exact Hin].
           destruct Hin as [Hin|[]]. discriminate.
        -- rewrite in_map_iff in Hin. destruct Hin as (k & Hk & _).
           discriminate Hk.
      * apply (other_category_no_match _ DEDUCTION); [exact Hded|].
        constructor; [exact HT2 | constructor].
      * apply (other_category_no_match _ DEDUCTION); [exact Hded | exact Sk'].
      * apply (other_category_no_match _ DEDUCTION); [exact Hded | exact Dk'].
  - (* TAX, statutory *)
    exists tax, s1, s2, (PayrollLineItem.amount Ti).
    split; [exact Htax|]. split; [exact HT3|].
    rewrite app_assoc, last_amount_app.
    rewrite (last_amount_none is_statutory "TAX" (Si ++ Di)%list)
      by (rewrite Forall_app; split; apply no_code_no_match; assumption).
    rewrite last_amount_app. unfold last_amount at 1. cbn [fold_left].
    unfold is_statutory. rewrite HT1, HT2. reflexivity.
  - (* TAX, other *)
    apply last_amount_none. rewrite !Forall_app. split; [|split; [|split]].
    + apply (other_category_no_match _ EARNING); [apply Hearning | exact Ek'].
    + constructor; [|constructor]. unfold is_other. rewrite HT1, HT2. reflexivity.
    + apply no_code_no_match. exact HnoS.
    + apply no_code_no_match. exact HnoD.
Qed.

Local Transparent Dec.div Dec.mul Dec.add Dec.sub Dec.max Dec.min Dec.neg Dec.quantize_cents
  DecFmt.format_f DecFmt.str Dec.ltb Dec.leb Dec.eqb.

Lemma groups_hold_basic_and_tax_witness :
  exists r,
    calculate (CALCULATORS None aruba) employee_with_phone = Some r /\
    dict_get "BASIC" (PayrollCalculationResult.earnings r) = Some (mkDecimal 450000 (-2)) /\
    dict_get "TAX" (PayrollCalculationResult.other_deductions r) = None.
Proof.
  destruct (calculate (CALCULATORS None aruba) employee_with_phone)
    as [r|] eqn:E; [|vm_compute in E; discriminate].
  exists r. split; [reflexivity|].
  destruct (groups_hold_basic_and_tax None aruba employee_with_phone r E)
    as ((basic & Hb & Hg) & _ & Ho).
  split; [|exact Ho]. rewrite Hg, <- Hb. vm_compute. reflexivity.
Defined.

End LedgerExamples.

(* ================================================================== *)
(** ** The inputs a calculation does not read *)
(* ================================================================== *)

Section UnreadInputs.

(** X8.  No calculator reads the name, the regular hours, the number of
    dependents or the AWW exemption of the employee: two employees that
    differ in these fields only get the same result.  Outside Curaçao the
    hourly rate, the overtime hours, the override tax percentage and the AOV
    exemption are not read either, so overtime is not paid there. *)
Theorem unread_inputs (file : tax_table_file) (j : Jurisdiction)
    (employee_id name name' jurisdiction : string) (gross_salary : Decimal)
    (hourly_rate hourly_rate' : option Decimal) (period_start period_end : date)
    (regular_hours regular_hours' overtime_hours overtime_hours' : Decimal)
    (allowances deductions : dict Decimal) (tax_exempt : bool)
    (tax_percentage tax_percentage' : option Decimal) (dependents dependents' : Z)
    (aov_exempt aov_exempt' aww_exempt aww_exempt' : bool) :
  calculate (CALCULATORS file j)
    (EmployeeInput.mk employee_id name' jurisdiction gross_salary hourly_rate
       period_start period_end regular_hours' overtime_hours allowances deductions
       tax_exempt tax_percentage dependents' aov_exempt aww_exempt')
  = calculate (CALCULATORS file j)
      (EmployeeInput.mk employee_id name jurisdiction gross_salary hourly_rate
         period_start period_end regular_hours overtime_hours allowances deductions
         tax_exempt tax_percentage dependents aov_exempt aww_exempt) /\
  (j <> curacao ->
   calculate (CALCULATORS file j)
     (EmployeeInput.mk employee_id name jurisdiction gross_salary hourly_rate'
        period_start period_end regular_hours overtime_hours' allowances deductions
        tax_exempt tax_percentage' dependents aov_exempt' aww_exempt)
   = calculate (CALCULATORS file j)
       (EmployeeInput.mk employee_id name jurisdiction gross_salary hourly_rate
          period_start period_end regular_hours overtime_hours allowances deductions
          tax_exempt tax_percentage dependents aov_exempt aww_exempt)).
Proof.
  split.
  - destruct j; reflexivity.
  - intros Hj. destruct j; [contradiction | reflexivity ..].
Qed.

Lemma unread_inputs_witness :
  calculate (CALCULATORS None st_maarten)
    (EmployeeInput.mk "BATCH002" "Batch Employee 2" "st_maarten" (mkDecimal 300100 (-2))
       (Some (mkDecimal 20 0)) (mkDate 2025 2 1) (mkDate 2025 2 28)
       (mkDecimal 160 0) (mkDecimal 40 0) [] [] false (Some (mkDecimal 10 0)) 0 true false)
  = calculate (CALCULATORS None st_maarten) st_maarten_3001.
Proof.
  refine (proj2 (unread_inputs None st_maarten "BATCH002" "Batch Employee 2"
                   "Batch Employee 2" "st_maarten" (mkDecimal 300100 (-2))
                   None (Some (mkDecimal 20 0)) (mkDate 2025 2 1) (mkDate 2025 2 28)
                   (mkDecimal 160 0) (mkDecimal 160 0) (mkDecimal 0 0) (mkDecimal 40 0)
                   [] [] false None (Some (mkDecimal 10 0)) 0 0 false true false false) _).
  discriminate.
Defined.

End UnreadInputs.

(* ================================================================== *)
(** ** Sizes: what a subtraction, a rate and a division by a count can do *)
(* ================================================================== *)

Section Sizes.
Import Dec DecSem DecFacts Spec.

Lemma sub_le_self a b :
  Z.abs (coeff a) < 10 ^ prec -> (0 <= value b)%R -> (value (sub a b) <= value a)%R.
Proof.
  intros Ha Hb. rewrite <- (fix_ctx_exact a Ha) at 1.
  unfold sub. rewrite add_unfold. apply fix_ctx_mono.
  rewrite value_add_exact, value_copy_negate. lra.
Qed.

Lemma mul_le_self a r :
  Z.abs (coeff a) < 10 ^ prec -> (0 <= value a)%R -> (value r <= 1)%R ->
  (value (mul a r) <= value a)%R.
Proof.
  intros Ha H0 Hr. rewrite <- (fix_ctx_exact a Ha) at 1.
  rewrite mul_unfold. apply fix_ctx_mono. rewrite value_mul_exact. nra.
Qed.

Lemma max_bounded a b :
  Z.abs (coeff a) < 10 ^ prec -> Z.abs (coeff b) < 10 ^ prec ->
  Z.abs (coeff (max a b)) < 10 ^ prec.
Proof. intros Ha Hb. unfold max. destruct (ltb a b); assumption. Qed.

Lemma min_bounded a b :
  Z.abs (coeff a) < 10 ^ prec -> Z.abs (coeff b) < 10 ^ prec ->
  Z.abs (coeff (min a b)) < 10 ^ prec.
Proof. intros Ha Hb. unfold min. destruct (ltb b a); assumption. Qed.

Lemma sub_bounded a b : Z.abs (coeff (sub a b)) < 10 ^ prec.
Proof. unfold sub. apply add_bounded. Qed.

Lemma of_Z_0_bounded : Z.abs (coeff (of_Z 0)) < 10 ^ prec.
Proof. vm_compute. reflexivity. Qed.

Lemma strip_zeros_value fuel : forall c e ideal,
  let ce := strip_zeros fuel c e ideal in
  e <= snd ce /\ fst ce * 10 ^ (snd ce - e) = c.
Proof.
  induction fuel as [|f IH]; intros c e ideal; cbn [strip_zeros].
  - cbn [fst snd]. rewrite Z.sub_diag. split; [lia | ring].
  - destruct (e <? ideal) eqn:E1; cbn [andb].
    + destruct (Z.eqb_spec (c mod 10) 0) as [Hm|Hm].
      * destruct (IH (c / 10) (e + 1) ideal) as [Hle Hv]. cbv zeta in Hle, Hv.
        split; [lia|].
        replace (snd (strip_zeros f (c / 10) (e + 1) ideal) - e)
          with ((snd (strip_zeros f (c / 10) (e + 1) ideal) - (e + 1)) + 1) by lia.
        rewrite Z.pow_add_r by lia. rewrite Z.mul_assoc, Hv.
        change (10 ^ 1) with 10. pose proof (Z.div_mod c 10 ltac:(lia)). lia.
      * cbn [fst snd]. rewrite Z.sub_diag. split; [lia | ring].
    + cbn [fst snd]. rewrite Z.sub_diag. split; [lia | ring].
Qed.

(** Dividing an amount of at most 28 digits by a whole number does not make
    it larger. *)
Lemma div_abs_le a b :
  Z.abs (coeff a) < 10 ^ prec -> expo b = 0 -> 1 <= coeff b ->
  (Rabs (value (div a b)) <= Rabs (value a))%R.
Proof.
  intros Ha Heb Hcb. unfold div.
  destruct (Z.eqb_spec (coeff b) 0); [lia|].
  destruct (Z.eqb_spec (coeff a) 0) as [Hz|Hnz].
  - destruct (fix_ctx_sign (mkDecimal 0 (expo a - expo b))) as (_ & _ & H0).
    rewrite (H0 (value_zero_coeff _)). rewrite Rabs_R0. apply Rabs_pos.
  - set (na := Z.abs (coeff a)). set (nb := Z.abs (coeff b)).
    assert (Hnb : nb = coeff b) by (unfold nb; lia).
    assert (Hna : 1 <= na < 10 ^ prec) by (unfold na; lia).
    assert (Hda : ndigits na <= prec).
    { apply ndigits_le_iff; unfold prec in *; lia. }
    pose proof (ndigits_ge1 nb) as Hdb.
    set (shift := ndigits nb - ndigits na + prec + 1).
    assert (Hshift : 2 <= shift) by (unfold shift; lia).
    destruct (Z.leb_spec 0 shift) as [_|]; [|lia].
    rewrite (Z.sgn_pos (coeff b)), Z.mul_1_r, Heb, Z.sub_0_r by lia.
    set (e := expo a - shift).
    set (num := na * 10 ^ shift).
    pose proof (pow10_gt0 shift ltac:(lia)) as Hp.
    assert (Hp2 : 100 <= 10 ^ shift).
    { change 100 with (10 ^ 2). apply Z.pow_le_mono_r; lia. }
    assert (Hnum : 100 <= num) by (unfold num; nia).
    (* the coefficient the quotient is rounded from lies between 0 and num *)
    assert (Hbound : exists Q ef,
              (if num mod nb =? 0
               then let '(c', e') :=
                      strip_zeros (Z.to_nat (ndigits (num / nb))) (num / nb) e (expo a) in
                    fix_ctx (mkDecimal (Z.sgn (coeff a) * c') e')
               else fix_ctx (mkDecimal
                               (Z.sgn (coeff a)
                                * (if num / nb mod 5 =? 0 then num / nb + 1 else num / nb)) e))
              = fix_ctx (mkDecimal (Z.sgn (coeff a) * Q) ef) /\
              e <= ef /\ 0 <= Q * 10 ^ (ef - e) <= num).
    { assert (Hq : 0 <= num / nb <= num).
      { split; [apply Z.div_pos; lia|]. apply Z.div_le_upper_bound; nia. }
      destruct (Z.eqb_spec (num mod nb) 0) as [Hr|Hr].
      - pose proof (strip_zeros_value (Z.to_nat (ndigits (num / nb))) (num / nb) e (expo a))
          as Hs. cbv zeta in Hs.
        destruct (strip_zeros _ _ _ _) as [c' e']. cbn [fst snd] in Hs.
        exists c', e'. split; [reflexivity|]. split; [lia|]. destruct Hs as [_ ->]. lia.
      - exists (if num / nb mod 5 =? 0 then num / nb + 1 else num / nb), e.
        split; [reflexivity|]. split; [lia|]. rewrite Z.sub_diag, Z.mul_1_r.
        assert (Hnb2 : 2 <= nb).
        { destruct (Z.eq_dec nb 1) as [H1|]; [|lia]. rewrite H1, Z.mod_1_r in Hr. lia. }
        assert (Hhalf : num / nb <= num / 2).
        { apply Z.div_le_compat_l; lia. }
        pose proof (Z.div_mod num 2 ltac:(lia)) as Hdm.
        pose proof (Z.mod_pos_bound num 2 ltac:(lia)).
        destruct (num / nb mod 5 =? 0); lia. }
    destruct Hbound as (Q & ef & -> & Hef & HQ).
    assert (Hval : value a = value (mkDecimal (coeff a * 10 ^ shift) e)).
    { destruct a as [ca ea]. cbn [coeff expo] in *. unfold e.
      rewrite (value_align ca ea (ea - shift)) by lia.
      rewrite (value_align (ca * 10 ^ shift) (ea - shift) (ea - shift)) by lia.
      replace (ea - (ea - shift)) with shift by lia.
      rewrite Z.sub_diag, Z.mul_1_r. reflexivity. }
    assert (Hfa : value (fix_ctx (mkDecimal (coeff a * 10 ^ shift) e)) = value a).
    { rewrite <- (fix_ctx_exact a Ha) at 1. apply fix_ctx_value_eq. symmetry. exact Hval. }
    destruct (Z.lt_total (coeff a) 0) as [Hneg|[?|Hpos]]; [|lia|].
    + (* a negative amount *)
      rewrite (Z.sgn_neg (coeff a)) by lia.
      assert (Hle : (value a <= value (fix_ctx (mkDecimal (-1 * Q) ef)))%R).
      { rewrite <- Hfa. apply fix_ctx_mono.
        rewrite (value_align (-1 * Q) ef e) by lia.
        rewrite (value_align (coeff a * 10 ^ shift) e e) by lia.
        rewrite Z.sub_diag, Z.mul_1_r. apply scaled_le.
        replace (coeff a) with (- na) by (unfold na; lia). fold num. lia. }
      assert (Hnp : (value (fix_ctx (mkDecimal (-1 * Q) ef)) <= 0)%R).
      { apply fix_ctx_nonpos. rewrite (value_align (-1 * Q) ef e) by lia.
        pose proof (powerRZ_10_pos e).
        assert (IZR (-1 * Q * 10 ^ (ef - e)) <= 0)%R by (apply IZR_le; lia). nra. }
      rewrite !Rabs_left1; lra.
    + rewrite (Z.sgn_pos (coeff a)) by lia.
      assert (Hle : (value (fix_ctx (mkDecimal (1 * Q) ef)) <= value a)%R).
      { rewrite <- Hfa. apply fix_ctx_mono.
        rewrite (value_align (1 * Q) ef e) by lia.
        rewrite (value_align (coeff a * 10 ^ shift) e e) by lia.
        rewrite Z.sub_diag, Z.mul_1_r. apply scaled_le.
        replace (coeff a) with na by (unfold na; lia). fold num. lia. }
      assert (Hnn : (0 <= value (fix_ctx (mkDecimal (1 * Q) ef)))%R).
      { apply fix_ctx_nonneg. rewrite (value_align (1 * Q) ef e) by lia.
        pose proof (powerRZ_10_pos e).
        assert (0 <= IZR (1 * Q * 10 ^ (ef - e)))%R by (apply IZR_le; lia). nra. }
      rewrite !Rabs_pos_eq; lra.
Qed.

Lemma div_bounded a b : Z.abs (coeff (div a b)) < 10 ^ prec.
Proof.
  unfold div. destruct (coeff b =? 0); [vm_compute; reflexivity|].
  destruct (coeff a =? 0); [apply fix_ctx_bounded|].
  destruct (_ =? 0); [|apply fix_ctx_bounded].
  destruct (strip_zeros _ _ _ _). apply fix_ctx_bounded.
Qed.

Lemma value_neg a : Z.abs (coeff a) < 10 ^ prec -> value (neg a) = (- value a)%R.
Proof.
  intros Ha. unfold neg. rewrite fix_ctx_exact, value_copy_negate; [reflexivity|].
  unfold copy_negate. cbn [coeff]. rewrite Z.abs_opp. exact Ha.
Qed.

Lemma korting_bounded A :
  Z.abs (coeff (Curacao.calculate_aov_aww_korting_monthly A)) < 10 ^ prec.
Proof.
  unfold Curacao.calculate_aov_aww_korting_monthly.
  destruct (leb _ _); [vm_compute; reflexivity | apply div_bounded].
Qed.

End Sizes.

(* ================================================================== *)
(** ** The sizes of the Curaçao premiums and of the tax base *)
(* ================================================================== *)

Section PremiumSizes.
Import DecSem DecFacts Spec.

Local Opaque Dec.div Dec.mul Dec.add Dec.sub Dec.max Dec.min Dec.neg Dec.quantize_cents
  DecFmt.format_f DecFmt.str Dec.ltb Dec.leb Dec.eqb.

Ltac constant_nonneg c :=
  let H := fresh "Hc" in
  pose proof (proj1 (leb_value (Dec.of_Z 0) c) ltac:(vm_compute; reflexivity)) as H;
  rewrite value_of_Z in H.

Lemma premiumIncome_nonneg gross : (0 <= value (premiumIncome gross))%R.
Proof. apply max_zero_nonneg. Qed.

Lemma premiumIncome_bounded gross : Z.abs (Dec.coeff (premiumIncome gross)) < 10 ^ Dec.prec.
Proof. apply max_bounded; [apply sub_bounded | apply of_Z_0_bounded]. Qed.

(** A capped base at a rate lies between 0 and the cap at that rate. *)
Lemma capped_rate_bounds x cap rate :
  (0 <= value x)%R -> (0 <= value cap)%R -> (0 <= value rate)%R ->
  (0 <= value (Dec.mul (Dec.min x cap) rate) <= value (Dec.mul cap rate))%R.
Proof.
  intros Hx Hcap Hr. split.
  - apply mul_nonneg; [|assumption]. rewrite value_min. apply Rmin_glb; assumption.
  - apply mul_mono_nonneg_r; [assumption|]. rewrite value_min. apply Rmin_r.
Qed.

Lemma rawPremium_bounds pi : (0 <= value pi)%R ->
  (0 <= value (rawPremium pi)
   <= value (Dec.mul Curacao.AOV_AWW_MAX_MONTHLY Curacao.AOV_AWW_EMPLOYEE_RATE))%R.
Proof.
  intros Hpi. constant_nonneg Curacao.AOV_AWW_MAX_MONTHLY.
  constant_nonneg Curacao.AOV_AWW_EMPLOYEE_RATE.
  apply capped_rate_bounds; assumption.
Qed.

Lemma finalPrimaryPremium_bounds pi : (0 <= value pi)%R ->
  (0 <= value (finalPrimaryPremium pi) <= value (rawPremium pi))%R.
Proof.
  intros Hpi. unfold finalPrimaryPremium. split; [apply max_zero_nonneg|].
  rewrite value_max, value_of_Z. apply Rmax_lub.
  - apply sub_le_self; [apply mul_bounded | apply korting_nonneg].
  - apply rawPremium_bounds. assumption.
Qed.

Lemma rawPremium_le_income pi :
  (0 <= value pi)%R -> Z.abs (Dec.coeff pi) < 10 ^ Dec.prec ->
  (value (rawPremium pi) <= value pi)%R.
Proof.
  intros Hpi Hb. unfold rawPremium.
  assert (Hr : (value Curacao.AOV_AWW_EMPLOYEE_RATE <= 1)%R).
  { pose proof (proj1 (leb_value Curacao.AOV_AWW_EMPLOYEE_RATE (Dec.of_Z 1))
                  ltac:(vm_compute; reflexivity)) as H.
    rewrite value_of_Z in H. exact H. }
  constant_nonneg Curacao.AOV_AWW_MAX_MONTHLY.
  assert (Hm : Z.abs (Dec.coeff (Dec.min pi Curacao.AOV_AWW_MAX_MONTHLY)) < 10 ^ Dec.prec).
  { apply min_bounded; [assumption | apply div_bounded]. }
  eapply Rle_trans.
  - apply (mul_le_self _ _ Hm); [|exact Hr]. rewrite value_min. apply Rmin_glb; assumption.
  - rewrite value_min. apply Rmin_l.
Qed.

Lemma sliding_discount_bounds A :
  (0 <= value (sliding_discount A) <= 1)%R.
Proof.
  unfold sliding_discount.
  repeat match goal with |- context [Dec.ltb ?a ?b] => destruct (Dec.ltb a b) end;
    unfold value; cbn [Dec.coeff Dec.expo];
    change (powerRZ 10 (-3)) with (/ (10 * (10 * (10 * 1))))%R; lra.
Qed.

Lemma bvz_premium_bounds pi : (0 <= value pi)%R ->
  (0 <= value (bvz_premium pi)
   <= value (Dec.mul Curacao.BVZ_MAX_MONTHLY Curacao.BVZ_EMPLOYEE_RATE))%R.
Proof.
  intros Hpi. constant_nonneg Curacao.BVZ_MAX_MONTHLY.
  constant_nonneg Curacao.BVZ_EMPLOYEE_RATE.
  pose proof (capped_rate_bounds pi _ _ Hpi Hc Hc0) as Hstd. fold (bvz_standard pi) in Hstd.
  unfold bvz_premium.
  destruct (Dec.ltb (Dec.mul pi (Dec.of_Z 12)) (mkDecimal 12000 0)).
  - rewrite value_of_Z. lra.
  - destruct (Dec.ltb (Dec.mul pi (Dec.of_Z 12)) (mkDecimal 18000 0)); [|exact Hstd].
    pose proof (sliding_discount_bounds (Dec.mul pi (Dec.of_Z 12))) as Hd.
    assert (Hb : Z.abs (Dec.coeff (bvz_standard pi)) < 10 ^ Dec.prec) by apply mul_bounded.
    split.
    + apply sub_nonneg. apply mul_le_self; [assumption | lra | lra].
    + eapply Rle_trans; [|apply Hstd].
      apply sub_le_self; [assumption|]. apply mul_nonneg; lra.
Qed.

Lemma avbz_amount_bounds pi : (0 <= value pi)%R ->
  (0 <= value (avbz_amount pi)
   <= value (Dec.mul Curacao.AVBZ_MAX_MONTHLY Curacao.AVBZ_EMPLOYEE_RATE))%R.
Proof.
  intros Hpi. constant_nonneg Curacao.AVBZ_MAX_MONTHLY.
  unfold avbz_amount, avbz_rate.
  destruct (Dec.ltb (Dec.mul pi (Dec.of_Z 12)) Curacao.AVBZ_REDUCED_THRESHOLD).
  - constant_nonneg Curacao.AVBZ_REDUCED_EMPLOYEE.
    pose proof (capped_rate_bounds pi _ _ Hpi Hc Hc0) as [H1 H2]. split; [exact H1|].
    eapply Rle_trans; [exact H2|].
    apply leb_value. vm_compute. reflexivity.
  - constant_nonneg Curacao.AVBZ_EMPLOYEE_RATE.
    apply capped_rate_bounds; assumption.
Qed.

Lemma korting_le_annual A : (0 <= value A)%R ->
  (value (Curacao.calculate_aov_aww_korting_monthly A)
   <= value (Dec.mul Curacao.KORTING_BASE Curacao.KORTING_RATE))%R.
Proof.
  intros HA. unfold Curacao.calculate_aov_aww_korting_monthly.
  constant_nonneg (Dec.mul Curacao.KORTING_BASE Curacao.KORTING_RATE).
  destruct (Dec.leb Curacao.KORTING_MAX_INCOME A); [rewrite value_of_Z; exact Hc|].
  set (annual := Dec.max _ (Dec.of_Z 0)).
  assert (Hb : Z.abs (Dec.coeff annual) < 10 ^ Dec.prec).
  { apply max_bounded; [apply mul_bounded | apply of_Z_0_bounded]. }
  pose proof (div_abs_le annual (Dec.of_Z 12) Hb eq_refl ltac:(cbn; lia)) as Hd.
  assert (Hn : (0 <= value annual)%R) by apply max_zero_nonneg.
  assert (Hq : (0 <= value (Dec.div annual (Dec.of_Z 12)))%R).
  { apply div_nonneg; [assumption | rewrite value_of_Z; lra]. }
  rewrite !Rabs_pos_eq in Hd by assumption.
  eapply Rle_trans; [exact Hd|].
  unfold annual. rewrite value_max, value_of_Z. apply Rmax_lub; [|exact Hc].
  constant_nonneg Curacao.KORTING_RATE. constant_nonneg Curacao.KORTING_PERCENTAGE.
  apply mul_mono_nonneg_r; [assumption|].
  apply sub_le_self; [vm_compute; reflexivity|]. apply mul_nonneg; assumption.
Qed.

Lemma annual_nonneg pi : (0 <= value pi)%R -> (0 <= value (Dec.mul pi (Dec.of_Z 12)))%R.
Proof. intros H. apply mul_nonneg; [assumption | rewrite value_of_Z; lra]. Qed.

Lemma taxBase_bounds gross :
  (0 <= value (taxBase gross) <= value (premiumIncome gross))%R.
Proof.
  pose proof (premiumIncome_nonneg gross) as Hpi.
  pose proof (premiumIncome_bounded gross) as Hb.
  pose proof (finalPrimaryPremium_bounds _ Hpi) as [Hf0 Hf1].
  pose proof (rawPremium_le_income _ Hpi Hb) as Hraw.
  unfold taxBase. split.
  - apply sub_nonneg. lra.
  - apply sub_le_self; assumption.
Qed.

(** X9.  The premium income of the Curaçao calculator is never negative, the
    final AOV/AWW premium lies between 0 and the premium income, and the tax
    base that a standard tax calculation records on its TAX line item lies
    between 0 and the premium income, whatever the gross. *)
Theorem tax_base_within_premium_income (file : tax_table_file)
    (employee : EmployeeInput.t) (gross : Decimal) (s : CalcState) :
  let premium_income := Curacao.calculate_premium_income_monthly gross in
  Dec.leb (Dec.of_Z 0) premium_income = true /\
  Dec.leb (Dec.of_Z 0) (Curacao.aov_aww_final_of premium_income) = true /\
  Dec.leb (Curacao.aov_aww_final_of premium_income) premium_income = true /\
  (forall tax s',
     EmployeeInput.tax_exempt employee = false ->
     EmployeeInput.tax_percentage employee = None ->
     Curacao.calculate_tax file employee gross s = Some (tax, s') ->
     exists item tax_base,
       line_items s' = (line_items s ++ [item])%list /\
       PayrollLineItem.base_amount item = Some tax_base /\
       tax_base = Dec.sub premium_income (Curacao.aov_aww_final_of premium_income) /\
       Dec.leb (Dec.of_Z 0) tax_base = true /\
       Dec.leb tax_base premium_income = true).
Proof.
  cbv zeta. change (Curacao.calculate_premium_income_monthly gross) with (premiumIncome gross).
  rewrite aov_aww_final_is_finalPrimaryPremium.
  pose proof (premiumIncome_nonneg gross) as Hpi.
  pose proof (premiumIncome_bounded gross) as Hb.
  pose proof (finalPrimaryPremium_bounds _ Hpi) as [Hf0 Hf1].
  pose proof (rawPremium_le_income _ Hpi Hb) as Hraw.
  pose proof (taxBase_bounds gross) as [Ht0 Ht1].
  split; [apply leb_value; rewrite value_of_Z; exact Hpi|].
  split; [apply leb_value; rewrite value_of_Z; exact Hf0|].
  split; [apply leb_value; lra|].
  intros tax s' Hex Hpct H.
  rewrite (calculate_tax_standard file employee gross s Hex Hpct) in H.
  destruct (gross_tax file (taxBase gross)) as [t|]; [|discriminate].
        destruct (floored_tax t) as [final|] eqn:Efinal; [|discriminate].
  cbv zeta in H.
  match type of H with
  | context [round_currency ?x] => destruct (round_currency x) as [a|]; [|discriminate]
  end.
  inversion H; subst. eexists. exists (taxBase gross).
  cbn [line_items PayrollLineItem.base_amount].
  split; [reflexivity|]. split; [reflexivity|]. split; [reflexivity|].
  split; apply leb_value; [rewrite value_of_Z|]; assumption.
Qed.

Lemma tax_base_within_premium_income_witness :
  exists tax s' item tax_base,
    Curacao.calculate_tax None (sample_employee (mkDecimal 400000 (-2)))
      (mkDecimal 400000 (-2)) (mkState [] [] []) = Some (tax, s') /\
    line_items s' = [item] /\
    PayrollLineItem.base_amount item = Some tax_base /\
    Dec.leb (Dec.of_Z 0) tax_base = true /\
    Dec.leb tax_base (mkDecimal 400000 (-2)) = true.
Proof.
  destruct (Curacao.calculate_tax None (sample_employee (mkDecimal 400000 (-2)))
              (mkDecimal 400000 (-2)) (mkState [] [] [])) as [[tax s']|] eqn:E;
    [|vm_compute in E; discriminate].
  destruct (tax_base_within_premium_income None (sample_employee (mkDecimal 400000 (-2)))
              (mkDecimal 400000 (-2)) (mkState [] [] []))
    as (_ & _ & _ & H).
  destruct (H tax s' eq_refl eq_refl E) as (item & tax_base & Hl & Hb & Heq & H0 & H1).
  exists tax, s', item, tax_base. split; [reflexivity|]. split; [exact Hl|].
  split; [exact Hb|]. split; [exact H0|].
  rewrite Heq. vm_compute. reflexivity.
Defined.

(** X10.  The contributions the Curaçao social-security stage returns are
    AOV_AWW, BVZ, AVBZ and CESANTIA, in that order.  Each of the first three
    lies between 0 and its capped monthly base at the employee rate, whatever
    the gross; CESANTIA, which the employer pays, is 0.  The St. Maarten
    contribution never exceeds its capped base at the rate, and is not
    negative for a gross that is not negative. *)
Theorem contribution_ceilings :
  (forall employee gross s c s',
     Curacao.calculate_social_security employee gross s = Some (c, s') ->
     exists aov_aww bvz avbz,
       c = [("AOV_AWW", aov_aww); ("BVZ", bvz); ("AVBZ", avbz); ("CESANTIA", Dec.of_Z 0)] /\
       Dec.leb (Dec.of_Z 0) aov_aww = true /\
       Dec.leb aov_aww
         (Dec.mul Curacao.AOV_AWW_MAX_MONTHLY Curacao.AOV_AWW_EMPLOYEE_RATE) = true /\
       Dec.leb (Dec.of_Z 0) bvz = true /\
       Dec.leb bvz (Dec.mul Curacao.BVZ_MAX_MONTHLY Curacao.BVZ_EMPLOYEE_RATE) = true /\
       Dec.leb (Dec.of_Z 0) avbz = true /\
       Dec.leb avbz (Dec.mul Curacao.AVBZ_MAX_MONTHLY Curacao.AVBZ_EMPLOYEE_RATE) = true) /\
  (forall employee gross s c s',
     StMaarten.calculate_social_security employee gross s = Some (c, s') ->
     exists social_sec,
       c = [("SOCIAL_SEC", social_sec)] /\
       Dec.leb social_sec
         (Dec.mul StMaarten.SOCIAL_SECURITY_MAX StMaarten.SOCIAL_SECURITY_RATE) = true /\
       (Dec.leb (Dec.of_Z 0) gross = true -> Dec.leb (Dec.of_Z 0) social_sec = true)).
Proof.
  split.
  - intros employee gross s c s' H. rewrite calculate_social_security_eq in H.
    destruct (round_items _); [|discriminate]. inversion H; subst; clear H.
    pose proof (premiumIncome_nonneg gross) as Hpi.
    pose proof (finalPrimaryPremium_bounds _ Hpi) as [Hf0 Hf1].
    pose proof (rawPremium_bounds _ Hpi) as [_ Hr1].
    pose proof (bvz_premium_bounds _ Hpi) as [Hb0 Hb1].
    pose proof (avbz_amount_bounds _ Hpi) as [Ha0 Ha1].
    unfold social_security_contributions. eexists _, _, _. split; [reflexivity|].
    assert (Haov : (0 <= value (if EmployeeInput.aov_exempt employee then Dec.of_Z 0
                                else finalPrimaryPremium (premiumIncome gross))
                    <= value (Dec.mul Curacao.AOV_AWW_MAX_MONTHLY
                                      Curacao.AOV_AWW_EMPLOYEE_RATE))%R).
    { destruct (EmployeeInput.aov_exempt employee); [|lra].
      rewrite value_of_Z. split; [lra|].
      constant_nonneg (Dec.mul Curacao.AOV_AWW_MAX_MONTHLY Curacao.AOV_AWW_EMPLOYEE_RATE).
      exact Hc. }
    repeat (split; [apply leb_value; rewrite ?value_of_Z; lra|]).
    apply leb_value; lra.
  - intros employee gross s c s' H.
    unfold StMaarten.calculate_social_security, bind, add_line_item, ret in H.
    destruct (round_currency _); [|discriminate]. inversion H; subst; clear H.
    eexists. split; [reflexivity|].
    constant_nonneg StMaarten.SOCIAL_SECURITY_MAX.
    constant_nonneg StMaarten.SOCIAL_SECURITY_RATE.
    split.
    + apply leb_value. apply mul_mono_nonneg_r; [assumption|].
      rewrite value_min. apply Rmin_r.
    + intros Hg. apply leb_value in Hg. rewrite value_of_Z in Hg.
      apply leb_value. rewrite value_of_Z.
      apply (capped_rate_bounds gross _ _ Hg Hc Hc0).
Qed.

Lemma contribution_ceilings_witness :
  exists c s',
    Curacao.calculate_social_security (sample_employee (mkDecimal 2000000 (-2)))
      (mkDecimal 2000000 (-2)) (mkState [] [] []) = Some (c, s') /\
    dict_keys c = ["AOV_AWW"; "BVZ"; "AVBZ"; "CESANTIA"] /\
    dict_get "CESANTIA" c = Some (Dec.of_Z 0) /\
    Dec.leb (Dec.mul Curacao.AOV_AWW_MAX_MONTHLY Curacao.AOV_AWW_EMPLOYEE_RATE)
            (mkDecimal 54167 (-2)) = true.
Proof.
  destruct (Curacao.calculate_social_security (sample_employee (mkDecimal 2000000 (-2)))
              (mkDecimal 2000000 (-2)) (mkState [] [] [])) as [[c s']|] eqn:E;
    [|vm_compute in E; discriminate].
  destruct contribution_ceilings as [H _].
  destruct (H _ _ _ _ _ E) as (aov & bvz & avbz & Hc & _).
  exists c, s'. split; [reflexivity|]. rewrite Hc.
  split; [reflexivity|]. split; [reflexivity|]. vm_compute. reflexivity.
Defined.

(** Every amount the Curaçao social-security stage hands to the ledger can
    be rounded. *)
Lemma social_security_entries_round employee pi : (0 <= value pi)%R ->
  exists items, round_items (social_security_entries employee pi) = Some items.
Proof.
  intros Hpi.
  pose proof (rawPremium_bounds _ Hpi) as [Hr0 Hr1].
  pose proof (bvz_premium_bounds _ Hpi) as [Hb0 Hb1].
  pose proof (avbz_amount_bounds _ Hpi) as [Ha0 Ha1].
  pose proof (korting_nonneg (Dec.mul pi (Dec.of_Z 12))) as Hk0.
  pose proof (korting_le_annual _ (annual_nonneg _ Hpi)) as Hk1.
  assert (Hsome : forall x, (exists r, Dec.quantize_cents x = Some r) ->
                            round_currency x <> None).
  { intros x [r Hr]. unfold round_currency. rewrite Hr. discriminate. }
  apply round_items_defined.
  unfold social_security_entries. apply Forall_app. split.
  - destruct (EmployeeInput.aov_exempt employee); [constructor|].
    unfold aov_aww_entries. constructor; [|constructor; [|constructor]];
      cbn [PayrollLineItem.amount]; apply Hsome.
    + eapply quantize_cents_defined_between; [exact Hr0 | exact Hr1|].
      vm_compute. reflexivity.
    + apply quantize_cents_defined.
      rewrite (value_neg _ (korting_bounded _)), Rabs_Ropp, Rabs_pos_eq by assumption.
      eapply Rle_trans; [exact Hk1|].
      pose proof (proj1 (leb_value (Dec.mul Curacao.KORTING_BASE Curacao.KORTING_RATE)
                                   (mkDecimal 1 25)) ltac:(vm_compute; reflexivity)) as H.
      replace (value (mkDecimal 1 25)) with (powerRZ 10 25) in H
        by (unfold value; cbn [Dec.coeff Dec.expo]; lra).
      exact H.
  - constructor; [|constructor; [|constructor]]; apply Hsome.
    + destruct (bvz_entry_facts pi) as (_ & _ & Hamount & _). rewrite Hamount.
      eapply quantize_cents_defined_between; [exact Hb0 | exact Hb1|].
      vm_compute. reflexivity.
    + cbn [avbz_entry PayrollLineItem.amount].
      eapply quantize_cents_defined_between; [exact Ha0 | exact Ha1|].
      vm_compute. reflexivity.
Qed.

(** X11.  The social-security stage of the Curaçao calculator never raises
    on a gross inside the exponent range: whatever the size of the gross
    there and the flags of the employee, every amount it hands to the ledger
    can be rounded, and it returns its contributions. *)
Theorem curacao_social_security_never_raises (employee : EmployeeInput.t)
    (gross : Decimal) (s : CalcState) :
  Dec.in_exponent_range gross = true ->
  exists contributions items,
    Curacao.calculate_social_security employee gross s
    = Some (contributions,
            mkState (line_items s ++ items)
                    (warnings s ++ social_security_warnings employee) (notes s)) /\
    dict_keys contributions = ["AOV_AWW"; "BVZ"; "AVBZ"; "CESANTIA"].
Proof.
  intros _. rewrite calculate_social_security_eq.
  destruct (social_security_entries_round employee (premiumIncome gross)
              (premiumIncome_nonneg gross)) as [items Hitems].
  rewrite Hitems. eexists _, items. split; reflexivity.
Qed.

Lemma curacao_social_security_never_raises_witness :
  Dec.in_exponent_range (mkDecimal 1 1000) = true /\
  exists contributions items,
    Curacao.calculate_social_security employee_aov_exempt (mkDecimal 1 1000)
      (mkState [] [] [])
    = Some (contributions,
            mkState (line_items (mkState [] [] []) ++ items)
                    (warnings (mkState [] [] [])
                     ++ social_security_warnings employee_aov_exempt)
                    (notes (mkState [] [] []))) /\
    dict_keys contributions = ["AOV_AWW"; "BVZ"; "AVBZ"; "CESANTIA"].
Proof.
  split; [vm_compute; reflexivity|].
  apply (curacao_social_security_never_raises employee_aov_exempt (mkDecimal 1 1000)
           (mkState [] [] [])).
  vm_compute. reflexivity.
Defined.

Local Transparent Dec.div Dec.mul Dec.add Dec.sub Dec.max Dec.min Dec.neg Dec.quantize_cents
  DecFmt.format_f DecFmt.str Dec.ltb Dec.leb Dec.eqb.

End PremiumSizes.

(* ================================================================== *)
(** ** The bracket evaluator on the tables of the four calculators *)
(* ================================================================== *)

Section BracketTables.
Import DecSem DecFacts Spec.

Local Opaque Dec.div Dec.mul Dec.add Dec.sub Dec.max Dec.min Dec.neg Dec.quantize_cents
  DecFmt.format_f DecFmt.str Dec.ltb Dec.leb Dec.eqb.

Lemma progressive_tax_defined brackets :
  valid_brackets brackets = true ->
  capped_brackets BRACKETS_END brackets = true ->
  Dec.leb (fst (progressive_loop BRACKETS_END brackets (Dec.of_Z 0) [])) (mkDecimal 1 25)
    = true ->
  forall base,
    exists t note,
      calculate_progressive_tax base brackets = Some (t, note) /\
      exists cap_tax cap_note,
        calculate_progressive_tax BRACKETS_END brackets = Some (cap_tax, cap_note) /\
        (0 <= value t <= value cap_tax)%R.
Proof.
  intros Hv Hc Hsmall base.
  assert (Hz : Z.abs (Dec.coeff (Dec.of_Z 0)) < 10 ^ Dec.prec) by (vm_compute; reflexivity).
  pose proof (progressive_loop_ge base brackets (Dec.of_Z 0) [] Hv Hz) as Hge.
  pose proof (progressive_loop_ge BRACKETS_END brackets (Dec.of_Z 0) [] Hv Hz) as Hge'.
  pose proof (progressive_loop_capped BRACKETS_END base brackets
                (Dec.of_Z 0) (Dec.of_Z 0) [] [] Hv Hc (Rle_refl _) Hz) as Hle.
  rewrite value_of_Z in Hge, Hge'.
  unfold calculate_progressive_tax.
  destruct (progressive_loop base brackets (Dec.of_Z 0) []) as [raw parts].
  destruct (progressive_loop BRACKETS_END brackets (Dec.of_Z 0) []) as [craw cparts].
  cbn [fst] in *.
  destruct (quantize_cents_defined_between raw craw Hge Hle Hsmall) as [t Ht].
  destruct (quantize_cents_defined_between craw craw Hge' (Rle_refl _) Hsmall) as [ct Hct].
  unfold round_currency. rewrite Ht, Hct.
  eexists _, _. split; [reflexivity|]. eexists _, _. split; [reflexivity|].
  split.
  - assert (H0 : Dec.quantize_cents (Dec.of_Z 0) = Some (mkDecimal 0 (-2)))
      by (vm_compute; reflexivity).
    pose proof (quantize_cents_mono _ _ _ _ H0 Ht) as Hm.
    rewrite value_of_Z in Hm. specialize (Hm Hge).
    rewrite value_zero_coeff in Hm. exact Hm.
  - exact (quantize_cents_mono _ _ _ _ Ht Hct Hle).
Qed.

(** X12.  On the bracket table of each of the four calculators the
    progressive evaluator returns for every base, negative and huge ones
    included.  The tax is never negative and never exceeds the tax of a base
    of 999,999,999, where the last bracket of every table ends: what lies
    above that amount is not taxed.  Hence the tax stage of St. Maarten,
    Aruba and Bonaire never raises. *)
Theorem bracket_tax_never_raises (j : Jurisdiction) :
  (forall base,
     exists tax note cap_tax cap_note,
       calculate_progressive_tax base (TAX_BRACKETS_of j) = Some (tax, note) /\
       calculate_progressive_tax BRACKETS_END (TAX_BRACKETS_of j)
         = Some (cap_tax, cap_note) /\
       Dec.leb (Dec.of_Z 0) tax = true /\ Dec.leb tax cap_tax = true) /\
  (forall file employee gross s,
     j <> curacao ->
     exists tax s',
       calculate_tax (CALCULATORS file j) employee gross s = Some (tax, s') /\
       Dec.leb (Dec.of_Z 0) tax = true).
Proof.
  assert (Hall : forall base,
     exists tax note cap_tax cap_note,
       calculate_progressive_tax base (TAX_BRACKETS_of j) = Some (tax, note) /\
       calculate_progressive_tax BRACKETS_END (TAX_BRACKETS_of j)
         = Some (cap_tax, cap_note) /\
       Dec.leb (Dec.of_Z 0) tax = true /\ Dec.leb tax cap_tax = true).
  { intros base.
    assert (Hv : valid_brackets (TAX_BRACKETS_of j) = true)
      by (destruct j; vm_compute; reflexivity).
    assert (Hc : capped_brackets BRACKETS_END (TAX_BRACKETS_of j) = true)
      by (destruct j; vm_compute; reflexivity).
    assert (Hs : Dec.leb (fst (progressive_loop BRACKETS_END (TAX_BRACKETS_of j)
                                 (Dec.of_Z 0) [])) (mkDecimal 1 25) = true)
      by (destruct j; vm_compute; reflexivity).
    destruct (progressive_tax_defined (TAX_BRACKETS_of j) Hv Hc Hs base)
      as (t & note & Ht & ct & cnote & Hct & H0 & H1).
    exists t, note, ct, cnote. split; [exact Ht|]. split; [exact Hct|].
    split; apply leb_value; rewrite ?value_of_Z; assumption. }
  split; [exact Hall|].
  intros file employee gross s Hj.
  assert (Hbracket : forall tax_name,
            exists tax s',
              bracket_calculate_tax (TAX_BRACKETS_of j) tax_name employee gross s
                = Some (tax, s') /\
              Dec.leb (Dec.of_Z 0) tax = true).
  { intros tax_name. destruct (Hall gross) as (t & note & _ & _ & Ht & _ & H0 & _).
    assert (Hr : round_currency t = Some t).
    { unfold calculate_progressive_tax in Ht.
      destruct (progressive_loop gross (TAX_BRACKETS_of j) (Dec.of_Z 0) []) as [raw parts].
      destruct (round_currency raw) as [t'|] eqn:E; [|discriminate].
      inversion Ht; subst. exact (quantize_cents_idem _ _ E). }
    unfold bracket_calculate_tax, bind, lift_option. rewrite Ht.
    unfold add_line_item, ret. rewrite Hr.
    eexists. eexists. split; [reflexivity | exact H0]. }
  destruct j; [contradiction | | exact (Hbracket "Income Tax") | exact (Hbracket "Payroll Tax")].
  change (calculate_tax (CALCULATORS file st_maarten) employee gross s)
    with (StMaarten.calculate_tax employee gross s).
  unfold StMaarten.calculate_tax.
  destruct (EmployeeInput.tax_exempt employee); [|exact (Hbracket "Income Tax")].
  assert (Hz : round_currency (Dec.of_Z 0) = Some (mkDecimal 0 (-2)))
    by (vm_compute; reflexivity).
  unfold bind, add_line_item, ret. rewrite Hz.
  exists (Dec.of_Z 0). eexists. split; [reflexivity|]. vm_compute. reflexivity.
Qed.

Lemma bracket_tax_never_raises_witness :
  exists tax s',
    calculate_tax (CALCULATORS None aruba) aruba_exempt (mkDecimal 1 30) (mkState [] [] [])
      = Some (tax, s') /\
    tax = mkDecimal 44999900955 (-2).
Proof.
  destruct (proj2 (bracket_tax_never_raises aruba) None aruba_exempt (mkDecimal 1 30)
              (mkState [] [] [])) as (tax & s' & H & _); [discriminate|].
  exists tax, s'. split; [exact H|].
  vm_compute in H. inversion H. reflexivity.
Defined.

Local Transparent Dec.div Dec.mul Dec.add Dec.sub Dec.max Dec.min Dec.neg Dec.quantize_cents
  DecFmt.format_f DecFmt.str Dec.ltb Dec.leb Dec.eqb.

End BracketTables.

(* ================================================================== *)
(** ** The table loader and the lookup on the loaded table *)
(* ================================================================== *)

Section TableLoader.
Import Spec.

Lemma load_rows_well_formed rows : forall table,
  CuracaoTable.load_rows (map CuracaoTable.cells_of rows) table = Some (table ++ rows)%list.
Proof.
  induction rows as [|[[a b] c] rows IH]; intros table;
    cbn [map CuracaoTable.load_rows CuracaoTable.cells_of fst snd].
  - rewrite app_nil_r. reflexivity.
  - rewrite IH, <- app_assoc. reflexivity.
Qed.

Lemma cells_of_finite_row rows :
  map cells_of_row rows = map CuracaoTable.cells_of (map CuracaoTable.finite_row rows).
Proof. rewrite map_map. apply map_ext. intros [[a b] c]. reflexivity. Qed.

(** A row that stops the load, wherever it stands. *)
Lemma load_rows_stopped bad post :
  (forall table, CuracaoTable.load_rows (bad :: post) table = None) ->
  forall before table, CuracaoTable.load_rows (before ++ bad :: post)%list table = None.
Proof.
  intros Hbad. induction before as [|row before IH]; intros table; [apply Hbad|].
  cbn [app CuracaoTable.load_rows].
  destruct row as [|c0 [|c1 [|c2 r]]]; try destruct c0; try destruct c1; try destruct c2;
    try reflexivity; apply IH.
Qed.

Lemma load_rows_malformed bad post : malformed_row bad = true ->
  forall before table, CuracaoTable.load_rows (before ++ bad :: post)%list table = None.
Proof.
  intros Hbad. apply load_rows_stopped. intros table. cbn [CuracaoTable.load_rows].
  destruct bad as [|c0 [|c1 [|c2 r]]]; try discriminate.
  destruct c0, c1, c2; try discriminate; reflexivity.
Qed.

Lemma load_rows_short bad post : CuracaoTable.short_row bad = true ->
  forall before table, CuracaoTable.load_rows (before ++ bad :: post)%list table = None.
Proof.
  intros Hbad. apply load_rows_stopped. intros table. cbn [CuracaoTable.load_rows].
  destruct bad as [|c0 [|c1 [|c2 r]]]; try discriminate.
  - destruct c0; try discriminate; reflexivity.
  - destruct c0, c1; try discriminate; reflexivity.
Qed.

Lemma load_rows_unguarded skip post : CuracaoTable.unguarded_row skip = true ->
  forall before table,
    CuracaoTable.load_rows (before ++ skip :: post)%list table
    = CuracaoTable.load_rows (before ++ post)%list table.
Proof.
  intros Hskip. induction before as [|row before IH]; intros table.
  - cbn [app CuracaoTable.load_rows].
    destruct skip as [|c0 [|c1 [|c2 r]]]; try reflexivity;
      try destruct c0; try destruct c1; try destruct c2; try discriminate Hskip;
      reflexivity.
  - cbn [app CuracaoTable.load_rows].
    destruct row as [|c0 [|c1 [|c2 r]]]; try destruct c0; try destruct c1; try destruct c2;
      try reflexivity; apply IH.
Qed.

Lemma first_in_range_find base table :
  CuracaoTable.first_in_range base (map CuracaoTable.finite_row table)
  = Some (option_map (fun r => Finite (row_tax r)) (find (in_range base) table)).
Proof.
  induction table as [|[[a b] c] table IH]; [reflexivity|].
  cbn [map CuracaoTable.finite_row CuracaoTable.first_in_range find fst snd
       table_leb table_gtb].
  unfold in_range at 1. cbn [fst snd].
  destruct (Dec.leb a base); cbn [andb]; [|exact IH].
  destruct (Dec.ltb base b); [reflexivity | exact IH].
Qed.

Lemma last_finite_row rest row :
  snd (last (map CuracaoTable.finite_row rest) (CuracaoTable.finite_row row))
  = Finite (row_tax (last rest row)).
Proof.
  revert row. induction rest as [|r rest IH]; intros row; [reflexivity|].
  cbn [map]. rewrite !last_cons. apply IH.
Qed.

Lemma load_tax_table_well_formed header rows :
  CuracaoTable.load_tax_table (Some (header :: map CuracaoTable.cells_of rows)) None
  = (Some rows, Some rows).
Proof.
  cbn [CuracaoTable.load_tax_table]. rewrite load_rows_well_formed. reflexivity.
Qed.

(** X13.  [load_tax_table] loads a file all or nothing, and keeps what it
    loaded.  Rows of three values that [Decimal] accepts load in file order.
    A row whose first three cells are filled, one of them with a text that
    [Decimal] refuses, makes the whole load fail wherever it stands, and so
    does a row that ends after one or two filled cells; a failed load leaves
    the cache empty.  An empty row, a row without a lower bound and a row
    without a tax are passed over.  Once a table has loaded,
    every later call returns that table, whatever the file holds by then. *)
Theorem load_tax_table_all_or_nothing :
  (forall header rows,
     CuracaoTable.load_tax_table (Some (header :: map CuracaoTable.cells_of rows)) None
     = (Some rows, Some rows)) /\
  (forall header before bad post,
     malformed_row bad = true \/ CuracaoTable.short_row bad = true ->
     CuracaoTable.load_tax_table (Some (header :: before ++ bad :: post)%list) None
     = (None, None)) /\
  (forall header before skip post,
     CuracaoTable.unguarded_row skip = true ->
     CuracaoTable.load_tax_table (Some (header :: before ++ skip :: post)%list) None
     = CuracaoTable.load_tax_table (Some (header :: before ++ post)%list) None) /\
  (forall file, fst (CuracaoTable.load_tax_table file None) = None ->
                snd (CuracaoTable.load_tax_table file None) = None) /\
  (forall file table cache later,
     CuracaoTable.load_tax_table file None = (Some table, cache) ->
     CuracaoTable.load_tax_table later cache = (Some table, cache)).
Proof.
  split; [|split; [|split; [|split]]].
  - exact load_tax_table_well_formed.
  - intros header before bad post [Hbad|Hbad]; cbn [CuracaoTable.load_tax_table].
    + rewrite (load_rows_malformed bad post Hbad). reflexivity.
    + rewrite (load_rows_short bad post Hbad). reflexivity.
  - intros header before skip post Hskip. cbn [CuracaoTable.load_tax_table].
    rewrite (load_rows_unguarded skip post Hskip). reflexivity.
  - intros file H. destruct file as [[|header rows]|]; try reflexivity.
    cbn [CuracaoTable.load_tax_table] in *.
    destruct (CuracaoTable.load_rows rows []); [discriminate | reflexivity].
  - intros file table cache later H.
    destruct file as [[|header rows]|]; try discriminate.
    cbn [CuracaoTable.load_tax_table] in H.
    destruct (CuracaoTable.load_rows rows []); [|discriminate].
    inversion H; subst. reflexivity.
Qed.

Lemma load_tax_table_all_or_nothing_witness :
  CuracaoTable.load_tax_table table_with_bad_row None = (None, None) /\
  CuracaoTable.load_tax_table
    (Some [sample_header; [CellDecimal (mkDecimal 5 0); CellDecimal (mkDecimal 6 0)]]) None
  = (None, None) /\
  CuracaoTable.load_tax_table
    (Some [sample_header;
           [CellDecimal (mkDecimal 0 0); CellDecimal (mkDecimal 1000 0);
            CellDecimal (mkDecimal 50 0)];
           [CellDecimal (mkDecimal 1000 0); CellDecimal (mkDecimal 2000 0); CellEmpty]]) None
  = (Some [(Finite (mkDecimal 0 0), Finite (mkDecimal 1000 0), Finite (mkDecimal 50 0))],
     Some [(Finite (mkDecimal 0 0), Finite (mkDecimal 1000 0), Finite (mkDecimal 50 0))]) /\
  CuracaoTable.load_tax_table None
    (snd (CuracaoTable.load_tax_table
            (Some [sample_header;
                   [CellDecimal (mkDecimal 0 0); CellDecimal (mkDecimal 1000 0);
                    CellDecimal (mkDecimal 50 0)]]) None))
  = (Some [(Finite (mkDecimal 0 0), Finite (mkDecimal 1000 0), Finite (mkDecimal 50 0))],
     Some [(Finite (mkDecimal 0 0), Finite (mkDecimal 1000 0), Finite (mkDecimal 50 0))]) /\
  snd (CuracaoTable.load_tax_table None None) = None.
Proof.
  destruct load_tax_table_all_or_nothing as (Hgood & Hbad & Hskip & Hfail & Hcache).
  split; [|split; [|split; [|split]]].
  - exact (Hbad sample_header
             [[CellDecimal (mkDecimal 0 0); CellDecimal (mkDecimal 1000 0);
               CellDecimal (mkDecimal 50 0)]]
             [CellBad; CellBad; CellBad] [] (or_introl eq_refl)).
  - exact (Hbad sample_header [] [CellDecimal (mkDecimal 5 0); CellDecimal (mkDecimal 6 0)] []
             (or_intror eq_refl)).
  - refine (eq_trans
              (Hskip sample_header
                 [[CellDecimal (mkDecimal 0 0); CellDecimal (mkDecimal 1000 0);
                   CellDecimal (mkDecimal 50 0)]]
                 [CellDecimal (mkDecimal 1000 0); CellDecimal (mkDecimal 2000 0); CellEmpty]
                 [] eq_refl) _).
    exact (Hgood sample_header
             [(Finite (mkDecimal 0 0), Finite (mkDecimal 1000 0), Finite (mkDecimal 50 0))]).
  - exact (Hcache (Some [sample_header;
                         [CellDecimal (mkDecimal 0 0); CellDecimal (mkDecimal 1000 0);
                          CellDecimal (mkDecimal 50 0)]]) _ _ None eq_refl).
  - exact (Hfail None eq_refl).
Defined.

(** X14.  On a file whose rows below the header all hold three finite
    numbers, and that has at least one such row, the class method that looks
    a base up in the loaded table returns what the method that reads the
    file row by row returns.  On a file that holds the header only they
    differ: the class method returns a tax of 0, the other one
    NOT_AVAILABLE. *)
Theorem lookup_on_loaded_table_agrees :
  (forall header row rows base,
     fst (CuracaoTable.lookup_tax_from_table
            (Some (header :: map cells_of_row (row :: rows))) None base)
     = Some (Curacao.lookup_tax_from_table
               (Some (header :: map cells_of_row (row :: rows))) base)) /\
  (forall header base,
     fst (CuracaoTable.lookup_tax_from_table (Some [header]) None base)
     = Some (Some (Finite (Dec.of_Z 0))) /\
     Curacao.lookup_tax_from_table (Some [header]) base = None).
Proof.
  split.
  - intros header row rows base.
    unfold CuracaoTable.lookup_tax_from_table.
    rewrite cells_of_finite_row, load_tax_table_well_formed, first_in_range_find.
    rewrite <- cells_of_finite_row.
    cbn [Curacao.lookup_tax_from_table]. rewrite table_rows_loop_well_formed.
    destruct (find (in_range base) (row :: rows)); [reflexivity|].
    cbn [option_map map fst]. rewrite last_finite_row. reflexivity.
  - intros header base. split; reflexivity.
Qed.

End TableLoader.

(* ================================================================== *)
(** ** The validators and the endpoints *)
(* ================================================================== *)

Section EndpointFacts.
Import Spec.

Variable file : tax_table_file.
Variable str_e : string.

Lemma registry_get k :
  dict_get k (CALCULATORS_by_key file) = option_map (CALCULATORS file) (jurisdiction_of_key k).
Proof.
  unfold CALCULATORS_by_key, jurisdiction_of_key. cbn [dict_get].
  repeat match goal with |- context [String.eqb k ?c] => destruct (String.eqb k c) end;
    reflexivity.
Qed.

Lemma jurisdiction_of_key_some k j :
  jurisdiction_of_key k = Some j <-> k = jurisdiction_key j.
Proof.
  unfold jurisdiction_of_key. split.
  - repeat match goal with
           | |- context [String.eqb k ?c] =>
               let E := fresh "E" in
               destruct (String.eqb k c) eqn:E; [apply String.eqb_eq in E|]
           end; intros H; inversion H; subst; reflexivity.
  - intros ->. destruct j; reflexivity.
Qed.

Lemma in_valid_jurisdictions k :
  in_strings k VALID_JURISDICTIONS = match jurisdiction_of_key k with Some _ => true | None => false end.
Proof.
  unfold in_strings, VALID_JURISDICTIONS, jurisdiction_of_key. cbn [existsb].
  repeat match goal with |- context [String.eqb k ?c] => destruct (String.eqb k c) end;
    reflexivity.
Qed.

Lemma lower_char_idem c : Str.lower_char (Str.lower_char c) = Str.lower_char c.
Proof. destruct c as [[] [] [] [] [] [] [] []]; reflexivity. Qed.

Lemma lower_idem s : Str.lower (Str.lower s) = Str.lower s.
Proof.
  unfold Str.lower. induction s as [|c s IH]; [reflexivity|].
  cbn [Str.map_string]. rewrite lower_char_idem, IH. reflexivity.
Qed.

Lemma lower_key j : Str.lower (jurisdiction_key j) = jurisdiction_key j.
Proof. destruct j; reflexivity. Qed.

(** X15.  The validator of the [jurisdiction] field accepts a string when,
    and only when, its lower-case form is a key of the registry of
    calculators; the value it returns is that lower-case form, which it
    accepts again unchanged. *)
Theorem validate_jurisdiction_matches_registry (v : string) :
  match validate_jurisdiction v with
  | Some k =>
      k = Str.lower v /\ Str.lower k = k /\ validate_jurisdiction k = Some k /\
      exists j, k = jurisdiction_key j /\
                dict_get k (CALCULATORS_by_key file) = Some (CALCULATORS file j)
  | None => dict_get (Str.lower v) (CALCULATORS_by_key file) = None
  end.
Proof.
  unfold validate_jurisdiction. rewrite in_valid_jurisdictions, registry_get.
  destruct (jurisdiction_of_key (Str.lower v)) as [j|] eqn:E; cbn [negb option_map].
  - split; [reflexivity|]. split; [apply lower_idem|]. split.
    + rewrite lower_idem, in_valid_jurisdictions, E. reflexivity.
    + exists j. split; [apply jurisdiction_of_key_some; exact E|].
      rewrite registry_get, E. reflexivity.
  - reflexivity.
Qed.

Lemma calculate_copies calc employee r :
  calculate calc employee = Some r ->
  PayrollCalculationResult.employee_id r = EmployeeInput.employee_id employee /\
  PayrollCalculationResult.jurisdiction r = EmployeeInput.jurisdiction employee /\
  PayrollCalculationResult.period_start r = EmployeeInput.period_start employee /\
  PayrollCalculationResult.period_end r = EmployeeInput.period_end employee.
Proof.
  unfold calculate. destruct (run_stages calc employee _) as [[[[[g t] c] o] s]|]; [|discriminate].
  destruct (round_currency g); [|discriminate].
  destruct (round_currency _); [|discriminate].
  destruct (round_currency _); [|discriminate].
  intros H. inversion H. repeat split; reflexivity.
Qed.

(** X16.  The single-employee endpoint answers in one of three ways.  It
    returns a result only when the lower-cased jurisdiction of the URL is a
    key of the registry and equals the jurisdiction of the employee; the
    result is then the one the calculator of that jurisdiction computes, and
    it carries the employee's id and jurisdiction.  It raises 400 when the
    jurisdiction is unknown or differs from the employee's, and 500, with the
    text of the exception, when the calculation raises.  The case of the
    letters of the URL jurisdiction does not matter. *)
Theorem calculate_payroll_responses (url : string) (employee : EmployeeInput.t) :
  match calculate_payroll file str_e url employee with
  | Returned r =>
      exists j,
        Str.lower url = jurisdiction_key j /\
        EmployeeInput.jurisdiction employee = jurisdiction_key j /\
        calculate (CALCULATORS file j) employee = Some r /\
        PayrollCalculationResult.employee_id r = EmployeeInput.employee_id employee /\
        PayrollCalculationResult.jurisdiction r = jurisdiction_key j
  | Raised e =>
      (status_code e = 400 /\
       (validate_jurisdiction url = None \/
        EmployeeInput.jurisdiction employee <> Str.lower url)) \/
      (status_code e = 500 /\ detail e = "Calculation error: " ++ str_e /\
       exists j,
         Str.lower url = jurisdiction_key j /\
         EmployeeInput.jurisdiction employee = jurisdiction_key j /\
         calculate (CALCULATORS file j) employee = None)
  end /\
  calculate_payroll file str_e (Str.lower url) employee
  = calculate_payroll file str_e url employee.
Proof.
  split.
  - unfold calculate_payroll. rewrite registry_get.
    destruct (jurisdiction_of_key (Str.lower url)) as [j|] eqn:E; cbn [option_map].
    + apply jurisdiction_of_key_some in E.
      destruct (String.eqb (EmployeeInput.jurisdiction employee) (Str.lower url)) eqn:Ej;
        cbn [negb].
      * apply String.eqb_eq in Ej.
        destruct (calculate (CALCULATORS file j) employee) as [r|] eqn:Ec.
        -- exists j. destruct (calculate_copies _ _ _ Ec) as (Hid & Hj & _).
           rewrite Hj, Ej, E. auto.
        -- right. cbn [status_code detail]. split; [reflexivity|]. split; [reflexivity|].
           exists j. rewrite Ej, E. auto.
      * apply String.eqb_neq in Ej. left. cbn [status_code]. auto.
    + left. cbn [status_code]. split; [reflexivity|]. left.
      unfold validate_jurisdiction. rewrite in_valid_jurisdictions, E. reflexivity.
  - unfold calculate_payroll. rewrite lower_idem. reflexivity.
Qed.

(** A validated employee has a positive salary and the key of a calculator
    as its jurisdiction. *)
Lemma validated_employee_facts raw employee :
  validate_employee raw = Some employee ->
  Dec.ltb (Dec.of_Z 0) (EmployeeInput.gross_salary employee) = true /\
  exists j, EmployeeInput.jurisdiction employee = jurisdiction_key j.
Proof.
  unfold validate_employee. intros Hv.
  destruct (Dec.ltb (Dec.of_Z 0) (EmployeeInput.gross_salary raw)) eqn:Hs; [|discriminate].
  cbn [negb] in Hv.
  destruct (validate_jurisdiction (EmployeeInput.jurisdiction raw)) as [k|] eqn:Hk;
    [|discriminate].
  injection Hv as <-. cbn [EmployeeInput.jurisdiction EmployeeInput.gross_salary].
  split; [exact Hs|].
  unfold validate_jurisdiction in Hk. rewrite in_valid_jurisdictions in Hk.
  destruct (jurisdiction_of_key (Str.lower (EmployeeInput.jurisdiction raw))) as [j|] eqn:E;
    [|discriminate].
  cbn [negb] in Hk. injection Hk as Hk. rewrite Hk in E.
  exists j. apply jurisdiction_of_key_some. exact E.
Qed.

(** The endpoint called with the jurisdiction of the employee. *)
Lemma calculate_payroll_own employee j url :
  EmployeeInput.jurisdiction employee = jurisdiction_key j ->
  Str.lower url = EmployeeInput.jurisdiction employee ->
  calculate_payroll file str_e url employee =
    match calculate (CALCULATORS file j) employee with
    | Some r => Returned r
    | None => Raised (mkHTTPException 500 ("Calculation error: " ++ str_e))
    end.
Proof.
  intros Hj Hurl. unfold calculate_payroll. rewrite Hurl, registry_get, Hj.
  rewrite (proj2 (jurisdiction_of_key_some _ j) eq_refl). cbn [option_map].
  rewrite String.eqb_refl. cbn [negb]. reflexivity.
Qed.

(** X17.  An employee that passed the validators of the model and is posted
    to the URL of its own jurisdiction, in any case of letters, is never
    refused with 400: the endpoint returns what the calculator computes, or
    raises 500 when the calculation raises. *)
Theorem validated_employee_is_calculated (raw employee : EmployeeInput.t) (url : string) :
  validate_employee raw = Some employee ->
  Str.lower url = EmployeeInput.jurisdiction employee ->
  exists j,
    EmployeeInput.jurisdiction employee = jurisdiction_key j /\
    Dec.ltb (Dec.of_Z 0) (EmployeeInput.gross_salary employee) = true /\
    calculate_payroll file str_e url employee =
      match calculate (CALCULATORS file j) employee with
      | Some r => Returned r
      | None => Raised (mkHTTPException 500 ("Calculation error: " ++ str_e))
      end.
Proof.
  intros Hv Hurl. destruct (validated_employee_facts raw employee Hv) as (Hs & j & Hj).
  exists j. split; [exact Hj|]. split; [exact Hs|].
  apply calculate_payroll_own; assumption.
Qed.

End EndpointFacts.

Lemma validated_employee_is_calculated_witness :
  validate_employee employee_with_phone = Some employee_with_phone /\
  exists r, calculate_payroll None "InvalidOperation" "ARUBA" employee_with_phone = Returned r.
Proof.
  split; [vm_compute; reflexivity|].
  destruct (calculate (CALCULATORS None aruba) employee_with_phone) as [r|] eqn:E;
    [|vm_compute in E; discriminate].
  exists r.
  pose proof (validated_employee_is_calculated None "InvalidOperation"
                employee_with_phone employee_with_phone "ARUBA") as H.
  assert (Hv : validate_employee employee_with_phone = Some employee_with_phone)
    by (vm_compute; reflexivity).
  assert (Hl : Str.lower "ARUBA" = EmployeeInput.jurisdiction employee_with_phone)
    by (vm_compute; reflexivity).
  destruct (H Hv Hl) as (j & Hj & _ & Hcall).
  destruct j; try (exfalso; clear - Hj; vm_compute in Hj; discriminate).
  rewrite Hcall, E. reflexivity.
Defined.

(* ================================================================== *)
(** ** The batch endpoint *)
(* ================================================================== *)

Section Batch.
Import Spec.

Variable file : tax_table_file.
Variable str_e : string.

Lemma error_explained_shift validate_only idx employee rest err :
  error_explained file str_e validate_only (idx + 1) rest err ->
  error_explained file str_e validate_only idx (employee :: rest) err /\
  idx < BatchError.index err.
Proof.
  intros (Hle & e & Hnth & Hrest). split; [|lia]. split; [lia|]. exists e.
  split; [|exact Hrest].
  replace (Z.to_nat (BatchError.index err - idx))
    with (S (Z.to_nat (BatchError.index err - (idx + 1)))) by lia.
  exact Hnth.
Qed.

Lemma errors_shift validate_only idx employee rest new_errors :
  Forall (error_explained file str_e validate_only (idx + 1) rest) new_errors ->
  Forall (error_explained file str_e validate_only idx (employee :: rest)) new_errors /\
  Forall (Z.lt idx) (map BatchError.index new_errors).
Proof.
  intros H. split.
  - eapply Forall_impl; [|exact H]. intros err He.
    exact (proj1 (error_explained_shift _ _ employee _ _ He)).
  - rewrite Forall_map. eapply Forall_impl; [|exact H]. intros err He.
    exact (proj2 (error_explained_shift _ _ employee _ _ He)).
Qed.

(** What the loop adds to its accumulators for a list of employees. *)
Lemma batch_loop_spec validate_only employees : forall idx results errors sc ec,
  exists new_results new_errors,
    let resp := batch_loop file str_e validate_only idx employees results errors sc ec in
    BatchCalculationResponse.results resp = (results ++ new_results)%list /\
    BatchCalculationResponse.errors resp = (errors ++ new_errors)%list /\
    BatchCalculationResponse.success_count resp
      = sc + Z.of_nat (List.length employees) - Z.of_nat (List.length new_errors) /\
    BatchCalculationResponse.error_count resp = ec + Z.of_nat (List.length new_errors) /\
    new_results = (if validate_only then [] else calculated file employees) /\
    (validate_only = false ->
     Z.of_nat (List.length new_results) + Z.of_nat (List.length new_errors)
     = Z.of_nat (List.length employees)) /\
    Forall (error_explained file str_e validate_only idx employees) new_errors /\
    StronglySorted Z.lt (map BatchError.index new_errors).
Proof.
  induction employees as [|employee rest IH]; intros idx results errors sc ec.
  - exists [], []. cbv zeta. cbn [batch_loop BatchCalculationResponse.results
      BatchCalculationResponse.errors BatchCalculationResponse.success_count
      BatchCalculationResponse.error_count List.length map].
    rewrite !app_nil_r.
    split; [reflexivity|]. split; [reflexivity|]. split; [lia|]. split; [lia|].
    split; [destruct validate_only; reflexivity|]. split; [reflexivity|].
    split; constructor.
  - cbn [batch_loop]. rewrite registry_get.
    destruct (jurisdiction_of_key (Str.lower (EmployeeInput.jurisdiction employee)))
      as [j|] eqn:Ej; cbn [option_map].
    + destruct validate_only eqn:Evo.
      * destruct (IH (idx + 1) results errors (sc + 1) ec)
          as (nr & ne & Hr & He & Hsc & Hec & Hres & Hlen & Herr & Hsorted).
        cbv zeta in Hr, He, Hsc, Hec.
        destruct (errors_shift _ _ employee _ _ Herr) as [H1 H2].
        exists nr, ne. cbv zeta.
        split; [exact Hr|]. split; [exact He|].
        split; [rewrite Hsc; cbn [List.length]; lia|]. split; [exact Hec|].
        split; [exact Hres|]. split; [discriminate|]. split; assumption.
      * assert (Ho : batch_outcome file employee
                     = Some (calculate (CALCULATORS file j) employee))
          by (unfold batch_outcome; rewrite Ej; reflexivity).
        destruct (calculate (CALCULATORS file j) employee) as [r|] eqn:Ec.
        -- destruct (IH (idx + 1) (results ++ [r])%list errors (sc + 1) ec)
             as (nr & ne & Hr & He & Hsc & Hec & Hres & Hlen & Herr & Hsorted).
           cbv zeta in Hr, He, Hsc, Hec.
           destruct (errors_shift _ _ employee _ _ Herr) as [H1 H2].
           rewrite <- app_assoc in Hr. cbn [app] in Hr.
           exists (r :: nr), ne. cbv zeta.
           split; [exact Hr|]. split; [exact He|].
           split; [rewrite Hsc; cbn [List.length]; lia|]. split; [exact Hec|].
           split; [|split; [|split; assumption]].
           ++ unfold calculated. cbn [flat_map]. rewrite Ho. cbn [app].
              f_equal. exact Hres.
           ++ intros _. specialize (Hlen eq_refl). cbn [List.length]. lia.
        -- destruct (IH (idx + 1) results
                        (errors ++ [BatchError.mk (EmployeeInput.employee_id employee) idx
                                      str_e])%list sc (ec + 1))
             as (nr & ne & Hr & He & Hsc & Hec & Hres & Hlen & Herr & Hsorted).
           cbv zeta in Hr, He, Hsc, Hec.
           destruct (errors_shift _ _ employee _ _ Herr) as [H1 H2].
           rewrite <- app_assoc in He. cbn [app] in He.
           exists nr, (BatchError.mk (EmployeeInput.employee_id employee) idx str_e :: ne).
           cbv zeta.
           split; [exact Hr|]. split; [exact He|].
           split; [rewrite Hsc; cbn [List.length]; lia|].
           split; [rewrite Hec; cbn [List.length]; lia|].
           split; [|split; [|split]].
           ++ unfold calculated. cbn [flat_map]. rewrite Ho. cbn [app]. exact Hres.
           ++ intros _. specialize (Hlen eq_refl). cbn [List.length]. lia.
           ++ constructor; [|exact H1]. split; [cbn [BatchError.index]; lia|].
              exists employee. cbn [BatchError.index BatchError.employee_id BatchError.error].
              rewrite Z.sub_diag. split; [reflexivity|]. split; [reflexivity|].
              rewrite Ho. auto.
           ++ cbn [map BatchError.index]. constructor; assumption.
    + assert (Ho : batch_outcome file employee = None)
        by (unfold batch_outcome; rewrite Ej; reflexivity).
      destruct (IH (idx + 1) results
                   (errors ++ [BatchError.mk (EmployeeInput.employee_id employee) idx
                                 ("Invalid jurisdiction: "
                                  ++ Str.lower (EmployeeInput.jurisdiction employee))])%list
                   sc (ec + 1))
        as (nr & ne & Hr & He & Hsc & Hec & Hres & Hlen & Herr & Hsorted).
      cbv zeta in Hr, He, Hsc, Hec.
      destruct (errors_shift _ _ employee _ _ Herr) as [H1 H2].
      rewrite <- app_assoc in He. cbn [app] in He.
      exists nr, (BatchError.mk (EmployeeInput.employee_id employee) idx
                    ("Invalid jurisdiction: "
                     ++ Str.lower (EmployeeInput.jurisdiction employee)) :: ne).
      cbv zeta.
      split; [exact Hr|]. split; [exact He|].
      split; [rewrite Hsc; cbn [List.length]; lia|].
      split; [rewrite Hec; cbn [List.length]; lia|].
      split; [|split; [|split]].
      * destruct validate_only; [exact Hres|].
        unfold calculated. cbn [flat_map]. rewrite Ho. cbn [app]. exact Hres.
      * intros Hvo. specialize (Hlen Hvo). cbn [List.length]. lia.
      * constructor; [|exact H1]. split; [cbn [BatchError.index]; lia|].
        exists employee. cbn [BatchError.index BatchError.employee_id BatchError.error].
        rewrite Z.sub_diag. split; [reflexivity|]. split; [reflexivity|].
        rewrite Ho. reflexivity.
      * cbn [map BatchError.index]. constructor; assumption.
Qed.

(** X18.  The batch endpoint accounts for every employee once:
    [success_count + error_count] is the number of employees, and
    [error_count] is the length of [errors].  The indices of the errors
    increase strictly; each index points at an employee of the request whose
    id the entry carries, and the entry tells why there is no result: the
    jurisdiction is unknown, or the calculation raised.  With [validate_only]
    no calculation is run: [results] is empty and the only errors are
    unknown jurisdictions.  Without it [results] holds, in the order of the
    request, the results of the employees whose calculation returned, and
    its length is [success_count]. *)
Theorem batch_accounts_for_every_employee (request : BatchCalculationRequest.t) :
  let employees := BatchCalculationRequest.employees request in
  let validate_only := BatchCalculationRequest.validate_only request in
  let resp := calculate_payroll_batch file str_e request in
  BatchCalculationResponse.success_count resp + BatchCalculationResponse.error_count resp
    = Z.of_nat (List.length employees) /\
  BatchCalculationResponse.error_count resp
    = Z.of_nat (List.length (BatchCalculationResponse.errors resp)) /\
  StronglySorted Z.lt (map BatchError.index (BatchCalculationResponse.errors resp)) /\
  Forall (error_explained file str_e validate_only 0 employees)
         (BatchCalculationResponse.errors resp) /\
  BatchCalculationResponse.results resp
    = (if validate_only then [] else calculated file employees) /\
  (if validate_only then True
   else BatchCalculationResponse.success_count resp
        = Z.of_nat (List.length (BatchCalculationResponse.results resp))).
Proof.
  cbv zeta. unfold calculate_payroll_batch.
  destruct (batch_loop_spec (BatchCalculationRequest.validate_only request)
              (BatchCalculationRequest.employees request) 0 [] [] 0 0)
    as (nr & ne & Hr & He & Hsc & Hec & Hres & Hlen & Herr & Hsorted).
  cbv zeta in Hr, He, Hsc, Hec. cbn [app] in Hr, He.
  rewrite Hr, He, Hsc, Hec.
  split; [lia|]. split; [lia|]. split; [exact Hsorted|]. split; [exact Herr|].
  split; [exact Hres|].
  destruct (BatchCalculationRequest.validate_only request); [exact I|].
  specialize (Hlen eq_refl). lia.
Qed.

Lemma lower_case_outcome employee :
  Str.lower (EmployeeInput.jurisdiction employee) = EmployeeInput.jurisdiction employee ->
  match calculate_payroll file str_e (EmployeeInput.jurisdiction employee) employee with
  | Returned r => [r]
  | Raised _ => []
  end
  = match batch_outcome file employee with
    | Some (Some r) => [r]
    | _ => []
    end.
Proof.
  intros Hl. unfold calculate_payroll, batch_outcome. rewrite registry_get, Hl.
  destruct (jurisdiction_of_key (EmployeeInput.jurisdiction employee)) as [j|];
    cbn [option_map]; [|reflexivity].
  rewrite String.eqb_refl. cbn [negb].
  destruct (calculate (CALCULATORS file j) employee); reflexivity.
Qed.

(** X19.  For employees whose jurisdiction is in lower case, as the
    validator of the model leaves it, a batch that is not [validate_only]
    returns the results the single-employee endpoint returns when each
    employee is posted to the URL of its own jurisdiction, in the same
    order. *)
Theorem batch_agrees_with_single_endpoint (employees : list EmployeeInput.t) :
  Forall (fun e => Str.lower (EmployeeInput.jurisdiction e) = EmployeeInput.jurisdiction e)
         employees ->
  BatchCalculationResponse.results
    (calculate_payroll_batch file str_e (BatchCalculationRequest.mk employees false))
  = returned_bodies file str_e employees.
Proof.
  intros Hlower. unfold calculate_payroll_batch.
  cbn [BatchCalculationRequest.validate_only BatchCalculationRequest.employees].
  destruct (batch_loop_spec false employees 0 [] [] 0 0)
    as (nr & ne & Hr & _ & _ & _ & Hres & _).
  cbv zeta in Hr. rewrite Hr, Hres. cbn [app]. unfold calculated, returned_bodies.
  clear Hr Hres.
  induction Hlower as [|e rest He _ IH]; [reflexivity|].
  cbn [flat_map]. rewrite IH, (lower_case_outcome e He). reflexivity.
Qed.

End Batch.

Lemma batch_agrees_with_single_endpoint_witness :
  exists r1 r2,
    BatchCalculationResponse.results
      (calculate_payroll_batch None "InvalidOperation"
         (BatchCalculationRequest.mk [employee_with_phone; st_maarten_3001] false))
    = [r1; r2] /\
    calculate_payroll None "InvalidOperation" "aruba" employee_with_phone = Returned r1 /\
    calculate_payroll None "InvalidOperation" "st_maarten" st_maarten_3001 = Returned r2.
Proof.
  destruct (calculate_payroll None "InvalidOperation" "aruba" employee_with_phone)
    as [r1|] eqn:E1; [|vm_compute in E1; discriminate].
  destruct (calculate_payroll None "InvalidOperation" "st_maarten" st_maarten_3001)
    as [r2|] eqn:E2; [|vm_compute in E2; discriminate].
  exists r1, r2. split; [|split; reflexivity].
  rewrite (batch_agrees_with_single_endpoint None "InvalidOperation"
             [employee_with_phone; st_maarten_3001]).
  - unfold returned_bodies. cbn [flat_map EmployeeInput.jurisdiction employee_with_phone
      st_maarten_3001 app].
    change (EmployeeInput.jurisdiction employee_with_phone) with "aruba".
    change (EmployeeInput.jurisdiction st_maarten_3001) with "st_maarten".
    rewrite E1, E2. reflexivity.
  - repeat constructor.
Defined.

(* ================================================================== *)
(** ** Sizes of sums, products and quotients *)
(* ================================================================== *)

Section Within.
Import Dec DecSem DecFacts Spec.

Lemma within_iff k d : within k d <-> (- IZR k <= value d <= IZR k)%R.
Proof.
  unfold within. split.
  - intros H. unfold Rabs in H. destruct (Rcase_abs (value d)); lra.
  - intros H. apply Rabs_le. exact H.
Qed.

Lemma within_weaken a b d : a <= b -> within a d -> within b d.
Proof. unfold within. intros Hab H. apply IZR_le in Hab. lra. Qed.

Lemma within_nonneg k d : within k d -> 0 <= k.
Proof.
  unfold within. intros H. pose proof (Rabs_pos (value d)).
  apply le_IZR. lra.
Qed.

Lemma within_literal k : within (Z.abs k) (mkDecimal k 0).
Proof.
  unfold within. rewrite value_int, <- abs_IZR. lra.
Qed.

Lemma within_fix k d : k < 10 ^ prec -> within k d -> within k (fix_ctx d).
Proof.
  intros Hk H. pose proof (within_nonneg _ _ H) as H0. apply within_iff in H.
  apply within_iff.
  assert (Hp : fix_ctx (mkDecimal k 0) = mkDecimal k 0)
    by (apply fix_ctx_small; cbn [coeff]; lia).
  assert (Hn : fix_ctx (mkDecimal (- k) 0) = mkDecimal (- k) 0)
    by (apply fix_ctx_small; cbn [coeff]; lia).
  split.
  - replace (- IZR k)%R with (value (fix_ctx (mkDecimal (- k) 0)))
      by (rewrite Hn, value_int, opp_IZR; reflexivity).
    apply fix_ctx_mono. rewrite value_int, opp_IZR. lra.
  - replace (IZR k) with (value (fix_ctx (mkDecimal k 0)))
      by (rewrite Hp, value_int; reflexivity).
    apply fix_ctx_mono. rewrite value_int. lra.
Qed.

Lemma within_add a b x y :
  a + b < 10 ^ prec -> within a x -> within b y -> within (a + b) (add x y).
Proof.
  intros Hk Hx Hy. rewrite add_unfold. apply within_fix; [assumption|].
  unfold within in *. rewrite value_add_exact, plus_IZR.
  eapply Rle_trans; [apply Rabs_triang|]. lra.
Qed.

Lemma within_sub a b x y :
  a + b < 10 ^ prec -> within a x -> within b y -> within (a + b) (sub x y).
Proof.
  intros Hk Hx Hy. unfold sub. apply within_add; [assumption | assumption|].
  unfold within in *. rewrite value_copy_negate, Rabs_Ropp. exact Hy.
Qed.

Lemma within_mul a b x y :
  a * b < 10 ^ prec -> within a x -> within b y -> within (a * b) (mul x y).
Proof.
  intros Hk Hx Hy. rewrite mul_unfold. apply within_fix; [assumption|].
  unfold within in *. rewrite value_mul_exact, mult_IZR, Rabs_mult.
  pose proof (Rabs_pos (value x)). pose proof (Rabs_pos (value y)). nra.
Qed.

Lemma within_div a x y :
  Z.abs (coeff x) < 10 ^ prec -> expo y = 0 -> 1 <= coeff y ->
  within a x -> within a (div x y).
Proof.
  intros Hb He Hc Hx. unfold within in *.
  eapply Rle_trans; [apply div_abs_le; assumption | exact Hx].
Qed.

Lemma within_max a x y : within a x -> within a y -> within a (max x y).
Proof. intros Hx Hy. unfold max. destruct (ltb x y); assumption. Qed.

Lemma within_min a x y : within a x -> within a y -> within a (min x y).
Proof. intros Hx Hy. unfold min. destruct (ltb y x); assumption. Qed.

Lemma within_between k lo hi d :
  (value lo <= value d <= value hi)%R -> within k lo -> within k hi -> within k d.
Proof.
  intros H Hlo Hhi. apply within_iff in Hlo, Hhi. apply within_iff. lra.
Qed.

Lemma within_rounds k d : k <= 10 ^ 25 -> within k d -> round_currency d <> None.
Proof.
  intros Hk H. unfold round_currency.
  destruct (quantize_cents_defined d) as [r Hr]; [|rewrite Hr; discriminate].
  unfold within in H. eapply Rle_trans; [exact H|].
  rewrite <- (IZR_pow10 25) by lia. apply IZR_le. exact Hk.
Qed.

Lemma within_rounded k d r :
  within k d -> round_currency d = Some r -> within (k + 1) r.
Proof.
  intros H Hr. pose proof (quantize_cents_error _ _ Hr) as He.
  unfold within in *. rewrite plus_IZR.
  replace (value r) with ((value r - value d) + value d)%R by ring.
  eapply Rle_trans; [apply Rabs_triang|]. lra.
Qed.

Lemma within_fold_add l values : forall a acc,
  Forall (within l) values ->
  within a acc ->
  a + Z.of_nat (List.length values) * l < 10 ^ prec ->
  within (a + Z.of_nat (List.length values) * l) (fold_left add values acc).
Proof.
  induction values as [|v values IH]; intros a acc Hv Ha Hk.
  - cbn [fold_left List.length]. replace (a + Z.of_nat 0 * l) with a by lia. exact Ha.
  - inversion Hv as [|? ? Hv1 Hv2]; subst. cbn [fold_left].
    pose proof (within_nonneg _ _ Hv1) as Hl.
    replace (a + Z.of_nat (List.length (v :: values)) * l)
      with ((a + l) + Z.of_nat (List.length values) * l)
      by (cbn [List.length]; lia).
    apply IH; [assumption| |cbn [List.length] in Hk; lia].
    apply within_add; [cbn [List.length] in Hk; nia | assumption | assumption].
Qed.

Lemma modest_within d :
  modest d = true -> within MODEST_LIMIT d /\ Z.abs (coeff d) < 10 ^ prec.
Proof.
  unfold modest. rewrite !andb_true_iff, Z.ltb_lt, !leb_value, !value_int.
  intros [[Hb Hlo] Hhi]. split; [|exact Hb].
  apply within_iff. rewrite opp_IZR in Hlo. lra.
Qed.

Lemma modest_dict_within d :
  modest_dict d = true ->
  (List.length d <= MODEST_COUNT)%nat /\ Forall (within MODEST_LIMIT) (dict_values d).
Proof.
  unfold modest_dict. rewrite andb_true_iff, Nat.leb_le, forallb_forall.
  intros [Hlen Hall]. split; [exact Hlen|].
  unfold dict_values. apply Forall_map. apply Forall_forall. intros kv Hin.
  apply modest_within. apply Hall. exact Hin.
Qed.

End Within.

(* ================================================================== *)
(** ** A calculation on modest inputs *)
(* ================================================================== *)

Section ModestInputs.
Import DecSem DecFacts Spec.

Local Opaque Dec.div Dec.mul Dec.add Dec.sub Dec.max Dec.min Dec.neg Dec.quantize_cents
  DecFmt.format_f DecFmt.str Dec.ltb Dec.leb Dec.eqb.

Lemma prec_literal : 10 ^ Dec.prec = 10000000000000000000000000000.
Proof. vm_compute. reflexivity. Qed.

Lemma leb_within k d :
  Dec.leb (mkDecimal (- k) 0) d = true -> Dec.leb d (mkDecimal k 0) = true -> within k d.
Proof.
  rewrite !leb_value, !value_int, opp_IZR. intros Hlo Hhi. apply within_iff. lra.
Qed.

Lemma within_zero : within 0 (Dec.of_Z 0).
Proof. apply leb_within; vm_compute; reflexivity. Qed.

Lemma rounds_within k d :
  within k d -> k <= 10000000000000000000000000 -> round_currency d <> None.
Proof.
  intros H Hk. apply (within_rounds k); [|exact H].
  change (10 ^ 25) with 10000000000000000000000000. exact Hk.
Qed.

Ltac literal_lt := rewrite ?prec_literal; unfold MODEST_LIMIT; lia.

Lemma overtime_pay_within employee :
  modest_employee employee = true -> within 200000000000000 (overtime_pay employee).
Proof.
  unfold modest_employee. rewrite !andb_true_iff.
  intros [[[[[Hs Hhr] Hh] _] _] _].
  apply modest_within in Hs as [Hs Hsb]. apply modest_within in Hh as [Hh _].
  assert (Hm : within 2 Curacao.OVERTIME_MULTIPLIER)
    by (apply leb_within; vm_compute; reflexivity).
  assert (Hdiv : within (MODEST_LIMIT * 2)
                   (Dec.mul (Dec.div (EmployeeInput.gross_salary employee) (Dec.of_Z 160))
                            Curacao.OVERTIME_MULTIPLIER)).
  { apply within_mul; [literal_lt| |exact Hm].
    apply within_div; [exact Hsb | reflexivity | cbn [Dec.coeff Dec.of_Z]; lia | exact Hs]. }
  assert (Hrate : within (MODEST_LIMIT * 2) (overtime_rate employee)).
  { unfold overtime_rate.
    destruct (EmployeeInput.hourly_rate employee) as [hr|]; [|exact Hdiv].
    destruct (Dec.eqb hr (Dec.of_Z 0)); [exact Hdiv|].
    cbn [modest_option] in Hhr. apply modest_within in Hhr as [Hhr _].
    apply within_mul; [literal_lt | exact Hhr | exact Hm]. }
  unfold overtime_pay.
  change 200000000000000 with (MODEST_LIMIT * 2 * MODEST_LIMIT).
  apply within_mul; [literal_lt | exact Hrate | exact Hh].
Qed.

Lemma sum_within a acc values :
  within a acc -> 0 <= a -> a + 10000000000 < 10 ^ Dec.prec ->
  (List.length values <= MODEST_COUNT)%nat -> Forall (within MODEST_LIMIT) values ->
  within (a + 10000000000) (fold_left Dec.add values acc).
Proof.
  intros Ha H0 Hk Hlen Hv. unfold MODEST_COUNT in Hlen.
  apply (within_weaken (a + Z.of_nat (List.length values) * MODEST_LIMIT));
    [unfold MODEST_LIMIT; lia|].
  apply within_fold_add; [exact Hv | exact Ha|].
  rewrite prec_literal in *. unfold MODEST_LIMIT. lia.
Qed.

Lemma gross_within j employee :
  modest_employee employee = true -> within GROSS_LIMIT (gross_of j employee).
Proof.
  intros Hm. pose proof (overtime_pay_within employee Hm) as Hot.
  unfold modest_employee in Hm. rewrite !andb_true_iff in Hm.
  destruct Hm as [[[[[Hs _] _] _] Hal] _].
  apply modest_within in Hs as [Hs _].
  apply modest_dict_within in Hal as [Hlen Hal].
  unfold dict_values in Hlen. unfold gross_of.
  assert (Hlen' : (List.length (dict_values (EmployeeInput.allowances employee))
                   <= MODEST_COUNT)%nat)
    by (unfold dict_values; rewrite length_map; exact Hlen).
  assert (Hbase : within (0 + MODEST_LIMIT)
                    (Dec.add (Dec.of_Z 0) (EmployeeInput.gross_salary employee))).
  { apply within_add; [literal_lt | exact within_zero | exact Hs]. }
  change GROSS_LIMIT with (200000010000000 + 10000000000).
  apply sum_within; [|lia|literal_lt|exact Hlen'|exact Hal].
  destruct j; cbn [pays_overtime];
    try (eapply within_weaken; [|exact Hs]; unfold MODEST_LIMIT; lia).
  destruct (Dec.ltb (Dec.of_Z 0) (EmployeeInput.overtime_hours employee)).
  - change 200000010000000 with (0 + MODEST_LIMIT + 200000000000000).
    apply within_add; [literal_lt | exact Hbase | exact Hot].
  - eapply within_weaken; [|exact Hbase]. unfold MODEST_LIMIT. lia.
Qed.

Lemma earning_entries_round j employee :
  modest_employee employee = true ->
  exists items, round_items (earning_entries j employee) = Some items.
Proof.
  intros Hm. pose proof (overtime_pay_within employee Hm) as Hot.
  unfold modest_employee in Hm. rewrite !andb_true_iff in Hm.
  destruct Hm as [[[[[Hs _] _] _] Hal] _].
  apply modest_within in Hs as [Hs _].
  unfold modest_dict in Hal. rewrite andb_true_iff, forallb_forall in Hal.
  destruct Hal as [_ Hal].
  apply round_items_defined. unfold earning_entries. constructor.
  - cbn [PayrollLineItem.amount]. apply (rounds_within _ _ Hs). unfold MODEST_LIMIT. lia.
  - apply Forall_app. split.
    + destruct (pays_overtime j employee); [|constructor].
      constructor; [|constructor]. cbn [overtime_entry PayrollLineItem.amount].
      apply (rounds_within _ _ Hot). lia.
    + apply Forall_map. apply Forall_forall. intros kv Hin.
      cbn [allowance_entry PayrollLineItem.amount].
      destruct (modest_within _ (Hal kv Hin)) as [Hw _].
      apply (rounds_within _ _ Hw). unfold MODEST_LIMIT. lia.
Qed.

Lemma deduction_entries_round employee :
  modest_employee employee = true ->
  (exists items, round_items (deduction_entries employee) = Some items) /\
  within 10000000000
    (fold_left Dec.add (dict_values (EmployeeInput.deductions employee)) (Dec.of_Z 0)).
Proof.
  unfold modest_employee. rewrite !andb_true_iff. intros [_ Hd].
  pose proof (modest_dict_within _ Hd) as [Hlen Hv].
  unfold modest_dict in Hd. rewrite andb_true_iff, forallb_forall in Hd.
  destruct Hd as [_ Hd]. split.
  - apply round_items_defined. unfold deduction_entries.
    apply Forall_map. apply Forall_forall. intros kv Hin.
    cbn [deduction_entry PayrollLineItem.amount].
    destruct (modest_within _ (Hd kv Hin)) as [Hw _].
    apply (rounds_within _ _ Hw). unfold MODEST_LIMIT. lia.
  - change 10000000000 with (0 + 10000000000).
    apply sum_within; [exact within_zero | lia | literal_lt | | exact Hv].
    unfold dict_values. rewrite length_map. exact Hlen.
Qed.

Lemma payableGross_within employee :
  modest_employee employee = true -> within 10010000000 (payableGross employee).
Proof.
  unfold modest_employee. rewrite !andb_true_iff.
  intros [[[[[Hs _] _] _] Hal] _].
  apply modest_within in Hs as [Hs _].
  unfold modest_dict in Hal. rewrite andb_true_iff, Nat.leb_le, forallb_forall in Hal.
  destruct Hal as [Hlen Hal].
  unfold payableGross. change 10010000000 with (MODEST_LIMIT + 10000000000).
  apply sum_within; [exact Hs | unfold MODEST_LIMIT; lia | literal_lt | |].
  - unfold dict_values. rewrite length_map.
    eapply Nat.le_trans; [apply filter_length_le | exact Hlen].
  - unfold dict_values. apply Forall_map. apply Forall_forall. intros kv Hin.
    apply filter_In in Hin as [Hin _]. apply modest_within. apply Hal. exact Hin.
Qed.

(** A tax read from a modest table is a modest amount. *)
Lemma table_rows_loop_modest base rows : forall last t,
  forallb (forallb modest_cell) rows = true ->
  (forall l, last = Some l -> exists d, l = Finite d /\ modest d = true) ->
  Curacao.table_rows_loop base rows last = Some t ->
  exists d, t = Finite d /\ modest d = true.
Proof.
  induction rows as [|row rows IH]; intros last t Hrows Hlast H.
  - cbn [Curacao.table_rows_loop] in H. apply Hlast. exact H.
  - cbn [forallb] in Hrows. apply andb_true_iff in Hrows as [Hrow Hrows].
    cbn [Curacao.table_rows_loop] in H.
    destruct row as [|c0 [|c1 [|c2 r]]]; try (eapply IH; eassumption).
    cbn [forallb] in Hrow. rewrite !andb_true_iff in Hrow.
    destruct Hrow as (H0 & H1 & H2 & _).
    destruct c0 as [|[d0|n0|]|], c1 as [|[d1|n1|]|], c2 as [|[d2|n2|]|];
      cbn [modest_cell] in H0, H1, H2; try discriminate; try (eapply IH; eassumption).
    cbn [table_leb table_gtb] in H.
    assert (Hnext : forall l, Some (Finite d2) = Some l ->
                              exists d, l = Finite d /\ modest d = true).
    { intros l Hl. inversion Hl; subst. exists d2. auto. }
    destruct (Dec.leb d0 base); [destruct (Dec.ltb base d1)|].
    + inversion H; subst. exists d2. auto.
    + eapply IH; [exact Hrows | exact Hnext | exact H].
    + eapply IH; [exact Hrows | exact Hnext | exact H].
Qed.

Lemma lookup_modest file base t :
  modest_table file = true ->
  Curacao.lookup_tax_from_table file base = Some t ->
  exists d, t = Finite d /\ modest d = true.
Proof.
  intros Hm H. destruct file as [[|header rows]|]; try discriminate.
  cbn [Curacao.lookup_tax_from_table] in H. cbn [modest_table forallb] in Hm.
  apply andb_true_iff in Hm as [_ Hm].
  eapply table_rows_loop_modest; [exact Hm | | exact H]. discriminate.
Qed.

(** The bracket tax of each table is a rounded amount below a billion. *)
Lemma progressive_within j base :
  exists t note,
    calculate_progressive_tax base (TAX_BRACKETS_of j) = Some (t, note) /\
    within 1000000000 t /\ round_currency t = Some t.
Proof.
  assert (Hv : valid_brackets (TAX_BRACKETS_of j) = true)
    by (destruct j; vm_compute; reflexivity).
  assert (Hc : capped_brackets BRACKETS_END (TAX_BRACKETS_of j) = true)
    by (destruct j; vm_compute; reflexivity).
  assert (Hs : Dec.leb (fst (progressive_loop BRACKETS_END (TAX_BRACKETS_of j)
                               (Dec.of_Z 0) [])) (mkDecimal 1 25) = true)
    by (destruct j; vm_compute; reflexivity).
  destruct (progressive_tax_defined (TAX_BRACKETS_of j) Hv Hc Hs base)
    as (t & note & Ht & ct & cnote & Hct & H0 & H1).
  exists t, note. split; [exact Ht|]. split.
  - assert (Hcap : Dec.leb ct (mkDecimal 1000000000 0) = true).
    { destruct j; vm_compute in Hct; inversion Hct; vm_compute; reflexivity. }
    apply leb_value in Hcap. rewrite value_int in Hcap.
    apply within_iff. lra.
  - unfold calculate_progressive_tax in Ht.
    destruct (progressive_loop base (TAX_BRACKETS_of j) (Dec.of_Z 0) []) as [raw parts].
    destruct (round_currency raw) as [t'|] eqn:E; [|discriminate].
    inversion Ht; subst. exact (quantize_cents_idem _ _ E).
Qed.

Lemma tax_stage_defined file j employee gross s :
  modest_employee employee = true -> modest_table file = true ->
  within GROSS_LIMIT gross ->
  exists tax s',
    calculate_tax (CALCULATORS file j) employee gross s = Some (tax, s') /\
    within TAX_LIMIT tax.
Proof.
  intros Hm Hfile Hg.
  assert (Hbracket : forall tax_name,
            exists tax s',
              bracket_calculate_tax (TAX_BRACKETS_of j) tax_name employee gross s
                = Some (tax, s') /\
              within TAX_LIMIT tax).
  { intros tax_name. destruct (progressive_within j gross) as (t & note & Ht & Hw & Hr).
    unfold bracket_calculate_tax, bind, lift_option. rewrite Ht.
    unfold add_line_item, ret. rewrite Hr.
    eexists. eexists. split; [reflexivity|].
    eapply within_weaken; [|exact Hw]. unfold TAX_LIMIT. lia. }
  assert (Hzero : round_currency (Dec.of_Z 0) = Some (mkDecimal 0 (-2)))
    by (vm_compute; reflexivity).
  assert (Hw0 : within TAX_LIMIT (Dec.of_Z 0)).
  { eapply within_weaken; [|exact within_zero]. unfold TAX_LIMIT. lia. }
  destruct j; [| | exact (Hbracket "Income Tax") | exact (Hbracket "Payroll Tax")].
  - change (calculate_tax (CALCULATORS file curacao) employee gross s)
      with (Curacao.calculate_tax file employee gross s).
    destruct (EmployeeInput.tax_exempt employee) eqn:Hex.
    + rewrite calculate_tax_exempt by assumption. eexists. eexists.
      split; [reflexivity | exact Hw0].
    + destruct (EmployeeInput.tax_percentage employee) as [pct|] eqn:Hpct.
      * rewrite (calculate_tax_override file employee gross s pct Hex Hpct). cbv zeta.
        unfold modest_employee in Hm. rewrite !andb_true_iff in Hm.
        destruct Hm as [[[_ Hp] _] _]. rewrite Hpct in Hp. cbn [modest_option] in Hp.
        apply modest_within in Hp as [Hp Hpb].
        assert (Hw : within (GROSS_LIMIT * MODEST_LIMIT)
                       (Dec.mul gross (Dec.div pct (Dec.of_Z 100)))).
        { apply within_mul; [rewrite prec_literal; unfold GROSS_LIMIT, MODEST_LIMIT; lia
                            | exact Hg|].
          apply within_div; [exact Hpb | reflexivity | cbn [Dec.coeff Dec.of_Z]; lia
                            | exact Hp]. }
        destruct (round_currency (Dec.mul gross (Dec.div pct (Dec.of_Z 100))))
          as [a|] eqn:Ea.
        -- eexists. eexists. split; [reflexivity|].
           eapply within_weaken; [|exact Hw]. unfold TAX_LIMIT, GROSS_LIMIT, MODEST_LIMIT. lia.
        -- exfalso. revert Ea. apply (rounds_within _ _ Hw).
           unfold GROSS_LIMIT, MODEST_LIMIT. lia.
      * rewrite (calculate_tax_standard file employee gross s Hex Hpct).
        assert (Hraw : exists raw, gross_tax file (taxBase gross) = Some (Finite raw) /\
                                   within 1000000000 raw).
        { unfold gross_tax.
          destruct (Curacao.lookup_tax_from_table file (taxBase gross)) as [t|] eqn:El.
          - destruct (lookup_modest _ _ _ Hfile El) as (d & -> & Hd).
            exists d. split; [reflexivity|].
            apply modest_within in Hd as [Hd _].
            eapply within_weaken; [|exact Hd]. unfold MODEST_LIMIT. lia.
          - destruct (progressive_within curacao (taxBase gross))
              as (t & note & Ht & Hw & _).
            cbn [TAX_BRACKETS_of] in Ht. rewrite Ht. exists t. auto. }
        destruct Hraw as (raw & -> & Hraw). cbn [floored_tax].
        assert (Hcredit : within 243 monthly_basic_credit)
          by (apply leb_within; vm_compute; reflexivity).
        assert (Hw : within (1000000000 + 243)
                       (Dec.max (Dec.sub raw monthly_basic_credit) (Dec.of_Z 0))).
        { apply within_max.
          - apply within_sub; [literal_lt | exact Hraw | exact Hcredit].
          - eapply within_weaken; [|exact within_zero]. lia. }
        destruct (round_currency (Dec.max (Dec.sub raw monthly_basic_credit) (Dec.of_Z 0)))
          as [a|] eqn:Ea.
        -- eexists. eexists. split; [reflexivity|].
           eapply within_weaken; [|exact Hw]. unfold TAX_LIMIT. lia.
        -- exfalso. revert Ea. apply (rounds_within _ _ Hw). lia.
  - change (calculate_tax (CALCULATORS file st_maarten) employee gross s)
      with (StMaarten.calculate_tax employee gross s).
    unfold StMaarten.calculate_tax.
    destruct (EmployeeInput.tax_exempt employee); [|exact (Hbracket "Income Tax")].
    unfold bind, add_line_item, ret. rewrite Hzero.
    eexists. eexists. split; [reflexivity | exact Hw0].
Qed.

Lemma contributions_defined j employee gross :
  within GROSS_LIMIT gross ->
  (exists items, round_items (contribution_entries j employee gross) = Some items) /\
  within GROSS_LIMIT (sum_values (contributions_of j employee gross)).
Proof.
  intros Hg. destruct j; cbn [contribution_entries contributions_of].
  - split; [apply social_security_entries_round; apply premiumIncome_nonneg|].
    pose proof (premiumIncome_nonneg gross) as Hpi.
    pose proof (finalPrimaryPremium_bounds _ Hpi) as [Hf0 Hf1].
    pose proof (rawPremium_bounds _ Hpi) as [_ Hr1].
    pose proof (bvz_premium_bounds _ Hpi) as [Hb0 Hb1].
    pose proof (avbz_amount_bounds _ Hpi) as [Ha0 Ha1].
    assert (Hcap : forall c x, Dec.leb c (mkDecimal 1000 0) = true ->
                               (0 <= value x <= value c)%R -> within 1000 x).
    { intros c x Hc Hx. apply leb_value in Hc. rewrite value_int in Hc.
      apply within_iff. lra. }
    unfold social_security_contributions, sum_values, dict_values.
    cbn [map snd].
    apply (within_weaken (0 + Z.of_nat 4 * 1000)); [unfold GROSS_LIMIT; lia|].
    apply (within_fold_add 1000
             [if EmployeeInput.aov_exempt employee then Dec.of_Z 0
              else finalPrimaryPremium (premiumIncome gross);
              bvz_premium (premiumIncome gross); avbz_amount (premiumIncome gross);
              Dec.of_Z 0] 0 (Dec.of_Z 0));
      [|exact within_zero|cbn [List.length]; rewrite prec_literal; lia].
    constructor; [|constructor; [|constructor; [|constructor; [|constructor]]]].
    + destruct (EmployeeInput.aov_exempt employee).
      * eapply within_weaken; [|exact within_zero]. lia.
      * apply (Hcap (Dec.mul Curacao.AOV_AWW_MAX_MONTHLY Curacao.AOV_AWW_EMPLOYEE_RATE));
          [vm_compute; reflexivity | lra].
    + apply (Hcap (Dec.mul Curacao.BVZ_MAX_MONTHLY Curacao.BVZ_EMPLOYEE_RATE));
        [vm_compute; reflexivity | lra].
    + apply (Hcap (Dec.mul Curacao.AVBZ_MAX_MONTHLY Curacao.AVBZ_EMPLOYEE_RATE));
        [vm_compute; reflexivity | lra].
    + eapply within_weaken; [|exact within_zero]. lia.
  - assert (Hw : within (GROSS_LIMIT * 1) (st_maarten_contribution gross)).
    { unfold st_maarten_contribution. apply within_mul; [rewrite prec_literal; unfold GROSS_LIMIT; lia| |].
      - apply within_min; [exact Hg|].
        apply leb_within; vm_compute; reflexivity.
      - apply leb_within; vm_compute; reflexivity. }
    split.
    + apply round_items_defined. constructor; [|constructor].
      cbn [PayrollLineItem.amount].
      apply (rounds_within _ _ Hw). unfold GROSS_LIMIT. lia.
    + unfold sum_values, dict_values. cbn [map snd fold_left].
      change GROSS_LIMIT with (0 + GROSS_LIMIT * 1).
      apply within_add; [rewrite prec_literal; unfold GROSS_LIMIT; lia
                        | exact within_zero | exact Hw].
  - split; [exists []; reflexivity|]. unfold sum_values. cbn [dict_values map fold_left].
    eapply within_weaken; [|exact within_zero]. unfold GROSS_LIMIT. lia.
  - split; [exists []; reflexivity|]. unfold sum_values. cbn [dict_values map fold_left].
    eapply within_weaken; [|exact within_zero]. unfold GROSS_LIMIT. lia.
Qed.

Local Transparent Dec.div Dec.mul Dec.add Dec.sub Dec.max Dec.min Dec.neg Dec.quantize_cents
  DecFmt.format_f DecFmt.str Dec.ltb Dec.leb Dec.eqb.

End ModestInputs.

(* ================================================================== *)
(** ** Modest inputs are always calculated *)
(* ================================================================== *)

Section AlwaysCalculated.
Import DecSem DecFacts Spec.

Local Opaque Dec.div Dec.mul Dec.add Dec.sub Dec.max Dec.min Dec.neg Dec.quantize_cents
  DecFmt.format_f DecFmt.str Dec.ltb Dec.leb Dec.eqb.

Lemma modest_calculation_defined file j employee :
  modest_employee employee = true -> modest_table file = true ->
  exists r, calculate (CALCULATORS file j) employee = Some r.
Proof.
  intros Hm Hfile.
  pose proof (gross_within j employee Hm) as Hg.
  destruct (earning_entries_round j employee Hm) as [E HE].
  destruct (tax_stage_defined file j employee (gross_of j employee)
              (mkState ([] ++ E) [] []) Hm Hfile Hg) as (tax & s2 & Htax & Hwt).
  destruct (contributions_defined j employee (gross_of j employee) Hg) as [[S HS] Hws].
  destruct (deduction_entries_round employee Hm) as [[D HD] Hwo].
  pose proof (payableGross_within employee Hm) as Hwp.
  unfold calculate, run_stages, bind.
  rewrite (records_calculate_gross file j employee), HE. cbn [line_items warnings notes].
  rewrite Htax, social_security_stage_state, HS.
  rewrite (records_calculate_other_deductions employee), HD. unfold ret.
  rewrite add_paid_allowances_is_fold. fold (payableGross employee).
  set (other := fold_left Dec.add (dict_values (EmployeeInput.deductions employee))
                          (Dec.of_Z 0)) in *.
  set (ss := sum_values (contributions_of j employee (gross_of j employee))) in *.
  assert (Hd : within DEDUCTIONS_LIMIT (Dec.add (Dec.add tax ss) other)).
  { change DEDUCTIONS_LIMIT with (TAX_LIMIT + GROSS_LIMIT + 10000000000).
    apply within_add; [rewrite prec_literal; unfold TAX_LIMIT, GROSS_LIMIT; lia | | exact Hwo].
    apply within_add; [rewrite prec_literal; unfold TAX_LIMIT, GROSS_LIMIT; lia
                      | exact Hwt | exact Hws]. }
  assert (Hn : within NET_LIMIT
                 (Dec.sub (payableGross employee) (Dec.add (Dec.add tax ss) other))).
  { change NET_LIMIT with (10010000000 + DEDUCTIONS_LIMIT).
    apply within_sub; [rewrite prec_literal; unfold DEDUCTIONS_LIMIT; lia
                      | exact Hwp | exact Hd]. }
  destruct (round_currency (gross_of j employee)) as [g|] eqn:Eg;
    [|exfalso; revert Eg; apply (rounds_within _ _ Hg); unfold GROSS_LIMIT; lia].
  destruct (round_currency (Dec.add (Dec.add tax ss) other)) as [d|] eqn:Ed;
    [|exfalso; revert Ed; apply (rounds_within _ _ Hd); unfold DEDUCTIONS_LIMIT; lia].
  destruct (round_currency (Dec.sub (payableGross employee)
                                    (Dec.add (Dec.add tax ss) other))) as [n|] eqn:En;
    [|exfalso; revert En; apply (rounds_within _ _ Hn); unfold NET_LIMIT; lia].
  eexists. reflexivity.
Qed.

(** X20.  A calculation on modest inputs never raises.  When the salary,
    the hourly rate, the overtime hours, the override percentage and every
    allowance and deduction are amounts of at most 28 digits and at most ten
    million in size, with at most a thousand allowances and a thousand
    deductions, and the tax table is absent or holds such amounts only, every
    calculator returns a result. *)
Theorem modest_inputs_are_calculated (file : tax_table_file) (j : Jurisdiction)
    (employee : EmployeeInput.t) :
  modest_employee employee = true -> modest_table file = true ->
  exists r, calculate (CALCULATORS file j) employee = Some r.
Proof. apply modest_calculation_defined. Qed.

Lemma modest_inputs_are_calculated_witness :
  modest_employee employee_with_phone = true /\
  exists r, calculate (CALCULATORS table_with_bad_row curacao) employee_with_phone = Some r.
Proof.
  split; [vm_compute; reflexivity|].
  apply modest_inputs_are_calculated; vm_compute; reflexivity.
Defined.

Lemma validated_outcome file employee :
  (exists raw, validate_employee raw = Some employee) ->
  modest_employee employee = true -> modest_table file = true ->
  exists r, batch_outcome file employee = Some (Some r).
Proof.
  intros [raw Hv] Hm Hfile.
  destruct (validated_employee_facts raw employee Hv) as (_ & j & Hj).
  destruct (modest_calculation_defined file j employee Hm Hfile) as [r Hr].
  exists r. unfold batch_outcome. rewrite Hj, lower_key.
  rewrite (proj2 (jurisdiction_of_key_some _ j) eq_refl), Hr. reflexivity.
Qed.

(** X21.  Requests with modest numbers always succeed.  A validated
    employee with modest numbers that is posted to the URL of its own
    jurisdiction gets a result (status 200), never 400 or 500; and a batch of
    such employees reports no error: [error_count] is 0, [errors] is empty and
    [success_count] is the number of employees. *)
Theorem modest_requests_succeed (file : tax_table_file) (str_e : string) :
  modest_table file = true ->
  (forall raw employee url,
     validate_employee raw = Some employee ->
     modest_employee employee = true ->
     Str.lower url = EmployeeInput.jurisdiction employee ->
     exists r, calculate_payroll file str_e url employee = Returned r) /\
  (forall employees validate_only,
     Forall (fun e => (exists raw, validate_employee raw = Some e) /\
                      modest_employee e = true) employees ->
     let resp := calculate_payroll_batch file str_e
                   (BatchCalculationRequest.mk employees validate_only) in
     BatchCalculationResponse.errors resp = [] /\
     BatchCalculationResponse.error_count resp = 0 /\
     BatchCalculationResponse.success_count resp = Z.of_nat (List.length employees)).
Proof.
  intros Hfile. split.
  - intros raw employee url Hv Hm Hurl.
    destruct (validated_employee_facts raw employee Hv) as (_ & j & Hj).
    destruct (modest_calculation_defined file j employee Hm Hfile) as [r Hr].
    exists r. rewrite (calculate_payroll_own file str_e employee j url Hj Hurl), Hr.
    reflexivity.
  - intros employees validate_only Hall. cbv zeta. unfold calculate_payroll_batch.
    cbn [BatchCalculationRequest.validate_only BatchCalculationRequest.employees].
    destruct (batch_loop_spec file str_e validate_only employees 0 [] [] 0 0)
      as (nr & ne & _ & He & Hsc & Hec & _ & _ & Herr & _).
    cbv zeta in He, Hsc, Hec. cbn [app] in He.
    assert (Hne : ne = []).
    { destruct ne as [|err ne]; [reflexivity|]. exfalso.
      inversion Herr as [|? ? (_ & e & Hnth & _ & Hwhy) _]; subst.
      apply nth_error_In in Hnth.
      rewrite Forall_forall in Hall. destruct (Hall e Hnth) as [Hv Hm].
      destruct (validated_outcome file e Hv Hm Hfile) as [r Hr].
      rewrite Hr in Hwhy. destruct Hwhy as (_ & Hnone & _). discriminate. }
    rewrite Hne in He, Hsc, Hec. rewrite He, Hsc, Hec. cbn [List.length].
    split; [reflexivity|]. split; lia.
Qed.

Local Transparent Dec.div Dec.mul Dec.add Dec.sub Dec.max Dec.min Dec.neg Dec.quantize_cents
  DecFmt.format_f DecFmt.str Dec.ltb Dec.leb Dec.eqb.

Lemma modest_requests_succeed_witness :
  (exists r, calculate_payroll None "InvalidOperation" "Aruba" employee_with_phone
             = Returned r) /\
  BatchCalculationResponse.error_count
    (calculate_payroll_batch None "InvalidOperation"
       (BatchCalculationRequest.mk [employee_with_phone; st_maarten_3001] false)) = 0.
Proof.
  destruct (modest_requests_succeed None "InvalidOperation" eq_refl) as [Hone Hbatch].
  split.
  - apply (Hone employee_with_phone); vm_compute; reflexivity.
  - apply (Hbatch [employee_with_phone; st_maarten_3001] false).
    constructor; [|constructor; [|constructor]]; split;
      try (vm_compute; reflexivity).
    + exists employee_with_phone. vm_compute. reflexivity.
    + exists st_maarten_3001. vm_compute. reflexivity.
Defined.

End AlwaysCalculated.
